(** * api-tester-routes: dynamic content expansion and the performance harness

    A shallow embedding of [src/api_tester.py] and
    [src/dynamic_content_generator.py].

    - Python [str] values are [string]s whose characters are read as the code
      points 0..255; the [str] methods the program calls are given for exactly
      these code points ([Str.upper] apart from the two letters whose
      capitals lie beyond them).
    - Python [dict] objects live in a store ([heap]) and are referred to by
      location, because [process_dynamic_content] assigns into the dictionary
      it is handed and [dict.copy] is shallow.
    - The process-wide random source, the clock, the HTTP transport and the
      text/uuid libraries are scripts carried by the [world]; a statement
      quantified over every [world] covers every behaviour of these
      collaborators. *)

From Stdlib Require Import ZArith QArith Qminmax Qround Lqa.
From stdpp Require Import gmap strings list fin_maps sorting.
From Stdlib Require Import Ascii.
From Stdlib Require String.

Local Open Scope Z_scope.
Set Warnings "-register-all".
Set Default Proof Using "Type".

(** ** Python strings *)

Module Str.

Definition len (s : string) : Z := Z.of_nat (String.length s).

Fixpoint take (n : nat) (s : string) : string :=
  match n, s with
  | S n', String a s' => String a (take n' s')
  | _, _ => ""
  end.

Fixpoint drop (n : nat) (s : string) : string :=
  match n, s with
  | S n', String _ s' => drop n' s'
  | _, _ => s
  end.

(** [s[start:stop]], with Python's treatment of absent, negative and
    out-of-range bounds. *)
Definition clamp (n i : Z) : Z :=
  if i <? 0 then Z.max 0 (i + n) else Z.min i n.

Definition slice (s : string) (start stop : option Z) : string :=
  let n := len s in
  let lo := from_option (clamp n) 0 start in
  let hi := from_option (clamp n) n stop in
  take (Z.to_nat (hi - lo)) (drop (Z.to_nat lo) s).

(** [s.startswith(p)] and [s.endswith(p)]. *)
Fixpoint startswith (s p : string) : bool :=
  match p, s with
  | "", _ => true
  | String b p', String a s' => if Ascii.eqb a b then startswith s' p' else false
  | String _ _, "" => false
  end.

Definition endswith (s p : string) : bool :=
  startswith (String.rev s) (String.rev p).

(** [c in s] for a one-character [c]. *)
Fixpoint contains (c : ascii) (s : string) : bool :=
  match s with
  | "" => false
  | String a s' => if Ascii.eqb a c then true else contains c s'
  end.

(** [s.split(c)] for a one-character separator: never an empty list. *)
Fixpoint split (c : ascii) (s : string) : list string :=
  match s with
  | "" => [""]
  | String a s' =>
      if Ascii.eqb a c then "" :: split c s'
      else match split c s' with
           | w :: ws => String a w :: ws
           | [] => [String a ""]
           end
  end.

(** [s.split(c, 1)]: the text before the first [c] and the text after it,
    or [s] alone when [c] does not occur. *)
Fixpoint split1 (c : ascii) (s : string) : string * option string :=
  match s with
  | "" => ("", None)
  | String a s' =>
      if Ascii.eqb a c then ("", Some s')
      else let '(k, v) := split1 c s' in (String a k, v)
  end.

(** Unicode white space among the code points 0..255: TAB..CR, FS..US,
    SPACE, NEL and NBSP. *)
Definition isspace_char (a : ascii) : bool :=
  let n := N_of_ascii a in
  ((9 <=? n) && (n <=? 13) || (28 <=? n) && (n <=? 32)
   || (n =? 133) || (n =? 160))%N.

Fixpoint lstrip (s : string) : string :=
  match s with
  | String a s' => if isspace_char a then lstrip s' else s
  | "" => ""
  end.

Definition rstrip (s : string) : string := String.rev (lstrip (String.rev s)).

Definition strip (s : string) : string := rstrip (lstrip s).

(** [str.lower]: A..Z and the upper-case letters of the Latin-1 block. *)
Definition lower_char (a : ascii) : ascii :=
  let n := N_of_ascii a in
  if ((65 <=? n) && (n <=? 90)
      || (192 <=? n) && (n <=? 222) && negb (n =? 215))%N
  then ascii_of_N (n + 32) else a.

Fixpoint lower (s : string) : string :=
  match s with
  | "" => ""
  | String a s' => String (lower_char a) (lower s')
  end.

(** [str.upper]: a..z and the lower-case letters of the Latin-1 block go to
    their capitals, and sharp s (223) to ["SS"].  Two characters of the
    block, the micro sign (181) and y with diaeresis (255), have capitals
    beyond code point 255, which these strings cannot hold: [upper] leaves
    them as they are, and [upper_exact s] says that [s] holds neither. *)
Definition upper_char (a : ascii) : string :=
  let n := N_of_ascii a in
  if ((97 <=? n) && (n <=? 122)
      || (224 <=? n) && (n <=? 254) && negb (n =? 247))%N
  then String (ascii_of_N (n - 32)) ""
  else if (n =? 223)%N then "SS"
  else String a "".

Fixpoint upper (s : string) : string :=
  match s with
  | "" => ""
  | String a s' => upper_char a +:+ upper s'
  end.

(** Decimal digits 0..9. *)
Definition isdecimal_char (a : ascii) : bool :=
  let n := N_of_ascii a in ((48 <=? n) && (n <=? 57))%N.

(** [str.isdigit] also accepts the superscripts two, three and one. *)
Definition isdigit_char (a : ascii) : bool :=
  let n := N_of_ascii a in
  isdecimal_char a || ((n =? 178) || (n =? 179) || (n =? 185))%N.

Fixpoint forallb_str (p : ascii → bool) (s : string) : bool :=
  match s with
  | "" => true
  | String a s' => p a && forallb_str p s'
  end.

Definition isdigit (s : string) : bool :=
  match s with "" => false | _ => forallb_str isdigit_char s end.

Definition isdecimal (s : string) : bool :=
  match s with "" => false | _ => forallb_str isdecimal_char s end.

(** Value of a run of decimal digits, most significant first. *)
Fixpoint digits_value (acc : Z) (s : string) : Z :=
  match s with
  | "" => acc
  | String a s' => digits_value (10 * acc + (Z.of_N (N_of_ascii a) - 48)) s'
  end.

(** Neither the micro sign nor y with diaeresis occurs. *)
Definition upper_exact (s : string) : bool :=
  forallb_str (λ a, let n := N_of_ascii a in
                    negb (n =? 181)%N && negb (n =? 255)%N) s.

(** Decimal representation of an integer, as [str(n)] writes it. *)
Definition digit_char (d : Z) : ascii := ascii_of_N (Z.to_N (48 + d)).

Fixpoint of_pos_go (fuel : nat) (n : Z) (acc : string) : string :=
  match fuel with
  | O => acc
  | S fuel' =>
      let acc' := String (digit_char (n mod 10)) acc in
      if n <? 10 then acc' else of_pos_go fuel' (n / 10) acc'
  end.

Definition of_Z (n : Z) : string :=
  if n <? 0 then String "-" (of_pos_go (Z.to_nat (- n)) (- n) "")
  else of_pos_go (S (Z.to_nat n)) n "".

End Str.

(** ** Python values, exceptions and the world *)

Definition loc := nat.

(** Run-time values.  A [dict] is a reference into the store; a list is
    never assigned into by the program, so it is carried by value. *)
Inductive value : Type :=
| VNone
| VBool (b : bool)
| VInt (n : Z)
| VFloat (q : Q)
| VStr (s : string)
| VList (l : list value)
| VDict (a : loc).

(** The contents of one [dict] object: keys in insertion order. *)
Definition dict : Type := list (string * value).

(** JSON documents, as [json.dumps] writes them and [==] compares them. *)
Inductive json : Type :=
| JNone
| JBool (b : bool)
| JInt (n : Z)
| JFloat (q : Q)
| JStr (s : string)
| JList (l : list json)
| JDict (d : list (string * json)).

Inductive exn : Type :=
| TypeError (msg : string)
| ValueError (msg : string)
| IndexError (msg : string)
| KeyError (msg : string)
| AttributeError (msg : string)
| OverflowError (msg : string)
| RequestException (msg : string).

(** [str(e)] *)
Definition exn_str (e : exn) : string :=
  match e with
  | TypeError m | ValueError m | IndexError m | KeyError m
  | AttributeError m | OverflowError m | RequestException m => m
  end.

(** [datetime.datetime]: microseconds since the start of year 1 and, for an
    aware value, its UTC offset. *)
Record datetime : Type := Datetime { ticks : Z; utcoffset : option Z }.

(** What the transport does with one request: a response with a status code,
    or an exception. *)
Inductive reply : Type :=
| Response (status_code : Z)
| Failure (e : exn).

(** What the transport was asked to send. *)
Record request : Type := Request {
  req_method : string;
  req_url : string;
  req_headers : json;
  req_json : option json;
  req_params : json
}.

Record world : Type := World {
  heap : gmap loc dict;           (* the dict objects *)
  rng : list Z;                   (* raw draws of the [random] module *)
  texts : list string;            (* outputs of lorem.text / lorem.paragraph / uuid4 *)
  clock : list Q;                 (* readings of time.time() *)
  nows : list Z;                  (* readings of datetime.now(), in ticks *)
  fromisoformat : string → option datetime;
  strftime_ymd : datetime → string;
  net : list reply;               (* successive outcomes of requests.request *)
  sent : list request             (* requests handed to the transport, oldest first *)
}.

Definition set_heap (h : gmap loc dict) (w : world) : world :=
  World h (rng w) (texts w) (clock w) (nows w) (fromisoformat w)
        (strftime_ymd w) (net w) (sent w).
Definition set_rng (r : list Z) (w : world) : world :=
  World (heap w) r (texts w) (clock w) (nows w) (fromisoformat w)
        (strftime_ymd w) (net w) (sent w).
Definition set_texts (t : list string) (w : world) : world :=
  World (heap w) (rng w) t (clock w) (nows w) (fromisoformat w)
        (strftime_ymd w) (net w) (sent w).
Definition set_clock (c : list Q) (w : world) : world :=
  World (heap w) (rng w) (texts w) c (nows w) (fromisoformat w)
        (strftime_ymd w) (net w) (sent w).
Definition set_nows (n : list Z) (w : world) : world :=
  World (heap w) (rng w) (texts w) (clock w) n (fromisoformat w)
        (strftime_ymd w) (net w) (sent w).
Definition set_net (n : list reply) (w : world) : world :=
  World (heap w) (rng w) (texts w) (clock w) (nows w) (fromisoformat w)
        (strftime_ymd w) n (sent w).
Definition set_sent (s : list request) (w : world) : world :=
  World (heap w) (rng w) (texts w) (clock w) (nows w) (fromisoformat w)
        (strftime_ymd w) (net w) s.
(** ** Computations

    A computation returns, raises, or aborts.  [Abort] is not a Python
    behaviour: it stands for recursion deeper than the fuel given to the
    model, and for a store that is not a Python store (a dangling
    reference). *)

Inductive outcome (A : Type) : Type :=
| Ret (a : A) (w : world)
| Exc (e : exn) (w : world)
| Abort.
Arguments Ret {A} a w.
Arguments Exc {A} e w.
Arguments Abort {A}.

Definition M (A : Type) : Type := world → outcome A.

Definition ret {A} (a : A) : M A := λ w, Ret a w.
Definition raise {A} (e : exn) : M A := λ w, Exc e w.
Definition abort {A} : M A := λ _, Abort.

Definition bind {A B} (m : M A) (k : A → M B) : M B :=
  λ w, match m w with
       | Ret a w' => k a w'
       | Exc e w' => Exc e w'
       | Abort => Abort
       end.

Global Instance M_ret : MRet M := @ret.
Global Instance M_bind : MBind M := λ A B k m, bind m k.

(** [try: m except Exception as e: h e] *)
Definition try_except {A} (m : M A) (h : exn → M A) : M A :=
  λ w, match m w with
       | Exc e w' => h e w'
       | o => o
       end.

Definition get {A} (f : world → A) : M A := λ w, Ret (f w) w.
Definition modify (f : world → world) : M unit := λ w, Ret tt (f w).

(** Evaluate [f] on each element, left to right, collecting the results. *)
Fixpoint mapM {A B} (f : A → M B) (l : list A) : M (list B) :=
  match l with
  | [] => ret []
  | x :: l' => y ← f x; ys ← mapM f l'; ret (y :: ys)
  end.

(** [for x in l: f x] *)
Fixpoint forM {A} (l : list A) (f : A → M unit) : M unit :=
  match l with
  | [] => ret tt
  | x :: l' => f x;; forM l' f
  end.

(** ** The store of dict objects *)

Fixpoint dict_get (d : dict) (k : string) : option value :=
  match d with
  | [] => None
  | (k', v) :: d' => if String.eqb k' k then Some v else dict_get d' k
  end.

(** [d[k] = v]: an existing key keeps its position, a new key goes last. *)
Fixpoint dict_set (k : string) (v : value) (d : dict) : dict :=
  match d with
  | [] => [(k, v)]
  | (k', v') :: d' =>
      if String.eqb k' k then (k, v) :: d' else (k', v') :: dict_set k v d'
  end.

Definition deref (a : loc) : M dict :=
  λ w, match heap w !! a with
       | Some d => Ret d w
       | None => Abort
       end.

(** [data[key] = v] on the dict object at [a]. *)
Definition setitem (a : loc) (key : string) (v : value) : M unit :=
  d ← deref a;
  modify (λ w, set_heap (<[a := dict_set key v d]> (heap w)) w).

(** A new dict object. *)
Definition alloc (d : dict) : M value :=
  λ w, let a := fresh (dom (heap w)) in
       Ret (VDict a) (set_heap (<[a := d]> (heap w)) w).

(** [bool(v)] *)
Definition truthy (v : value) : M bool :=
  match v with
  | VNone => ret false
  | VBool b => ret b
  | VInt n => ret (negb (n =? 0))
  | VFloat q => ret (negb (Qeq_bool q 0))
  | VStr s => ret (negb (String.eqb s ""))
  | VList l => ret (match l with [] => false | _ => true end)
  | VDict a => d ← deref a; ret (match d with [] => false | _ => true end)
  end.

(** ** Names and literals, as error messages quote them *)

Definition dquote : string := String "034" "".

(** [type(v).__name__] *)
Definition type_name (v : value) : string :=
  match v with
  | VNone => "NoneType"
  | VBool _ => "bool"
  | VInt _ => "int"
  | VFloat _ => "float"
  | VStr _ => "str"
  | VList _ => "list"
  | VDict _ => "dict"
  end.

(** [v.copy()]: a new dict with the same entries (the values are not
    copied), a new list with the same elements. *)
Definition copy (v : value) : M value :=
  match v with
  | VDict a => d ← deref a; alloc d
  | VList l => ret (VList l)
  | _ => raise (AttributeError ("'" +:+ type_name v
                                +:+ "' object has no attribute 'copy'"))
  end.

(** [repr(s)] of a string: in single quotes, or in double quotes when [s]
    holds a single quote and no double quote; the quote and the backslash
    escaped, TAB, LF and CR by letter, any other character that is not
    printable as [\xNN]. *)
Definition hex_digit (n : N) : ascii :=
  if (n <? 10)%N then ascii_of_N (48 + n) else ascii_of_N (87 + n).

Definition printable_char (a : ascii) : bool :=
  let n := N_of_ascii a in
  ((32 <=? n) && (n <? 127) || (161 <=? n) && negb (n =? 173))%N.

Definition repr_char (quote a : ascii) : string :=
  let n := N_of_ascii a in
  if Ascii.eqb a quote || Ascii.eqb a "\"
  then String "\" (String a "")
  else if (n =? 9)%N then String "\" "t"
  else if (n =? 10)%N then String "\" "n"
  else if (n =? 13)%N then String "\" "r"
  else if printable_char a then String a ""
  else String "\" (String "x" (String (hex_digit (n / 16))
                                (String (hex_digit (n mod 16)) ""))).

Fixpoint repr_chars (quote : ascii) (s : string) : string :=
  match s with
  | "" => ""
  | String a s' => repr_char quote a +:+ repr_chars quote s'
  end.

Definition repr (s : string) : string :=
  let quote := if Str.contains "'" s && negb (Str.contains "034" s)
               then "034"%char else "'"%char in
  String quote (repr_chars quote s +:+ String quote "").

(** Whether [int(s)] reads [s]: white space around an optional sign and
    decimal digits, with single underscores between digits.  The white
    space of [int] is that of [str.strip] without the separators FS..US. *)
Definition int_space_char (a : ascii) : bool :=
  let n := N_of_ascii a in
  ((9 <=? n) && (n <=? 13) || (n =? 32) || (n =? 133) || (n =? 160))%N.

Fixpoint drop_while (p : ascii → bool) (s : string) : string :=
  match s with
  | String a s' => if p a then drop_while p s' else s
  | "" => ""
  end.

Fixpoint digit_groups (s : string) (after_digit : bool) : bool :=
  match s with
  | "" => after_digit
  | String a s' =>
      if Str.isdecimal_char a then digit_groups s' true
      else if Ascii.eqb a "_" then after_digit && digit_groups s' false
      else false
  end.

Definition int_literal (s : string) : bool :=
  match String.rev (drop_while int_space_char
                      (String.rev (drop_while int_space_char s))) with
  | "" => false
  | String a r =>
      if Ascii.eqb a "+" || Ascii.eqb a "-" then digit_groups r false
      else digit_groups (String a r) false
  end.

(** ** The [random] module (Python 3.11)

    [_randbelow(n)] is one raw draw reduced to [0 .. n-1]. *)

Definition draw : M Z :=
  λ w, match rng w with
       | [] => Ret 0 w
       | d :: r => Ret d (set_rng r w)
       end.

Definition randbelow (n : Z) : M Z := d ← draw; ret (d mod n).

(** [operator.index] *)
Definition index (v : value) : M Z :=
  match v with
  | VInt n => ret n
  | VBool b => ret (if b then 1 else 0)
  | _ => raise (TypeError ("'" +:+ type_name v
                           +:+ "' object cannot be interpreted as an integer"))
  end.

(** [v + 1] *)
Definition add_one (v : value) : M value :=
  match v with
  | VInt n => ret (VInt (n + 1))
  | VBool b => ret (VInt ((if b then 1 else 0) + 1))
  | VFloat q => ret (VFloat (q + 1))
  | VStr _ | VList _ =>
      raise (TypeError ("can only concatenate " +:+ type_name v +:+ " (not "
                        +:+ dquote +:+ "int" +:+ dquote +:+ ") to "
                        +:+ type_name v))
  | VNone | VDict _ =>
      raise (TypeError ("unsupported operand type(s) for +: '" +:+ type_name v
                        +:+ "' and 'int'"))
  end.

(** One argument of [randrange]: [operator.index], and for a value without
    [__index__] the deprecated path through [int], which accepts a float
    that is a whole number and nothing else ([int] of a string is never
    equal to the string). *)
Definition randrange_arg (which : string) (v : value) : M Z :=
  match v with
  | VInt n => ret n
  | VBool b => ret (if b then 1 else 0)
  | VFloat q =>
      if Qeq_bool (inject_Z (Qfloor q)) q then ret (Qfloor q)
      else raise (ValueError ("non-integer " +:+ which +:+ " for randrange()"))
  | VStr s =>
      if int_literal s
      then raise (ValueError ("non-integer " +:+ which +:+ " for randrange()"))
      else raise (ValueError ("invalid literal for int() with base 10: "
                              +:+ repr s))
  | VNone | VList _ | VDict _ =>
      raise (TypeError ("int() argument must be a string, a bytes-like object "
                        +:+ "or a real number, not '" +:+ type_name v +:+ "'"))
  end.

Definition randrange (start stop : value) : M Z :=
  istart ← randrange_arg "arg 1" start;
  istop ← randrange_arg "stop" stop;
  let width := istop - istart in
  if 0 <? width then r ← randbelow width; ret (istart + r)
  else raise (ValueError ("empty range for randrange() (" +:+ Str.of_Z istart
                          +:+ ", " +:+ Str.of_Z istop +:+ ", "
                          +:+ Str.of_Z width +:+ ")")).

(** [random.randint(a, b)] is [randrange(a, b+1)]. *)
Definition randint (a b : value) : M Z :=
  stop ← add_one b; randrange a stop.

(** [random.choice] on a list and on a string. *)
Definition choice (l : list value) : M value :=
  match l with
  | [] => raise (IndexError "Cannot choose from an empty sequence")
  | x :: _ => i ← randbelow (Z.of_nat (length l)); ret (nth (Z.to_nat i) l x)
  end.

Definition choice_str (s : string) : M string :=
  match s with
  | "" => raise (IndexError "Cannot choose from an empty sequence")
  | _ => i ← randbelow (Str.len s); ret (Str.slice s (Some i) (Some (i + 1)))
  end.

(** ** The text, uuid and datetime libraries *)

(** One output of [lorem.text()], [lorem.paragraph()] or [str(uuid.uuid4())]. *)
Definition next_text : M string :=
  λ w, match texts w with
       | [] => Ret "" w
       | t :: ts => Ret t (set_texts ts w)
       end.

Definition day_ticks : Z := 86400 * 1000000.

(** [datetime.max] is the last microsecond of 9999-12-31, day 3652059. *)
Definition max_ticks : Z := 3652059 * day_ticks.

Definition datetime_now : M datetime :=
  λ w, match nows w with
       | [] => Ret (Datetime 0 None) w
       | t :: ts => Ret (Datetime t None) (set_nows ts w)
       end.

(** [d + timedelta(days=n)] *)
Definition add_days (d : datetime) (n : Z) : M datetime :=
  let t := ticks d + n * day_ticks in
  if (0 <=? t) && (t <? max_ticks) then ret (Datetime t (utcoffset d))
  else raise (OverflowError "date value out of range").

Definition datetime_fromisoformat (s : string) : M datetime :=
  λ w, match fromisoformat w s with
       | Some d => Ret d w
       | None => Exc (ValueError ("Invalid isoformat string: " +:+ repr s)) w
       end.

(** [(e - s).days] for two datetimes. *)
Definition days_between (e s : datetime) : M Z :=
  match utcoffset e, utcoffset s with
  | None, None => ret ((ticks e - ticks s) / day_ticks)
  | Some oe, Some os => ret (((ticks e - oe) - (ticks s - os)) / day_ticks)
  | _, _ => raise (TypeError "can't subtract offset-naive and offset-aware datetimes")
  end.

(** ** [DynamicContentGenerator]

    A generator is called with [params] as its keyword arguments: every key must
    name a parameter, and every parameter without a default must be given. *)

Fixpoint unexpected_keyword (names : list string) (params : dict) : option string :=
  match params with
  | [] => None
  | (k, _) :: params' =>
      if existsb (String.eqb k) names then unexpected_keyword names params'
      else Some k
  end.

Definition check_kwargs (func : string) (names : list string) (params : dict)
    : M unit :=
  match unexpected_keyword names params with
  | None => ret tt
  | Some k => raise (TypeError ("DynamicContentGenerator." +:+ func
                                +:+ "() got an unexpected keyword argument '"
                                +:+ k +:+ "'"))
  end.

Definition kwarg (params : dict) (name : string) (default : value) : value :=
  from_option id default (dict_get params name).

Definition required (func : string) (params : dict) (name : string) : M value :=
  match dict_get params name with
  | Some v => ret v
  | None => raise (TypeError ("DynamicContentGenerator." +:+ func
                              +:+ "() missing 1 required positional argument: '"
                              +:+ name +:+ "'"))
  end.

Definition generate_text (params : dict) : M value :=
  check_kwargs "generate_text" ["min_words"; "max_words"] params;;
  let min_words := kwarg params "min_words" (VInt 3) in
  let max_words := kwarg params "max_words" (VInt 10) in
  word_count ← randint min_words max_words;
  text ← next_text;
  ret (VStr (Str.strip (Str.slice text None (Some (word_count * 10))))).

Definition generate_paragraph (params : dict) : M value :=
  check_kwargs "generate_paragraph" ["min_sentences"; "max_sentences"] params;;
  text ← next_text;
  ret (VStr text).

Definition generate_uuid (params : dict) : M value :=
  check_kwargs "generate_uuid" [] params;;
  u ← next_text;
  ret (VStr u).

Definition ascii_lowercase : string := "abcdefghijklmnopqrstuvwxyz".

(** [''.join(random.choice(string.ascii_lowercase) for _ in range(n))] *)
Fixpoint random_letters (n : nat) : M string :=
  match n with
  | O => ret ""
  | S n' => c ← choice_str ascii_lowercase; s ← random_letters n'; ret (c +:+ s)
  end.

Definition generate_email (params : dict) : M value :=
  check_kwargs "generate_email" [] params;;
  username ← random_letters 8;
  domain ← random_letters 6;
  ret (VStr (username +:+ "@" +:+ domain +:+ ".com")).

Definition generate_phone (params : dict) : M value :=
  check_kwargs "generate_phone" [] params;;
  a ← randint (VInt 200) (VInt 999);
  b ← randint (VInt 100) (VInt 999);
  c ← randint (VInt 1000) (VInt 9999);
  ret (VStr ("+1" +:+ Str.of_Z a +:+ Str.of_Z b +:+ Str.of_Z c)).

(** A bound of [generate_date] once the defaults are filled in: still the
    caller's value, or a datetime. *)
Inductive date_bound : Type :=
| Given (v : value)
| Date (d : datetime).

Definition parse_bound (b : date_bound) : M date_bound :=
  match b with
  | Given (VStr s) => d ← datetime_fromisoformat s; ret (Date d)
  | _ => ret b
  end.

Definition is_number (v : value) : bool :=
  match v with VBool _ | VInt _ | VFloat _ => true | _ => false end.

(** [(end_date - start_date).days] *)
Definition delta_days (e s : date_bound) : M Z :=
  match e, s with
  | Date e', Date s' => days_between e' s'
  | Given ve, Given vs =>
      if is_number ve && is_number vs
      then raise (AttributeError
                    ("'" +:+ (match ve, vs with
                              | VFloat _, _ | _, VFloat _ => "float"
                              | _, _ => "int"
                              end) +:+ "' object has no attribute 'days'"))
      else raise (TypeError ("unsupported operand type(s) for -: '"
                             +:+ type_name ve +:+ "' and '" +:+ type_name vs
                             +:+ "'"))
  | Date _, Given vs =>
      raise (TypeError ("unsupported operand type(s) for -: "
                        +:+ "'datetime.datetime' and '" +:+ type_name vs +:+ "'"))
  | Given ve, Date _ =>
      raise (TypeError ("unsupported operand type(s) for -: '"
                        +:+ type_name ve +:+ "' and 'datetime.datetime'"))
  end.

(** [if not start_date: start_date = now() - timedelta(days=365)] *)
Definition start_bound (start_date : value) : M date_bound :=
  given ← truthy start_date;
  if given : bool then ret (Given start_date)
  else now ← datetime_now; d ← add_days now (-365); ret (Date d).

(** [if not end_date: end_date = now()] *)
Definition end_bound (end_date : value) : M date_bound :=
  given ← truthy end_date;
  if given : bool then ret (Given end_date)
  else now ← datetime_now; ret (Date now).

Definition generate_date (params : dict) : M value :=
  check_kwargs "generate_date" ["start_date"; "end_date"] params;;
  start_date ← start_bound (kwarg params "start_date" VNone);
  end_date ← end_bound (kwarg params "end_date" VNone);
  start_date ← parse_bound start_date;
  end_date ← parse_bound end_date;
  days ← delta_days end_date start_date;
  random_days ← randint (VInt 0) (VInt days);
  match start_date with
  | Date s => d ← add_days s random_days; f ← get strftime_ymd; ret (VStr (f d))
  | Given v =>
      raise (TypeError ("unsupported operand type(s) for +: '" +:+ type_name v
                        +:+ "' and 'datetime.timedelta'"))
  end.

Definition generate_number (params : dict) : M value :=
  check_kwargs "generate_number" ["min_val"; "max_val"] params;;
  let min_val := kwarg params "min_val" (VInt 0) in
  let max_val := kwarg params "max_val" (VInt 100) in
  n ← randint min_val max_val;
  ret (VInt n).

Definition generate_boolean (params : dict) : M value :=
  check_kwargs "generate_boolean" [] params;;
  choice [VBool true; VBool false].

(** [generate_list] takes [generator_func], [length] and any further
    keywords: no value the marker
    parser produces is callable, so the comprehension raises on its first
    element; with no element it returns the empty list. *)
Definition generate_list (params : dict) : M value :=
  generator_func ← required "generate_list" params "generator_func";
  n ← index (kwarg params "length" (VInt 3));
  if 0 <? n
  then raise (TypeError ("'" +:+ type_name generator_func
                         +:+ "' object is not callable"))
  else ret (VList []).

Definition from_options (params : dict) : M value :=
  check_kwargs "from_options" ["options"] params;;
  options ← required "from_options" params "options";
  match options with
  | VList l => choice l
  | VStr s => c ← choice_str s; ret (VStr c)
  | VDict a =>
      d ← deref a;
      match d with
      | [] => raise (IndexError "Cannot choose from an empty sequence")
      | _ => i ← randbelow (Z.of_nat (length d)); raise (KeyError (Str.of_Z i))
      end
  | _ => raise (TypeError ("object of type '" +:+ type_name options
                           +:+ "' has no len()"))
  end.

(** The callable attributes that the class body of [DynamicContentGenerator]
    defines.  (What it inherits from [object] has names that start with two
    underscores.) *)
Definition generators : list (string * (dict → M value)) :=
  [ ("generate_text", generate_text);
    ("generate_paragraph", generate_paragraph);
    ("generate_uuid", generate_uuid);
    ("generate_email", generate_email);
    ("generate_phone", generate_phone);
    ("generate_date", generate_date);
    ("generate_number", generate_number);
    ("generate_boolean", generate_boolean);
    ("generate_list", generate_list);
    ("from_options", from_options) ].

(** [getattr(self.content_generator, func_name, None)] *)
Fixpoint lookup_generator (table : list (string * (dict → M value)))
    (func_name : string) : option (dict → M value) :=
  match table with
  | [] => None
  | (n, g) :: table' =>
      if String.eqb n func_name then Some g else lookup_generator table' func_name
  end.

Definition getattr_generator (func_name : string) : option (dict → M value) :=
  lookup_generator generators func_name.

(** ** [APITester.process_dynamic_content] *)

(** The conversion of one parameter value (lines 64-71). *)
Definition convert_value (v : string) : M value :=
  if String.eqb (Str.lower v) "true" then ret (VBool true)
  else if String.eqb (Str.lower v) "false" then ret (VBool false)
  else if Str.isdigit v then
    (* int(v) *)
    if Str.isdecimal v then ret (VInt (Str.digits_value 0 v))
    else raise (ValueError ("invalid literal for int() with base 10: "
                            +:+ repr v))
  else if Str.startswith v dquote && Str.endswith v dquote then
    ret (VStr (Str.slice v (Some 1) (Some (-1))))
  else ret (VStr v).

(** The loop over [param_pairs] (lines 58-72). *)
Fixpoint parse_pairs (param_pairs : list string) (params : dict) : M dict :=
  match param_pairs with
  | [] => ret params
  | pair_ :: rest =>
      if Str.contains "=" pair_ then
        match Str.split1 "=" pair_ with
        | (k, Some v) =>
            let k := Str.strip k in
            let v := Str.strip v in
            v ← convert_value v;
            parse_pairs rest (dict_set k v params)
        | (_, None) => raise (ValueError "not enough values to unpack")
        end
      else parse_pairs rest params
  end.

Definition parse_params (params_str : string) : M dict :=
  if String.eqb params_str "" then ret []
  else parse_pairs (Str.split "," params_str) [].

(** The body of the [try] block (lines 48-79). *)
Definition expand_marker (data : string) : M value :=
  let func_str := Str.slice data (Some 1) None in
  let func_name := hd "" (Str.split "(" func_str) in
  let params_str :=
    Str.slice func_str (Some (Str.len func_name + 1)) (Some (-1)) in
  params ← parse_params params_str;
  match getattr_generator func_name with
  | Some generator_method => generator_method params
  | None => ret (VStr ("Unknown generator: " +:+ func_name))
  end.

(** The string branch (lines 45-81). *)
Definition process_str (data : string) : M value :=
  if Str.startswith data "$generate_" then
    try_except (expand_marker data)
      (λ e, ret (VStr ("Error generating content: " +:+ exn_str e)))
  else ret (VStr data).

(** [fuel] bounds the depth of the recursion. *)
Fixpoint process_dynamic_content (fuel : nat) (data : value) : M value :=
  match fuel with
  | O => abort
  | S fuel' =>
      match data with
      | VDict a =>
          items ← deref a;
          forM items (λ kv,
            v ← process_dynamic_content fuel' kv.2;
            setitem a kv.1 v);;
          ret data
      | VList l =>
          l' ← mapM (process_dynamic_content fuel') l;
          ret (VList l')
      | VStr s => process_str s
      | _ => ret data
      end
  end.

(** ** What the transport is handed

    [requests.request] serialises its arguments when it is called; the log
    keeps that snapshot. *)

Fixpoint all_some {A} (l : list (option A)) : option (list A) :=
  match l with
  | [] => Some []
  | Some x :: l' => match all_some l' with Some xs => Some (x :: xs) | None => None end
  | None :: _ => None
  end.

Fixpoint snapshot (fuel : nat) (h : gmap loc dict) (v : value) : option json :=
  match fuel with
  | O => None
  | S fuel' =>
      match v with
      | VNone => Some JNone
      | VBool b => Some (JBool b)
      | VInt n => Some (JInt n)
      | VFloat q => Some (JFloat q)
      | VStr s => Some (JStr s)
      | VList l =>
          match all_some (map (snapshot fuel' h) l) with
          | Some js => Some (JList js)
          | None => None
          end
      | VDict a =>
          match h !! a with
          | Some d =>
              match all_some (map (λ kv : string * value,
                       match snapshot fuel' h kv.2 with
                       | Some j => Some (kv.1, j)
                       | None => None
                       end) d) with
              | Some js => Some (JDict js)
              | None => None
              end
          | None => None
          end
      end
  end.

Definition snap (fuel : nat) (v : value) : M json :=
  λ w, match snapshot fuel (heap w) v with
       | Some j => Ret j w
       | None => Abort
       end.

(** [time.time()] *)
Definition time_time : M Q :=
  λ w, match clock w with
       | [] => Ret 0%Q w
       | t :: ts => Ret t (set_clock ts w)
       end.

(** [requests.request(method, url, headers, json, params, timeout=30)]:
    returns a response (its status code here) or raises. *)
Definition requests_request (req : request) : M Z :=
  λ w, let w' := set_sent (sent w ++ [req]) w in
       match net w with
       | [] => Exc (RequestException "connection failed") w'
       | Response s :: rest => Ret s (set_net rest w')
       | Failure e :: rest => Exc e (set_net rest w')
       end.

(** [bool(response)] is [response.ok]: false exactly when
    [raise_for_status] raises, that is for a status code from 400 to 599. *)
Definition response_ok (status_code : Z) : bool :=
  negb ((400 <=? status_code) && (status_code <? 600)).

(** ** [ThreadPoolExecutor], as the thread that owns it sees it

    [submit] hands a task to the pool; [result] blocks until that task has
    run.  A task can run only between its submission and the return of
    [result]; the executor records both events. *)

Inductive pool_event : Type :=
| Submitted (task : nat)
| Completed (task : nat)
| Shutdown.

Record executor : Type := Executor {
  max_workers : Z;
  events : list pool_event        (* oldest first *)
}.

Record future (A : Type) : Type := Future { task_id : nat; task : M A }.
Arguments Future {A} task_id task.
Arguments task_id {A} f.
Arguments task {A} f.

Definition log_event (e : pool_event) (ex : executor) : executor :=
  Executor (max_workers ex) (events ex ++ [e]).

Definition is_submitted (e : pool_event) : bool :=
  match e with Submitted _ => true | _ => false end.

(** [ThreadPoolExecutor(max_workers=n)] *)
Definition executor_new (n : Z) : M executor :=
  if n <=? 0
  then raise (ValueError "max_workers must be greater than 0")
  else ret (Executor n []).

(** [executor.submit(t)] *)
Definition submit {A} (ex : executor) (t : M A) : executor * future A :=
  let i := length (filter (λ e, is_submitted e = true) (events ex)) in
  (log_event (Submitted i) ex, Future i t).

(** [future.result()] *)
Definition result {A} (ex : executor) (f : future A) : M (executor * A) :=
  r ← task f;
  ret (log_event (Completed (task_id f)) ex, r).

(** [with ThreadPoolExecutor(max_workers=n) as executor: body] *)
Definition with_executor {A} (n : Z) (body : executor → M (executor * A))
    : M (executor * A) :=
  ex ← executor_new n;
  r ← body ex;
  ret (log_event Shutdown r.1, r.2).

(** Tasks handed to the pool whose result has not been collected yet, after
    each event; the largest such number. *)
Fixpoint in_flight (evs : list pool_event) (running : nat) : list nat :=
  match evs with
  | [] => []
  | Submitted _ :: evs' => S running :: in_flight evs' (S running)
  | Completed _ :: evs' => pred running :: in_flight evs' (pred running)
  | Shutdown :: evs' => running :: in_flight evs' running
  end.

Definition max_in_flight (evs : list pool_event) : nat :=
  foldr Nat.max 0%nat (in_flight evs 0).

(** ** Statistics *)

(** [min(l)] and [max(l)] of a non-empty list. *)
Definition list_min (x : Q) (l : list Q) : Q := foldl Qmin x l.
Definition list_max (x : Q) (l : list Q) : Q := foldl Qmax x l.

Definition sum_Q (l : list Q) : Q := foldr Qplus 0%Q l.

(** [sorted(l)] *)
Fixpoint insert_sorted (x : Q) (l : list Q) : list Q :=
  match l with
  | [] => [x]
  | y :: l' => if Qle_bool x y then x :: l else y :: insert_sorted x l'
  end.

Definition sorted (l : list Q) : list Q := foldr insert_sorted [] l.

(** [l.count(c)] *)
Definition count (c : Z) (l : list Z) : nat :=
  length (filter (λ x, x = c) l).

(** [dict((code, status_codes.count(code)) for code in set(status_codes))] *)
Definition histogram (status_codes : list Z) : gmap Z nat :=
  set_to_map (λ code, (code, count code status_codes))
             (list_to_set status_codes : gset Z).

Definition histogram_total (m : gmap Z nat) : nat :=
  map_fold (λ _ n acc, (n + acc)%nat) 0%nat m.

Record statistics : Type := Statistics {
  st_url : string;
  st_method : string;
  requests_sent : Z;
  successful_requests : nat;
  min_time : Q;
  max_time : Q;
  avg_time : Q;
  median_time : Q;
  status_codes : gmap Z nat
}.

(** What [run_performance_test] returns: the error dict or the statistics
    dict. *)
Inductive test_result : Type :=
| ErrorResult (error : string)
| StatsResult (s : statistics).

(** ** [APITester] *)

Record APITester : Type := Tester {
  url : string;
  method : string;
  headers : value;
  body : value;
  params : value;
  response : option Z;
  duration : Q
}.

(** [x or {}] *)
Definition or_empty_dict (x : value) : M value :=
  t ← truthy x;
  if t : bool then ret x else alloc [].

(** [APITester.__init__] *)
Definition APITester_init (url method : string) (headers body params : value)
    : M APITester :=
  headers ← or_empty_dict headers;
  body ← or_empty_dict body;
  params ← or_empty_dict params;
  ret (Tester url (Str.upper method) headers body params None 0%Q).

Section Harness.

(** Rounding of a real number to a float.  A duration is the rounded
    difference of two clock readings; [statistics.mean] sums exactly and
    rounds once. *)
Variable fl : Q → Q.

Definition mean (l : list Q) : Q :=
  fl (sum_Q l / inject_Z (Z.of_nat (length l)))%Q.

Definition median (l : list Q) : Q :=
  let data := sorted l in
  let n := length data in
  if Nat.even n
  then fl (fl (nth (n / 2 - 1)%nat data 0 + nth (n / 2)%nat data 0) / 2)%Q
  else nth (n / 2)%nat data 0%Q.

(** [prepare_request_data] *)
Definition prepare_request_data (fuel : nat) (self : APITester) : M APITester :=
  h ← process_dynamic_content fuel (headers self);
  b ← process_dynamic_content fuel (body self);
  p ← process_dynamic_content fuel (params self);
  ret (Tester (url self) (method self) h b p (response self) (duration self)).

(** [send_request]: the response it returns, or [None], and the tester as
    the call leaves it. *)
Definition send_request (fuel : nat) (self : APITester)
    : M (option Z * APITester) :=
  self ← prepare_request_data fuel self;
  start_time ← time_time;
  try_except
    (h ← snap fuel (headers self);
     j ← (if existsb (String.eqb (method self)) ["POST"; "PUT"; "PATCH"]
          then b ← snap fuel (body self); ret (Some b)
          else ret None);
     p ← snap fuel (params self);
     r ← requests_request (Request (method self) (url self) h j p);
     now ← time_time;
     ret (Some r, Tester (url self) (method self) (headers self) (body self)
                    (params self) (Some r) (fl (now - start_time))))
    (λ e,
     now ← time_time;
     ret (None, Tester (url self) (method self) (headers self) (body self)
                  (params self) (response self) (fl (now - start_time)))).

(** [APITester(self.url, self.method, self.headers.copy(),
    self.body.copy(), self.params.copy())] *)
Definition new_tester (self : APITester) : M APITester :=
  h ← copy (headers self);
  b ← copy (body self);
  p ← copy (params self);
  APITester_init (url self) (method self) h b p.

(** [if response: durations.append(...); status_codes.append(...)] *)
Definition record_outcome (acc : list Q * list Z)
    (r : option Z * APITester) : list Q * list Z :=
  match r.1 with
  | Some status_code =>
      if response_ok status_code
      then (acc.1 ++ [duration r.2], acc.2 ++ [status_code])
      else acc
  | None => acc
  end.

(** The loop of the sequential branch (lines 143-152). *)
Fixpoint sequential_loop (fuel : nat) (self : APITester) (n : nat)
    (acc : list Q * list Z) : M (list Q * list Z) :=
  match n with
  | O => ret acc
  | S n' =>
      tester ← new_tester self;
      r ← send_request fuel tester;
      sequential_loop fuel self n' (record_outcome acc r)
  end.

(** The loop of the concurrent branch (lines 131-141). *)
Fixpoint concurrent_loop (fuel : nat) (self : APITester) (n : nat)
    (acc : list Q * list Z) (ex : executor)
    : M (executor * (list Q * list Z)) :=
  match n with
  | O => ret (ex, acc)
  | S n' =>
      tester ← new_tester self;
      let '(ex, future) := submit ex (send_request fuel tester) in
      r ← result ex future;
      concurrent_loop fuel self n' (record_outcome acc r.2) r.1
  end.

(** The concurrent branch with its executor (lines 130-141). *)
Definition concurrent_branch (fuel : nat) (self : APITester)
    (num_requests : Z) : M (executor * (list Q * list Z)) :=
  with_executor (Z.min num_requests 10)
    (concurrent_loop fuel self (Z.to_nat num_requests) ([], [])).

(** Lines 154-168. *)
Definition aggregate (self : APITester) (num_requests : Z)
    (acc : list Q * list Z) : test_result :=
  match acc.1 with
  | [] => ErrorResult "All requests failed"
  | d :: ds =>
      StatsResult
        (Statistics (url self) (method self) num_requests (length acc.1)
           (list_min d ds) (list_max d ds) (mean acc.1) (median acc.1)
           (histogram acc.2))
  end.

Definition run_performance_test (fuel : nat) (self : APITester)
    (num_requests : Z) (concurrent : bool) : M test_result :=
  acc ← (if concurrent
         then r ← concurrent_branch fuel self num_requests; ret r.2
         else sequential_loop fuel self (Z.to_nat num_requests) ([], []));
  ret (aggregate self num_requests acc).

End Harness.

(** ** Stores that hold JSON-like data

    A store is acyclic when its dicts can be ranked so that a dict only
    holds values of smaller rank.  [fits rk n v]: the value [v] nests at most
    [n] deep. *)

Fixpoint fits (rk : gmap loc nat) (n : nat) (v : value) : bool :=
  match n with
  | O => false
  | S n' =>
      match v with
      | VDict a => match rk !! a with Some r => (r <=? n)%nat | None => false end
      | VList l => forallb (fits rk n') l
      | _ => true
      end
  end.

Definition keys (d : dict) : list string := map fst d.

Fixpoint distinct (l : list string) : bool :=
  match l with
  | [] => true
  | k :: l' => negb (existsb (String.eqb k) l') && distinct l'
  end.

(** Every dict has a rank, distinct keys, and entries that fit below its
    rank; nothing else has a rank. *)
Definition ranked_entry (rk : gmap loc nat) (a : loc) (d : dict) : bool :=
  match rk !! a with
  | Some (S r) => distinct (keys d) && forallb (λ kv, fits rk r kv.2) d
  | _ => false
  end.

Definition ranked (rk : gmap loc nat) (h : gmap loc dict) : bool :=
  forallb (λ ad, ranked_entry rk ad.1 ad.2) (map_to_list h)
  && forallb (λ ar, bool_decide (is_Some (h !! ar.1))) (map_to_list rk).

(** The values a generator call can produce. *)
Definition generated (v : value) : Prop :=
  match v with
  | VBool _ | VInt _ | VStr _ | VList [] => True
  | _ => False
  end.

(** The executor after [n] rounds of submit-then-result. *)
Fixpoint loop_events (n : nat) (ex : executor) : executor :=
  match n with
  | O => ex
  | S n' =>
      let r := submit ex (ret tt) in
      loop_events n' (log_event (Completed (task_id r.2)) r.1)
  end.

(** ** The specification's words *)

Module Spec.

(** Section 4.2: a string is a marker iff it begins with [$generate_] or,
    more generally, is [$], an identifier and a parenthesized argument list
    that ends the string. *)
Definition is_letter (a : ascii) : bool :=
  let n := N_of_ascii a in
  ((65 <=? n) && (n <=? 90) || (97 <=? n) && (n <=? 122) || (n =? 95))%N.

Definition is_ident_char (a : ascii) : bool :=
  is_letter a || Str.isdecimal_char a.

Fixpoint skip_ident (s : string) : string :=
  match s with
  | String a s' => if is_ident_char a then skip_ident s' else s
  | "" => ""
  end.

Definition call_shaped (s : string) : bool :=
  match s with
  | String d (String a r) =>
      Ascii.eqb d "$" && is_letter a &&
      (let rest := skip_ident r in
       Str.startswith rest "(" && Str.endswith rest ")")
  | _ => false
  end.

Definition marker_shaped (s : string) : bool :=
  Str.startswith s "$generate_" || call_shaped s.

(** A JSON value containing no marker-shaped string. *)
Fixpoint no_marker (t : json) : bool :=
  match t with
  | JStr s => negb (marker_shaped s)
  | JList l => forallb no_marker l
  | JDict d => forallb (λ kj, match kj with (_, j) => no_marker j end) d
  | _ => true
  end.

(** Section 4.2: a value wrapped in [[...]] becomes a list. *)
Definition bracketed (v : string) : bool :=
  Str.startswith v "[" && Str.endswith v "]".

(** The JSON reading of a value that holds no dict: what a generator
    returns, as it appears in the document. *)
Fixpoint json_of (v : value) : option json :=
  match v with
  | VNone => Some JNone
  | VBool b => Some (JBool b)
  | VInt n => Some (JInt n)
  | VFloat q => Some (JFloat q)
  | VStr s => Some (JStr s)
  | VList l =>
      match all_some (map json_of l) with
      | Some js => Some (JList js)
      | None => None
      end
  | VDict _ => None
  end.

(** Section 4.2, expansion of a document: every string in it is replaced by
    what the string expander makes of it, the strings taken in document
    order; an array is expanded element by element and an object entry by
    entry, with its keys and their order kept; any other value is left as it
    is.  [fuel] bounds the depth of the document. *)
Fixpoint expand (fuel : nat) (t : json) : M json :=
  match fuel with
  | O => abort
  | S fuel' =>
      match t with
      | JStr s =>
          v ← process_str s;
          match json_of v with
          | Some j => ret j
          | None => abort
          end
      | JList l => l' ← mapM (expand fuel') l; ret (JList l')
      | JDict d =>
          d' ← mapM (λ kj : string * json,
                       j ← expand fuel' kj.2; ret (kj.1, j)) d;
          ret (JDict d')
      | _ => ret t
      end
  end.

End Spec.

(** ** The parameter syntax *)

(** [sep.join(l)] *)
Fixpoint join (sep : string) (l : list string) : string :=
  match l with
  | [] => ""
  | [x] => x
  | x :: l' => x +:+ sep +:+ join sep l'
  end.

(** [k=v] *)
Definition pair_text (kv : string * string) : string := kv.1 +:+ "=" +:+ kv.2.

(** What a parameter value is converted to when [int] accepts its
    digits: a bracketed value stays a string. *)
Definition converted (v : string) : value :=
  if String.eqb (Str.lower v) "true" then VBool true
  else if String.eqb (Str.lower v) "false" then VBool false
  else if Str.isdecimal v then VInt (Str.digits_value 0 v)
  else if Str.startswith v dquote && Str.endswith v dquote
       then VStr (Str.slice v (Some 1) (Some (-1)))
  else VStr v.

(** The dict that the pairs [k=v] are bound into, in order. *)
Definition bound_params (pairs : list (string * string)) : dict :=
  foldl (λ d kv, dict_set (Str.strip kv.1) (converted (Str.strip kv.2)) d) [] pairs.

(** The marker of section 8: [$from_options(["a","b"])]. *)
Definition from_options_marker : string :=
  "$from_options([" +:+ dquote +:+ "a" +:+ dquote +:+ ","
    +:+ dquote +:+ "b" +:+ dquote +:+ "])".

(** A pair [k=v] that the comma split leaves whole: no comma in the key or
    in the value, no [=] in the key. *)
Definition plain_pair (kv : string * string) : bool :=
  negb (Str.contains "," kv.1) && negb (Str.contains "=" kv.1)
  && negb (Str.contains "," kv.2).

(** A value that [str.isdigit] accepts and [int] rejects: all its characters
    are digits and one of them is a superscript digit. *)
Definition superscript_digits (v : string) : bool :=
  Str.isdigit v && negb (Str.isdecimal v).

(** The dict that the pairs [k=v] are bound into on top of [acc], in order,
    or the exception of [int] at the first value it rejects. *)
Fixpoint bind_pairs (pairs : list (string * string)) (acc : dict) : exn + dict :=
  match pairs with
  | [] => inr acc
  | kv :: rest =>
      let v := Str.strip kv.2 in
      if superscript_digits v
      then inl (ValueError ("invalid literal for int() with base 10: " +:+ repr v))
      else bind_pairs rest (dict_set (Str.strip kv.1) (converted v) acc)
  end.

(** A world with an empty store and empty scripts. *)
Definition empty_world : world :=
  World ∅ [] [] [] [] (λ _, None) (λ _, "") [] [].

(** The events of [n] tasks run one after the other, then the shutdown. *)
Definition serial_rounds (first n : nat) : list pool_event :=
  flat_map (λ i, [Submitted i; Completed i]) (seq first n).

Definition serial_events (n : nat) : list pool_event :=
  serial_rounds 0 n ++ [Shutdown].

(** A tester whose headers, body and params are three empty dicts, and a
    world whose store holds them and whose transport answers 200, 600, 404. *)
Definition sample_tester : APITester :=
  Tester "http://localhost/items" "GET" (VDict 0%nat) (VDict 1%nat) (VDict 2%nat) None 0%Q.

Definition sample_world : world :=
  World {[ 0%nat := []; 1%nat := []; 2%nat := [] ]} [] []
        [1; 3; 4; 8; 10; 11]%Q [] (λ _, None) (λ _, "")
        [Response 200; Response 600; Response 404] [].

(** ** Computations that leave the store and the transport alone *)

(** [w'] differs from [w] at most in the random sources. *)
Definition frame (w w' : world) : Prop :=
  heap w' = heap w ∧ clock w' = clock w ∧ net w' = net w ∧ sent w' = sent w.

(** [m] never aborts; it returns a value satisfying [P] or raises, and in
    both cases only the random sources have advanced. *)
Definition generates {A} (P : A → Prop) (m : M A) : Prop :=
  ∀ w, match m w with
       | Ret a w' => frame w w' ∧ P a
       | Exc _ w' => frame w w'
       | Abort => False
       end.

(** [w'] has the clock, the transport script and the request log of [w]. *)
Definition same_io (w w' : world) : Prop :=
  clock w' = clock w ∧ net w' = net w ∧ sent w' = sent w.

(** The values the marker parser produces. *)
Definition scalar (v : value) : Prop :=
  match v with
  | VDict _ | VList _ => False
  | _ => True
  end.

Definition scalar_params (params : dict) : Prop :=
  Forall (λ kv, scalar kv.2) params.

(** The headers, body and params of a tester are dicts, as annotated. *)
Definition dict_fields (self : APITester) : bool :=
  match headers self, body self, params self with
  | VDict _, VDict _, VDict _ => true
  | _, _, _ => false
  end.

(** The store is acyclic and the tester's fields nest at most [n] deep. *)
Definition well_formed (n : nat) (self : APITester) (w : world) : Prop :=
  ∃ rk, ranked rk (heap w) = true
        ∧ fits rk n (headers self) = true
        ∧ fits rk n (body self) = true
        ∧ fits rk n (params self) = true.

(** The response that [send_request] returns for a transport outcome. *)
Definition reply_status (r : reply) : option Z :=
  match r with
  | Response status_code => Some status_code
  | Failure _ => None
  end.

(** The sample store with a transport that answers 200 five times. *)
Definition all_ok_world : world :=
  World {[ 0%nat := []; 1%nat := []; 2%nat := [] ]} [] []
        [1; 3; 4; 8; 10; 11; 12; 15; 20; 21]%Q [] (λ _, None) (λ _, "")
        (replicate 5 (Response 200)) [].

(** What one iteration appends to the status codes. *)
Definition counted (r : option Z) : list Z :=
  match r with
  | Some status_code => if response_ok status_code then [status_code] else []
  | None => []
  end.

(** Every dict of the store has distinct keys. *)
Definition distinct_keys (h : gmap loc dict) : bool :=
  forallb (λ ad : loc * dict, distinct (keys ad.2)) (map_to_list h).

(** A store with a nested body: a dict holding scalars, a list and another
    dict, none of them a marker. *)
Definition plain_world : world :=
  World {[ 0%nat := [("name", VStr "widget"); ("price", VFloat (5 # 2));
                     ("tags", VList [VStr "$5 off"; VNone; VDict 1%nat]);
                     ("stock", VInt 3)];
           1%nat := [("active", VBool true); ("note", VStr "generate_uuid()")] ]}
        [4; 2] ["text"] [] [] (λ _, None) (λ _, "") [] [].

(** A route like the "Create User" route of [template.py]: the body has a
    marker at the top level and one inside a nested object. *)
Definition nested_tester : APITester :=
  Tester "https://api.example.com/users" "POST"
         (VDict 0%nat) (VDict 1%nat) (VDict 2%nat) None 0%Q.

Definition nested_world : world :=
  World {[ 0%nat := [];
           1%nat := [("profile", VDict 3%nat); ("id", VStr "$generate_uuid()")];
           2%nat := [];
           3%nat := [("token", VStr "$generate_uuid()")] ]}
        [] ["uuid-1"; "uuid-2"; "uuid-3"; "uuid-4"]
        [1; 3; 4; 8]%Q [] (λ _, None) (λ _, "")
        [Response 200; Response 200] [].

(** The body of [nested_tester] with [token] and [id] filled in. *)
Definition nested_body (token id : string) : json :=
  JDict [("profile", JDict [("token", JStr token)]); ("id", JStr id)].

(** The function name that [process_dynamic_content] reads off a marker. *)
Definition marker_name (data : string) : string :=
  hd "" (Str.split "(" (Str.slice data (Some 1) None)).

(** A store whose dict holds a malformed marker, a marker that names no
    generator, a good marker and a number. *)
Definition bad_marker_world : world :=
  World {[ 0%nat := [("title", VStr "$generate_text(min_words=)");
                     ("ids", VList [VStr "$generate_nope(x=1)";
                                    VStr "$generate_uuid()"]);
                     ("count", VInt 1)] ]}
        [] ["uuid-1"] [] [] (λ _, None) (λ _, "") [] [].

(** ** Documents in the store

    The dict objects that [v] reaches, each as often as it is reached; a
    value read from a JSON document reaches every object once. *)
Fixpoint locs (fuel : nat) (h : gmap loc dict) (v : value) : list loc :=
  match fuel with
  | O => []
  | S fuel' =>
      match v with
      | VList l => flat_map (locs fuel' h) l
      | VDict a =>
          a :: match h !! a with
               | Some d => flat_map (λ kv : string * value, locs fuel' h kv.2) d
               | None => []
               end
      | _ => []
      end
  end.

(** A world whose datetime library reads two ISO dates, thirty days apart. *)
Definition date_world : world :=
  World ∅ [7] [] [] []
        (λ s, if String.eqb s "2024-01-01" then Some (Datetime (10 * day_ticks) None)
              else if String.eqb s "2024-01-31" then Some (Datetime (40 * day_ticks) None)
              else None)
        (λ d, Str.of_Z (ticks d / day_ticks)) [] [].

(** The stores [h] and [h'] hold the same dict objects, each with the same
    keys in the same order. *)
Definition same_keys (h h' : gmap loc dict) : Prop :=
  ∀ a, keys <$> h' !! a = keys <$> h !! a.

(** A request of a run on the template [self]: to its URL, with its method
    in upper case, and with a JSON body exactly for POST, PUT and PATCH. *)
Definition request_of (self : APITester) (req : request) : Prop :=
  req_url req = url self
  ∧ req_method req = Str.upper (method self)
  ∧ (is_Some (req_json req) ↔ Str.upper (method self) ∈ ["POST"; "PUT"; "PATCH"]).

(** Every dict of [w] is in [w'] as it was. *)
Definition kept (w w' : world) : Prop :=
  ∀ x, is_Some (heap w !! x) → heap w' !! x = heap w !! x.

(** ** [template.py]: loading a configuration

    The file system and the JSON parser are outside the program: a call of
    [load_config_file] is given what [open] and [json.load] did. *)

(** [s.lstrip(chars)] and [s.rstrip(chars)] *)
Fixpoint lstrip_chars (chars s : string) : string :=
  match s with
  | String a s' => if Str.contains a chars then lstrip_chars chars s' else s
  | "" => ""
  end.

Definition rstrip_chars (chars s : string) : string :=
  String.rev (lstrip_chars chars (String.rev s)).

(** [p in s] for two strings. *)
Fixpoint contains_str (p s : string) : bool :=
  match s with
  | "" => String.eqb p ""
  | String _ s' => Str.startswith s p || contains_str p s'
  end.

(** [type(j).__name__] *)
Definition json_type_name (j : json) : string :=
  match j with
  | JNone => "NoneType"
  | JBool _ => "bool"
  | JInt _ => "int"
  | JFloat _ => "float"
  | JStr _ => "str"
  | JList _ => "list"
  | JDict _ => "dict"
  end.

(** [key in config] for a parsed document: a key of a dict, an element of a
    list, a substring of a string; other values are not containers. *)
Definition py_in (key : string) (config : json) : exn + bool :=
  match config with
  | JDict d => inr (existsb (λ kv : string * json, String.eqb kv.1 key) d)
  | JList l =>
      inr (existsb (λ x, match x with JStr s => String.eqb s key | _ => false end) l)
  | JStr s => inr (contains_str key s)
  | _ => inl (TypeError ("argument of type '" +:+ json_type_name config
                         +:+ "' is not iterable"))
  end.

(** What is raised inside the [try] block: a [json.JSONDecodeError], or
    another exception [e] with its [str(e)]. *)
Inductive load_exn : Type :=
| JSONDecodeError (msg : string)
| OtherException (msg : string).

(** What [open] and [json.load] do for one path. *)
Inductive file_read : Type :=
| FileDocument (config : json)
| FileRaises (e : load_exn).

(** The [try] block of [load_config_file] (lines 25-36). *)
Definition load_config_body (f : file_read) : load_exn + json :=
  match f with
  | FileRaises e => inl e
  | FileDocument config =>
      match py_in "routes" config with
      | inl e => inl (OtherException (exn_str e))
      | inr true => inr config
      | inr false =>
          match py_in "url" config with
          | inl e => inl (OtherException (exn_str e))
          | inr false =>
              inl (OtherException
                     "Config file must contain 'url' field or 'routes' array")
          | inr true => inr (JDict [("routes", JList [config])])
          end
      end
  end.

(** [load_config_file(config_path)] (lines 18-40) *)
Definition load_config_file (config_path : string) (f : file_read) : exn + json :=
  match load_config_body f with
  | inr config => inr config
  | inl (JSONDecodeError _) =>
      inl (ValueError ("Invalid JSON format in " +:+ config_path))
  | inl (OtherException msg) =>
      inl (ValueError ("Error loading config file: " +:+ msg))
  end.

(** ** [template.py]: the request of a route *)

(** The URL of a route (lines 148-150), for a base URL and a route URL that
    are strings. *)
Definition route_url (base_url url : string) : string :=
  if negb (String.eqb base_url "") && negb (Str.startswith url "http")
  then rstrip_chars "/" base_url +:+ "/" +:+ lstrip_chars "/" url
  else url.

(** The entries of [{**a, **b}] (line 158): the entries of [a], updated
    with those of [b] in order. *)
Definition merge_dicts (a b : dict) : dict :=
  foldl (λ d kv, dict_set kv.1 kv.2 d) a b.

(** ** The iterations of a run, as the clock and the transport show them

    Each iteration reads the clock when it starts and when the transport has
    answered or raised, and takes one outcome of the transport: it is
    measured by the response, if there is one, and the rounded difference of
    the two readings. *)
Fixpoint measured (fl : Q → Q) (n : nat) (clock : list Q) (net : list reply)
    : list (option Z * Q) :=
  match n with
  | O => []
  | S n' =>
      (head net ≫= reply_status, fl (nth 1 clock 0 - nth 0 clock 0)%Q)
      :: measured fl n' (drop 2 clock) (tail net)
  end.

(** An iteration is successful when it has a response whose status code is
    not one of 400..599. *)
Definition successful (m : option Z * Q) : bool :=
  match m.1 with
  | Some status_code => negb ((400 <=? status_code) && (status_code <? 600))
  | None => false
  end.

(** The durations and the status codes of the successful iterations, in
    order: what the statistics and the histogram are taken of. *)
Definition tally (ms : list (option Z * Q)) : list Q * list Z :=
  (map snd (List.filter successful ms), omap fst (List.filter successful ms)).

(** ** Computations that leave the store alone *)

(** The outcome [o] with the store replaced by [h]. *)
Definition with_heap {A} (h : gmap loc dict) (o : outcome A) : outcome A :=
  match o with
  | Ret a w => Ret a (set_heap h w)
  | Exc e w => Exc e (set_heap h w)
  | Abort => Abort
  end.

(** [m] neither reads nor writes the store: it does the same on every
    store and leaves it as it was. *)
Definition heapless {A} (m : M A) : Prop :=
  ∀ h w, m (set_heap h w) = with_heap h (m w).

(** The result [v'], in the world [w'], of expanding [v] in [w], and the
    document [t'] that the expansion of the document [t] gives. *)
Definition expansion_agrees (n : nat) (v : value) (w : world) (t : json)
    (v' : value) (w' : world) (t' : json) : Prop :=
  process_dynamic_content n v w = Ret v' w'
  ∧ Spec.expand n t w = Ret t' (set_heap (heap w) w')
  ∧ snapshot n (heap w') v' = Some t'
  ∧ (∀ x, x ∉ locs n (heap w) v → heap w' !! x = heap w !! x)
  ∧ locs n (heap w') v' = locs n (heap w) v
  ∧ distinct_keys (heap w') = true.

(** * Properties *)

(** ** String methods on sample inputs *)

Example slice_drop_first : Str.slice "$generate_uuid()" (Some 1) None = "generate_uuid()".
Proof. reflexivity. Qed.

Example slice_inner : Str.slice "generate_text(a=1)" (Some 14) (Some (-1)) = "a=1".
Proof. reflexivity. Qed.

Example slice_past_end : Str.slice "generate_uuid" (Some 14) (Some (-1)) = "".
Proof. reflexivity. Qed.

Example split_commas : Str.split "," "a=1, b=[1,2]" = ["a=1"; " b=[1"; "2]"].
Proof. reflexivity. Qed.

Example strip_both : Str.strip "  max_words " = "max_words".
Proof. reflexivity. Qed.

Example of_Z_samples : (Str.of_Z 0, Str.of_Z 907, Str.of_Z (-45)) = ("0", "907", "-45").
Proof. reflexivity. Qed.

(** [upper] on letters of the Latin-1 block: e with acute accent (233) goes
    to its capital (201), sharp s (223) to two letters. *)
Example upper_latin1 :
  Str.upper (String "g" (String "233" "t")) = String "G" (String "201" "T")
  ∧ Str.upper (String "223" "") = "SS"
  ∧ Str.upper_exact (String "g" (String "233" "t")) = true
  ∧ Str.upper_exact (String "181" "") = false.
Proof. repeat split. Qed.

(** ** Unfolding computations *)

Ltac munfold :=
  unfold mbind, M_bind, mret, M_ret, bind, ret, raise, get, modify in *.

Lemma bind_ret_l {A B} (a : A) (k : A → M B) w : (x ← ret a; k x) w = k a w.
Proof. reflexivity. Qed.

Lemma bind_Ret {A B} (m : M A) (k : A → M B) w a w' :
  m w = Ret a w' → (x ← m; k x) w = k a w'.
Proof. munfold. by intros ->. Qed.

Lemma bind_Exc {A B} (m : M A) (k : A → M B) w e w' :
  m w = Exc e w' → (x ← m; k x) w = Exc e w'.
Proof. munfold. by intros ->. Qed.

Lemma bind_Abort {A B} (m : M A) (k : A → M B) w :
  m w = Abort → (x ← m; k x) w = Abort.
Proof. munfold. by intros ->. Qed.

Lemma set_heap_id w : set_heap (heap w) w = w.
Proof. by destruct w. Qed.

(** ** The guard of the string branch *)

Lemma process_str_not_generate s w :
  Str.startswith s "$generate_" = false → process_str s w = Ret (VStr s) w.
Proof. unfold process_str. by intros ->. Qed.

(** Called directly, [from_options] does pick one of the options. *)
Lemma from_options_two w :
  ∃ w', from_options [("options", VList [VStr "a"; VStr "b"])] w = Ret (VStr "a") w'
      ∨ from_options [("options", VList [VStr "a"; VStr "b"])] w = Ret (VStr "b") w'.
Proof.
  unfold from_options, check_kwargs, required, choice, randbelow, draw.
  munfold. cbn -[Z.modulo].
  destruct (rng w) as [|d r]; cbn -[Z.modulo].
  - exists w. by left.
  - exists (set_rng r w). change (Z.of_nat 2) with 2.
    assert (0 <= d mod 2 < 2) as H by (apply Z.mod_pos_bound; lia).
    assert (d mod 2 = 0 ∨ d mod 2 = 1) as [-> | ->] by lia; auto.
Qed.

(** C2. The marker of section 8 is marker-shaped in the specification's
    sense, but the expander's guard only admits strings that begin with
    [$generate_]: the string comes back unexpanded, which is neither of its
    two options. *)
Theorem from_options_marker_unexpanded fuel w :
  Spec.marker_shaped from_options_marker = true
  ∧ process_dynamic_content (S fuel) (VStr from_options_marker) w
    = Ret (VStr from_options_marker) w
  ∧ from_options_marker ≠ "a" ∧ from_options_marker ≠ "b".
Proof.
  split; [reflexivity|]. split; [|split; discriminate].
  simpl. by apply process_str_not_generate.
Qed.

(** ** Strings *)

Lemma append_cons a s t : String a s +:+ t = String a (s +:+ t).
Proof. reflexivity. Qed.

Lemma append_nil_l t : "" +:+ t = t.
Proof. reflexivity. Qed.

Lemma split_no_sep c x : Str.contains c x = false → Str.split c x = [x].
Proof.
  induction x as [|a x IH]; simpl; [done|].
  destruct (Ascii.eqb a c); [done|]. intros H. by rewrite IH.
Qed.

Lemma split_app c x rest :
  Str.contains c x = false →
  Str.split c (x +:+ String c rest) = x :: Str.split c rest.
Proof.
  induction x as [|a x IH]; intros H.
  - rewrite append_nil_l. simpl. by rewrite Ascii.eqb_refl.
  - rewrite append_cons. simpl in *.
    destruct (Ascii.eqb a c); [done|]. by rewrite IH.
Qed.

Lemma contains_app c x y :
  Str.contains c (x +:+ y) = Str.contains c x || Str.contains c y.
Proof.
  induction x as [|a x IH]; [done|].
  rewrite append_cons. simpl. by destruct (Ascii.eqb a c).
Qed.

Lemma split1_app c k v :
  Str.contains c k = false → Str.split1 c (k +:+ String c v) = (k, Some v).
Proof.
  induction k as [|a k IH]; intros H.
  - rewrite append_nil_l. simpl. by rewrite Ascii.eqb_refl.
  - rewrite append_cons. simpl in *.
    destruct (Ascii.eqb a c); [done|]. by rewrite IH.
Qed.

Lemma split_join c parts :
  parts ≠ [] → forallb (λ x, negb (Str.contains c x)) parts = true →
  Str.split c (join (String c "") parts) = parts.
Proof.
  induction parts as [|x parts IH]; [done|]. intros _ H.
  simpl in H. apply andb_prop in H as [Hx Hr]. apply negb_true_iff in Hx.
  destruct parts as [|y parts].
  - simpl. by apply split_no_sep.
  - change (join (String c "") (x :: y :: parts))
      with (x +:+ String c "" +:+ join (String c "") (y :: parts)).
    change (String c "" +:+ join (String c "") (y :: parts))
      with (String c (join (String c "") (y :: parts))).
    rewrite split_app by done. by rewrite IH.
Qed.

(** ** The parameter parser *)

Lemma isdecimal_isdigit v : Str.isdecimal v = true → Str.isdigit v = true.
Proof.
  unfold Str.isdecimal, Str.isdigit. destruct v as [|a v]; [done|].
  generalize (String a v). clear. intros s.
  induction s as [|a s IH]; [done|]. simpl.
  intros [Ha Hs]%andb_prop. unfold Str.isdigit_char. rewrite Ha. simpl. auto.
Qed.

Lemma convert_value_cases v w :
  convert_value v w
  = if superscript_digits v
    then Exc (ValueError ("invalid literal for int() with base 10: " +:+ repr v)) w
    else Ret (converted v) w.
Proof.
  unfold convert_value, converted, superscript_digits.
  destruct (String.eqb_spec (Str.lower v) "true") as [E|_].
  - assert (Str.isdigit v = false) as ->; [|done].
    destruct v as [|a v]; [done|]. simpl in *.
    destruct a as [[] [] [] [] [] [] [] []]; try discriminate E; reflexivity.
  - destruct (String.eqb_spec (Str.lower v) "false") as [E|_].
    + assert (Str.isdigit v = false) as ->; [|done].
      destruct v as [|a v]; [done|]. simpl in *.
      destruct a as [[] [] [] [] [] [] [] []]; try discriminate E; reflexivity.
    + destruct (Str.isdigit v) eqn:Hd, (Str.isdecimal v) eqn:Hc; try done.
      * by rewrite (isdecimal_isdigit v Hc) in Hd.
      * simpl. by destruct (Str.startswith v dquote && Str.endswith v dquote).
Qed.

Lemma parse_pairs_bind pairs acc w :
  forallb plain_pair pairs = true →
  parse_pairs (map pair_text pairs) acc w
  = match bind_pairs pairs acc with inr d => Ret d w | inl e => Exc e w end.
Proof.
  revert acc. induction pairs as [|[k v] pairs IH]; intros acc H; [done|].
  simpl in H. apply andb_prop in H as [Hkv Hr].
  unfold plain_pair in Hkv. simpl in Hkv.
  repeat (apply andb_prop in Hkv as [Hkv ?]).
  repeat match goal with H : negb _ = true |- _ => apply negb_true_iff in H end.
  simpl. unfold pair_text at 1. simpl.
  rewrite contains_app. change ("=" +:+ v) with (String "=" v).
  simpl. rewrite ?orb_true_r.
  change (pair_text (k, v)) with (k +:+ String "=" v).
  rewrite split1_app by done.
  munfold. rewrite convert_value_cases.
  destruct (superscript_digits (Str.strip v)); [done|].
  by rewrite IH.
Qed.

Lemma bind_pairs_bound pairs acc :
  forallb (λ kv, negb (superscript_digits (Str.strip kv.2))) pairs = true →
  bind_pairs pairs acc
  = inr (foldl (λ d kv, dict_set (Str.strip kv.1)
                          (converted (Str.strip kv.2)) d) acc pairs).
Proof.
  revert acc. induction pairs as [|kv pairs IH]; intros acc H; [done|].
  simpl in H. apply andb_prop in H as [Hv Hr]. apply negb_true_iff in Hv.
  simpl. rewrite Hv. by apply IH.
Qed.

Lemma pair_text_no_comma kv :
  plain_pair kv = true → negb (Str.contains "," (pair_text kv)) = true.
Proof.
  destruct kv as [k v]. unfold plain_pair, pair_text. simpl. intros H.
  repeat (apply andb_prop in H as [H ?]).
  repeat match goal with H : negb _ = true |- _ => apply negb_true_iff in H end.
  rewrite !contains_app. apply negb_true_iff.
  rewrite H. simpl. done.
Qed.

Lemma pair_text_nonempty kv : pair_text kv ≠ "".
Proof.
  destruct kv as [k v]. unfold pair_text. simpl.
  destruct k; [discriminate|]. rewrite append_cons. discriminate.
Qed.

Lemma join_pairs_nonempty kv pairs :
  join "," (map pair_text (kv :: pairs)) ≠ "".
Proof.
  simpl. destruct (map pair_text pairs).
  - apply pair_text_nonempty.
  - pose proof (pair_text_nonempty kv).
    destruct (pair_text kv); [done|]. rewrite append_cons. discriminate.
Qed.

Lemma converted_bracketed v :
  Spec.bracketed v = true → converted v = VStr v.
Proof.
  unfold Spec.bracketed. intros H. apply andb_prop in H as [H _].
  destruct v as [|a r]; [done|]. simpl in H.
  destruct (Ascii.eqb_spec a "[") as [->|]; [|done].
  reflexivity.
Qed.

Lemma lower_of_decimal_char a :
  Str.isdecimal_char a = true → Str.lower_char a = a.
Proof. destruct a as [[] [] [] [] [] [] [] []]; by intros. Qed.

Lemma converted_decimal v :
  Str.isdecimal v = true → converted v = VInt (Str.digits_value 0 v).
Proof.
  intros H. unfold converted. rewrite H.
  destruct v as [|a r]; [done|]. simpl in H.
  apply andb_prop in H as [Ha _].
  simpl. rewrite (lower_of_decimal_char a Ha).
  destruct a as [[] [] [] [] [] [] [] []]; try discriminate Ha; reflexivity.
Qed.

Lemma converted_quoted v :
  Str.startswith v dquote && Str.endswith v dquote = true →
  converted v = VStr (Str.slice v (Some 1) (Some (-1))).
Proof.
  intros H. unfold converted. rewrite H.
  apply andb_prop in H as [H _].
  destruct v as [|a r]; [done|]. simpl in H.
  destruct (Ascii.eqb_spec a "034") as [->|]; [|done].
  reflexivity.
Qed.




(** A value of superscript digits passes [isdigit], and [int] raises on
    it: the marker becomes the error string. *)
Example superscript_value_raises :
  superscript_digits (String "178" "") = true
  ∧ process_str ("$generate_number(min_val=" +:+ String "178" "" +:+ ")") empty_world
    = Ret (VStr ("Error generating content: invalid literal for int() "
                 +:+ "with base 10: '" +:+ String "178" "" +:+ "'"))
          empty_world.
Proof. split; reflexivity. Qed.

(** ** The two branches of the harness *)

Section HarnessFacts.
Variable fl : Q → Q.

Lemma concurrent_loop_sequential fuel self n acc ex w :
  concurrent_loop fl fuel self n acc ex w
  = (acc' ← sequential_loop fl fuel self n acc;
     ret (loop_events n ex, acc')) w.
Proof.
  revert acc ex w. induction n as [|n IH]; intros acc ex w; [done|].
  simpl. munfold.
  destruct (new_tester self w) as [tester w1| |]; [|done..].
  unfold result. simpl. munfold.
  destruct (send_request fl fuel tester w1) as [r w2| |]; [|done..].
  simpl. apply IH.
Qed.

Lemma concurrent_branch_sequential fuel self num_requests w :
  1 ≤ num_requests →
  concurrent_branch fl fuel self num_requests w
  = (acc ← sequential_loop fl fuel self (Z.to_nat num_requests) ([], []);
     ret (log_event Shutdown
            (loop_events (Z.to_nat num_requests)
               (Executor (Z.min num_requests 10) [])), acc)) w.
Proof.
  intros Hn. unfold concurrent_branch, with_executor, executor_new.
  destruct (Z.leb_spec (Z.min num_requests 10) 0) as [?|_]; [lia|].
  munfold. rewrite concurrent_loop_sequential. munfold.
  by destruct (sequential_loop fl fuel self (Z.to_nat num_requests) ([], []) w).
Qed.

Lemma filter_submitted_app evs i :
  length (filter (λ e, is_submitted e = true) (evs ++ [Submitted i; Completed i]))
  = S (length (filter (λ e, is_submitted e = true) evs)).
Proof.
  rewrite filter_app, length_app.
  change (filter (λ e, is_submitted e = true) [Submitted i; Completed i])
    with [Submitted i].
  simpl. lia.
Qed.

Lemma loop_events_events n ex :
  events (loop_events n ex)
  = events ex
    ++ serial_rounds (length (filter (λ e, is_submitted e = true) (events ex))) n.
Proof.
  revert ex. induction n as [|n IH]; intros ex.
  - simpl. unfold serial_rounds. simpl. by rewrite app_nil_r.
  - simpl. rewrite IH. simpl.
    set (k := length (filter (λ e, is_submitted e = true) (events ex))).
    rewrite <- (app_assoc (events ex) [Submitted k] [Completed k]).
    change ([Submitted k] ++ [Completed k]) with [Submitted k; Completed k].
    rewrite filter_submitted_app. fold k.
    by rewrite <- app_assoc.
Qed.

Lemma loop_events_max_workers n ex :
  max_workers (loop_events n ex) = max_workers ex.
Proof. revert ex. induction n as [|n IH]; intros ex; [done|]. simpl. by rewrite IH. Qed.

Lemma in_flight_serial_rounds first n rest :
  in_flight (serial_rounds first n ++ rest) 0
  = flat_map (λ _, [1; 0]%nat) (seq first n) ++ in_flight rest 0.
Proof.
  revert first. induction n as [|n IH]; intros first; [done|].
  unfold serial_rounds in *. simpl. by rewrite IH.
Qed.

Lemma max_rounds first n :
  foldr Nat.max 0%nat (flat_map (λ _, [1; 0]%nat) (seq first n) ++ [0%nat])
  = match n with O => 0%nat | S _ => 1%nat end.
Proof.
  revert first. induction n as [|n IH]; intros first; [done|].
  simpl. rewrite IH. by destruct n.
Qed.

Lemma max_in_flight_serial n :
  (1 ≤ n)%nat → max_in_flight (serial_events n) = 1%nat.
Proof.
  intros Hn. unfold max_in_flight, serial_events.
  rewrite in_flight_serial_rounds. simpl.
  rewrite max_rounds. destruct n; [lia|done].
Qed.

End HarnessFacts.

Lemma concurrent_branch_executor fl fuel self num_requests w ex acc w' :
  1 ≤ num_requests →
  concurrent_branch fl fuel self num_requests w = Ret (ex, acc) w' →
  max_workers ex = Z.min num_requests 10
  ∧ events ex = serial_events (Z.to_nat num_requests).
Proof.
  intros Hn. rewrite concurrent_branch_sequential by done. munfold.
  destruct (sequential_loop fl fuel self (Z.to_nat num_requests) ([], []) w);
    [|done..].
  intros [= <- _ _]. simpl.
  by rewrite loop_events_max_workers, loop_events_events.
Qed.

(** For a count of at least 1 the concurrent branch behaves as the
    sequential one: same result, same requests in the same order, same final
    world; its executor sees each task completed before the next is
    submitted. *)
Theorem concurrent_mode_is_sequential fl fuel self num_requests w :
  1 ≤ num_requests →
  run_performance_test fl fuel self num_requests true w
  = run_performance_test fl fuel self num_requests false w
  ∧ ∀ ex acc w',
      concurrent_branch fl fuel self num_requests w = Ret (ex, acc) w' →
      events ex = serial_events (Z.to_nat num_requests).
Proof.
  intros Hn. split.
  - unfold run_performance_test. munfold.
    rewrite concurrent_branch_sequential by done. munfold.
    by destruct (sequential_loop fl fuel self (Z.to_nat num_requests) ([], []) w).
  - intros ex acc w' E.
    by destruct (concurrent_branch_executor _ _ _ _ _ _ _ _ Hn E).
Qed.

Lemma concurrent_mode_is_sequential_witness :
  run_performance_test id 2 sample_tester 3 true sample_world
  = run_performance_test id 2 sample_tester 3 false sample_world.
Proof.
  apply (concurrent_mode_is_sequential id 2 sample_tester 3 sample_world).
  lia.
Defined.

(** C9.  The two modes are not equivalent at a count of 0, where the
    concurrent branch does not do what the sequential one does: with no
    request to send the sequential branch returns the error result, and the
    concurrent branch raises [ValueError] from the constructor of its pool.
    (For every count of at least 1 they are equivalent, as shown above.) *)
Lemma concurrent_differs_at_zero :
  run_performance_test id 2 sample_tester 0 true sample_world
  = Exc (ValueError "max_workers must be greater than 0") sample_world
  ∧ run_performance_test id 2 sample_tester 0 false sample_world
    = Ret (ErrorResult "All requests failed") sample_world.
Proof. split; reflexivity. Qed.

(** C3.  Whenever the concurrent branch returns, its pool was created with
    [min(count, 10)] workers, but every task was collected before the next
    one was submitted: at no time was more than one iteration in flight. *)
Theorem concurrent_branch_one_in_flight fl fuel self num_requests w ex acc w' :
  concurrent_branch fl fuel self num_requests w = Ret (ex, acc) w' →
  max_workers ex = Z.min num_requests 10
  ∧ events ex = serial_events (Z.to_nat num_requests)
  ∧ max_in_flight (events ex) = 1%nat.
Proof.
  intros E.
  destruct (Z.leb_spec num_requests 0) as [Hn|Hn].
  { unfold concurrent_branch, with_executor, executor_new in E.
    destruct (Z.leb_spec (Z.min num_requests 10) 0) as [_|?]; [|lia].
    discriminate E. }
  assert (1 ≤ num_requests) as H1 by lia.
  destruct (concurrent_branch_executor _ _ _ _ _ _ _ _ H1 E) as [Hw Hev].
  split; [done|]. split; [done|].
  rewrite Hev. apply max_in_flight_serial. lia.
Qed.

Lemma concurrent_branch_one_in_flight_witness :
  ∃ ex acc w',
    concurrent_branch id 2 sample_tester 3 sample_world = Ret (ex, acc) w'
    ∧ max_workers ex = 3
    ∧ max_in_flight (events ex) = 1%nat.
Proof.
  destruct (concurrent_branch id 2 sample_tester 3 sample_world)
    as [[ex acc] w'| |] eqn:E; [|vm_compute in E; discriminate E..].
  exists ex, acc, w'. split; [reflexivity|].
  destruct (concurrent_branch_one_in_flight id 2 sample_tester 3 sample_world
              ex acc w' E) as (H1 & _ & H3).
  split; assumption.
Defined.

(** C5.  With no request to send, the concurrent branch raises while
    constructing its pool; the sequential branch returns the error result. *)
Theorem zero_requests_concurrent_raises fl fuel self w :
  run_performance_test fl fuel self 0 true w
  = Exc (ValueError "max_workers must be greater than 0") w
  ∧ run_performance_test fl fuel self 0 false w
    = Ret (ErrorResult "All requests failed") w.
Proof. split; reflexivity. Qed.

(** ** The status-code histogram *)

Lemma histogram_lookup l c n :
  histogram l !! c = Some n ↔ c ∈ l ∧ n = count c l.
Proof.
  unfold histogram. rewrite lookup_set_to_map.
  - split.
    + intros (y & Hy & [= -> <-]). split; [|done]. by apply elem_of_list_to_set in Hy.
    + intros [Hc ->]. exists c. split; [|done]. by apply elem_of_list_to_set.
  - by intros y y' _ _ [=].
Qed.

Lemma count_filter_ne c i l :
  c ≠ i → count c (filter (λ x, x ≠ i) l) = count c l.
Proof.
  intros Hne. unfold count. rewrite list_filter_filter.
  f_equal. apply list_filter_iff. intros x. split; [by intros [? _]|by intros ->].
Qed.

Lemma length_count_split i (l : list Z) :
  length l = (count i l + length (filter (λ x, x ≠ i) l))%nat.
Proof.
  unfold count. induction l as [|x l IH]; [done|].
  destruct (decide (x = i)) as [->|Hne].
  - rewrite filter_cons_True by done.
    rewrite (filter_cons_False (λ x, x ≠ i)) by (intros ?; done).
    simpl. lia.
  - rewrite filter_cons_False by done.
    rewrite (filter_cons_True (λ x, x ≠ i)) by done.
    simpl. lia.
Qed.

Lemma histogram_total_counts (m : gmap Z nat) :
  ∀ l, (∀ c n, m !! c = Some n → count c l = n) →
       (∀ c, c ∈ l → is_Some (m !! c)) →
       histogram_total m = length l.
Proof.
  induction m as [|i x m Hi IH] using map_ind; intros l Hcount Hdom.
  - unfold histogram_total. rewrite map_fold_empty.
    destruct l as [|c l]; [done|].
    destruct (Hdom c) as [? H]; [by left|]. by rewrite lookup_empty in H.
  - unfold histogram_total. rewrite map_fold_insert_L; [|intros; lia|done].
    fold (histogram_total m).
    rewrite (IH (filter (λ x, x ≠ i) l)).
    + rewrite (length_count_split i l).
      by rewrite (Hcount i x) by apply lookup_insert_eq.
    + intros c n Hc. assert (c ≠ i) by (intros ->; congruence).
      rewrite count_filter_ne by done.
      apply Hcount. by rewrite lookup_insert_ne.
    + intros c [Hne Hc]%list_elem_of_filter.
      specialize (Hdom c Hc). by rewrite lookup_insert_ne in Hdom.
Qed.

Lemma histogram_total_length l : histogram_total (histogram l) = length l.
Proof.
  apply histogram_total_counts.
  - by intros c n [_ ->]%histogram_lookup.
  - intros c Hc. exists (count c l). by apply histogram_lookup.
Qed.

(** ** What the loops accumulate *)

Section LoopInvariant.
Variable fl : Q → Q.

Lemma time_time_ret w : ∃ t w', time_time w = Ret t w'.
Proof. unfold time_time. destruct (clock w); eauto. Qed.

Lemma send_request_duration fuel tester w r w' :
  send_request fl fuel tester w = Ret r w' → ∃ x, duration r.2 = fl x.
Proof.
  unfold send_request, try_except. munfold.
  destruct (prepare_request_data fuel tester w) as [t1 w1| |]; [|done..].
  destruct (time_time_ret w1) as (t0 & w2 & ->).
  destruct (snap fuel (headers t1) w2) as [h w3|e w3|]; [| |done]; cycle 1.
  { destruct (time_time_ret w3) as (now & w4 & ->).
    intros [= <- _]. by eexists. }
  destruct (existsb (String.eqb (method t1)) ["POST"; "PUT"; "PATCH"]).
  - munfold.
    destruct (snap fuel (body t1) w3) as [b w4|e w4|]; [| |done]; cycle 1.
    { destruct (time_time_ret w4) as (now & w5 & ->).
      intros [= <- _]. by eexists. }
    destruct (snap fuel (params t1) w4) as [p w5|e w5|]; [| |done]; cycle 1.
    { destruct (time_time_ret w5) as (now & w6 & ->).
      intros [= <- _]. by eexists. }
    destruct (requests_request _ w5) as [s w6|e w6|]; [| |done].
    + destruct (time_time_ret w6) as (now & w7 & ->).
      intros [= <- _]. by eexists.
    + destruct (time_time_ret w6) as (now & w7 & ->).
      intros [= <- _]. by eexists.
  - destruct (snap fuel (params t1) w3) as [p w5|e w5|]; [| |done]; cycle 1.
    { destruct (time_time_ret w5) as (now & w6 & ->).
      intros [= <- _]. by eexists. }
    destruct (requests_request _ w5) as [s w6|e w6|]; [| |done].
    + destruct (time_time_ret w6) as (now & w7 & ->).
      intros [= <- _]. by eexists.
    + destruct (time_time_ret w6) as (now & w7 & ->).
      intros [= <- _]. by eexists.
Qed.

Lemma sequential_loop_invariant (P : list Q * list Z → Prop) fuel self n :
  (∀ acc tester w1 r w2,
     send_request fl fuel tester w1 = Ret r w2 → P acc → P (record_outcome acc r)) →
  ∀ acc w acc' w',
    P acc → sequential_loop fl fuel self n acc w = Ret acc' w' → P acc'.
Proof.
  intros Hstep. induction n as [|n IH]; intros acc w acc' w' Hacc.
  - by intros [= <- _].
  - simpl. munfold.
    destruct (new_tester self w) as [tester w1| |]; [|done..].
    destruct (send_request fl fuel tester w1) as [r w2| |] eqn:E; [|done..].
    apply IH. by eapply Hstep.
Qed.

Lemma sequential_loop_length fuel self n acc w acc' w' :
  sequential_loop fl fuel self n acc w = Ret acc' w' →
  (length acc'.1 ≤ length acc.1 + n)%nat.
Proof.
  revert acc w. induction n as [|n IH]; intros acc w.
  - intros [= <- _]. lia.
  - simpl. munfold.
    destruct (new_tester self w) as [tester w1| |]; [|done..].
    destruct (send_request fl fuel tester w1) as [r w2| |] eqn:E; [|done..].
    intros H%IH. etrans; [exact H|].
    unfold record_outcome. destruct r.1 as [s|]; [|lia].
    destruct (response_ok s); simpl; [|lia]. rewrite length_app. simpl. lia.
Qed.

(** A run that returns has run the sequential loop, whatever the mode. *)
Lemma run_performance_test_returns fuel self num_requests concurrent w r w' :
  run_performance_test fl fuel self num_requests concurrent w = Ret r w' →
  ∃ acc, sequential_loop fl fuel self (Z.to_nat num_requests) ([], []) w
         = Ret acc w'
       ∧ r = aggregate fl self num_requests acc.
Proof.
  unfold run_performance_test. destruct concurrent.
  - destruct (Z.leb_spec num_requests 0) as [Hn|Hn].
    { unfold concurrent_branch, with_executor, executor_new.
      destruct (Z.leb_spec (Z.min num_requests 10) 0) as [_|?]; [|lia].
      discriminate. }
    munfold. rewrite concurrent_branch_sequential by lia. munfold.
    destruct (sequential_loop fl fuel self (Z.to_nat num_requests) ([], []) w)
      as [acc w1| |]; [|done..].
    intros [= <- <-]. by exists acc.
  - munfold.
    destruct (sequential_loop fl fuel self (Z.to_nat num_requests) ([], []) w)
      as [acc w1| |]; [|done..].
    intros [= <- <-]. by exists acc.
Qed.

Lemma record_outcome_codes_ok acc r :
  Forall (λ c, response_ok c = true) acc.2 →
  Forall (λ c, response_ok c = true) (record_outcome acc r).2.
Proof.
  intros H. unfold record_outcome. destruct r.1 as [s|]; [|done].
  destruct (response_ok s) eqn:E; [|done]. simpl.
  apply Forall_app. split; [done|]. by constructor.
Qed.

Lemma record_outcome_lengths acc r :
  length acc.1 = length acc.2 →
  length (record_outcome acc r).1 = length (record_outcome acc r).2.
Proof.
  intros H. unfold record_outcome. destruct r.1 as [s|]; [|done].
  destruct (response_ok s); [|done]. simpl. rewrite !length_app. simpl. lia.
Qed.

End LoopInvariant.

(** ** Minimum, mean and maximum *)

Lemma Qmin_cases x y : Qmin x y = x ∨ Qmin x y = y.
Proof. unfold Qmin, GenericMinMax.gmin. destruct (x ?= y)%Q; auto. Qed.

Lemma Qmax_cases x y : Qmax x y = x ∨ Qmax x y = y.
Proof. unfold Qmax, GenericMinMax.gmax. destruct (x ?= y)%Q; auto. Qed.

Lemma list_min_in x l : list_min x l ∈ x :: l.
Proof.
  unfold list_min. revert x. induction l as [|y l IH]; intros x; simpl.
  - by left.
  - specialize (IH (Qmin x y)).
    apply elem_of_cons in IH as [->|IH]; [|by do 2 right].
    destruct (Qmin_cases x y) as [-> | ->]; [by left|by right; left].
Qed.

Lemma list_max_in x l : list_max x l ∈ x :: l.
Proof.
  unfold list_max. revert x. induction l as [|y l IH]; intros x; simpl.
  - by left.
  - specialize (IH (Qmax x y)).
    apply elem_of_cons in IH as [->|IH]; [|by do 2 right].
    destruct (Qmax_cases x y) as [-> | ->]; [by left|by right; left].
Qed.

Lemma list_min_le x l : Forall (λ y, (list_min x l <= y)%Q) (x :: l).
Proof.
  unfold list_min. revert x. induction l as [|y l IH]; intros x; simpl.
  - constructor; [apply Qle_refl|constructor].
  - specialize (IH (Qmin x y)). apply Forall_cons in IH as [H0 Hl].
    constructor; [|constructor; [|done]].
    + eapply Qle_trans; [exact H0|apply Q.le_min_l].
    + eapply Qle_trans; [exact H0|apply Q.le_min_r].
Qed.

Lemma list_max_ge x l : Forall (λ y, (y <= list_max x l)%Q) (x :: l).
Proof.
  unfold list_max. revert x. induction l as [|y l IH]; intros x; simpl.
  - constructor; [apply Qle_refl|constructor].
  - specialize (IH (Qmax x y)). apply Forall_cons in IH as [H0 Hl].
    constructor; [|constructor; [|done]].
    + eapply Qle_trans; [apply Q.le_max_l|exact H0].
    + eapply Qle_trans; [apply Q.le_max_r|exact H0].
Qed.

Lemma inject_length_cons {A} (x : A) l :
  (inject_Z (Z.of_nat (length (x :: l))) == inject_Z (Z.of_nat (length l)) + 1)%Q.
Proof.
  simpl length. rewrite Nat2Z.inj_succ, <- Z.add_1_r.
  rewrite inject_Z_plus. reflexivity.
Qed.

Lemma sum_Q_bounds lo hi l :
  Forall (λ y, (lo <= y)%Q ∧ (y <= hi)%Q) l →
  (lo * inject_Z (Z.of_nat (length l)) <= sum_Q l)%Q
  ∧ (sum_Q l <= hi * inject_Z (Z.of_nat (length l)))%Q.
Proof.
  induction 1 as [|y l [Hlo Hhi] _ [IH1 IH2]].
  - simpl. change (inject_Z (Z.of_nat 0)) with 0%Q. split; lra.
  - rewrite inject_length_cons. simpl sum_Q. split; nra.
Qed.

Lemma mean_bounds lo hi x l :
  Forall (λ y, (lo <= y)%Q ∧ (y <= hi)%Q) (x :: l) →
  (lo <= sum_Q (x :: l) / inject_Z (Z.of_nat (length (x :: l))))%Q
  ∧ (sum_Q (x :: l) / inject_Z (Z.of_nat (length (x :: l))) <= hi)%Q.
Proof.
  intros [H1 H2]%sum_Q_bounds.
  assert (0 < inject_Z (Z.of_nat (length (x :: l))))%Q as Hpos.
  { change 0%Q with (inject_Z 0). rewrite <- Zlt_Qlt. simpl. lia. }
  split.
  - by apply Qle_shift_div_l.
  - by apply Qle_shift_div_r.
Qed.

(** ** Generators neither abort nor touch the store *)

Lemma frame_refl w : frame w w.
Proof. by repeat split. Qed.

Lemma frame_trans w1 w2 w3 : frame w1 w2 → frame w2 w3 → frame w1 w3.
Proof. intros (?&?&?&?) (?&?&?&?). repeat split; congruence. Qed.

Lemma generates_ret {A} (P : A → Prop) a : P a → generates P (ret a).
Proof. intros H w. split; [apply frame_refl|done]. Qed.

Lemma generates_raise {A} (P : A → Prop) e : generates P (raise e).
Proof. intros w. apply frame_refl. Qed.

Lemma generates_bind {A B} (Q : A → Prop) (P : B → Prop) m (k : A → M B) :
  generates Q m → (∀ a, Q a → generates P (k a)) → generates P (m ≫= k).
Proof.
  intros Hm Hk w. specialize (Hm w). munfold.
  destruct (m w) as [a w1|e w1|]; [|done..].
  destruct Hm as [Hf Ha]. specialize (Hk a Ha w1).
  destruct (k a w1) as [b w2|e w2|]; [|by eapply frame_trans|done].
  destruct Hk. split; [by eapply frame_trans|done].
Qed.

Lemma generates_mono {A} (P Q : A → Prop) m :
  (∀ a, P a → Q a) → generates P m → generates Q m.
Proof.
  intros HPQ Hm w. specialize (Hm w). destruct (m w); [|done..].
  destruct Hm. auto.
Qed.

Lemma generates_try {A} (P : A → Prop) m h :
  generates P m → (∀ e, generates P (h e)) → generates P (try_except m h).
Proof.
  intros Hm Hh w. specialize (Hm w). unfold try_except.
  destruct (m w) as [a w1|e w1|]; [done| |done].
  specialize (Hh e w1). destruct (h e w1) as [b w2|e2 w2|]; [| |done].
  - destruct Hh. split; [by eapply frame_trans|done].
  - by eapply frame_trans.
Qed.

Lemma generates_draw : generates (λ _, True) draw.
Proof. intros w. unfold draw. destruct (rng w); by repeat split. Qed.

Lemma generates_next_text : generates (λ _, True) next_text.
Proof. intros w. unfold next_text. destruct (texts w); by repeat split. Qed.

Lemma generates_datetime_now : generates (λ _, True) datetime_now.
Proof. intros w. unfold datetime_now. destruct (nows w); by repeat split. Qed.

Lemma generates_get {A} (f : world → A) : generates (λ _, True) (get f).
Proof. intros w. by repeat split. Qed.

Lemma generates_fromisoformat s : generates (λ _, True) (datetime_fromisoformat s).
Proof.
  intros w. unfold datetime_fromisoformat.
  destruct (fromisoformat w s); by repeat split.
Qed.

Lemma generates_randbelow n : generates (λ _, True) (randbelow n).
Proof. unfold randbelow. eapply generates_bind; [apply generates_draw|]. intros. by apply generates_ret. Qed.

Lemma generates_index v : generates (λ _, True) (index v).
Proof. destruct v; simpl; try apply generates_raise; by apply generates_ret. Qed.

Lemma generates_add_one v : generates (λ _, True) (add_one v).
Proof. destruct v; simpl; try apply generates_raise; by apply generates_ret. Qed.

Lemma generates_randrange_arg which v :
  generates (λ _, True) (randrange_arg which v).
Proof.
  destruct v; simpl; try apply generates_raise; try by apply generates_ret.
  - destruct (Qeq_bool _ _); [by apply generates_ret|apply generates_raise].
  - destruct (int_literal _); apply generates_raise.
Qed.

Lemma generates_randrange a b : generates (λ _, True) (randrange a b).
Proof.
  unfold randrange.
  eapply generates_bind; [apply generates_randrange_arg|]. intros istart _.
  eapply generates_bind; [apply generates_randrange_arg|]. intros istop _.
  destruct (0 <? istop - istart); [|apply generates_raise].
  eapply generates_bind; [apply generates_randbelow|]. intros. by apply generates_ret.
Qed.

Lemma generates_randint a b : generates (λ _, True) (randint a b).
Proof.
  unfold randint. eapply generates_bind; [apply generates_add_one|].
  intros. apply generates_randrange.
Qed.

Lemma generates_choice l : generates (λ v, v ∈ l) (choice l).
Proof.
  unfold choice. destruct l as [|x l]; [apply generates_raise|].
  eapply generates_bind; [apply generates_randbelow|]. intros i _.
  apply generates_ret.
  destruct (nth_in_or_default (Z.to_nat i) (x :: l) x) as [H| ->].
  - by apply list_elem_of_In.
  - by left.
Qed.

Lemma generates_choice_str s : generates (λ _, True) (choice_str s).
Proof.
  unfold choice_str. destruct s; [apply generates_raise|].
  eapply generates_bind; [apply generates_randbelow|]. intros. by apply generates_ret.
Qed.

Lemma generates_check_kwargs func names params :
  generates (λ _, True) (check_kwargs func names params).
Proof.
  unfold check_kwargs. destruct (unexpected_keyword names params);
    [apply generates_raise|by apply generates_ret].
Qed.

Lemma dict_get_scalar params name v :
  scalar_params params → dict_get params name = Some v → scalar v.
Proof.
  induction 1 as [|[k x] params Hx _ IH]; simpl; [done|].
  destruct (String.eqb k name); [by intros [= <-]|done].
Qed.

Lemma kwarg_scalar params name default :
  scalar_params params → scalar default → scalar (kwarg params name default).
Proof.
  intros Hp Hd. unfold kwarg.
  destruct (dict_get params name) eqn:E; simpl; [|done].
  by eapply dict_get_scalar.
Qed.

Lemma generates_required func params name :
  scalar_params params → generates scalar (required func params name).
Proof.
  intros Hp. unfold required. destruct (dict_get params name) eqn:E.
  - apply generates_ret. by eapply dict_get_scalar.
  - apply generates_raise.
Qed.

Lemma generates_truthy v : scalar v → generates (λ _, True) (truthy v).
Proof. destruct v; simpl; try done; intros _; by apply generates_ret. Qed.

Lemma generates_random_letters n : generates (λ _, True) (random_letters n).
Proof.
  induction n as [|n IH]; cbn [random_letters]; [by apply generates_ret|].
  eapply generates_bind; [apply generates_choice_str|]. intros c _.
  eapply generates_bind; [apply IH|]. intros. by apply generates_ret.
Qed.

Lemma generates_add_days d n : generates (λ _, True) (add_days d n).
Proof.
  unfold add_days. destruct (_ && _); [by apply generates_ret|apply generates_raise].
Qed.

Lemma generates_days_between e s : generates (λ _, True) (days_between e s).
Proof.
  unfold days_between.
  destruct (utcoffset e), (utcoffset s);
    try apply generates_raise; by apply generates_ret.
Qed.

Lemma generates_start_bound v : scalar v → generates (λ _, True) (start_bound v).
Proof.
  intros Hv. unfold start_bound.
  eapply generates_bind; [by apply generates_truthy|]. intros [] _.
  - by apply generates_ret.
  - eapply generates_bind; [apply generates_datetime_now|]. intros now _.
    eapply generates_bind; [apply generates_add_days|]. intros. by apply generates_ret.
Qed.

Lemma generates_end_bound v : scalar v → generates (λ _, True) (end_bound v).
Proof.
  intros Hv. unfold end_bound.
  eapply generates_bind; [by apply generates_truthy|]. intros [] _.
  - by apply generates_ret.
  - eapply generates_bind; [apply generates_datetime_now|]. intros. by apply generates_ret.
Qed.

Lemma generates_parse_bound b : generates (λ _, True) (parse_bound b).
Proof.
  destruct b as [v|d]; simpl; [|by apply generates_ret].
  destruct v; try by apply generates_ret.
  eapply generates_bind; [apply generates_fromisoformat|]. intros. by apply generates_ret.
Qed.

Lemma generates_delta_days e s : generates (λ _, True) (delta_days e s).
Proof.
  destruct e, s; simpl; try apply generates_raise.
  - destruct (_ && _); apply generates_raise.
  - apply generates_days_between.
Qed.

Ltac gen_kwargs :=
  eapply generates_bind; [apply generates_check_kwargs|intros _ _].

Lemma generates_generate_text params :
  scalar_params params → generates generated (generate_text params).
Proof.
  intros Hp. unfold generate_text. gen_kwargs.
  eapply generates_bind; [apply generates_randint|]. intros n _.
  eapply generates_bind; [apply generates_next_text|]. intros t _.
  by apply generates_ret.
Qed.

Lemma generates_generate_paragraph params :
  generates generated (generate_paragraph params).
Proof.
  unfold generate_paragraph. gen_kwargs.
  eapply generates_bind; [apply generates_next_text|]. intros t _.
  by apply generates_ret.
Qed.

Lemma generates_generate_uuid params : generates generated (generate_uuid params).
Proof.
  unfold generate_uuid. gen_kwargs.
  eapply generates_bind; [apply generates_next_text|]. intros t _.
  by apply generates_ret.
Qed.

Lemma generates_generate_email params : generates generated (generate_email params).
Proof.
  unfold generate_email. gen_kwargs.
  eapply generates_bind; [apply generates_random_letters|]. intros u _.
  eapply generates_bind; [apply generates_random_letters|]. intros d _.
  by apply generates_ret.
Qed.

Lemma generates_generate_phone params : generates generated (generate_phone params).
Proof.
  unfold generate_phone. gen_kwargs.
  eapply generates_bind; [apply generates_randint|]. intros a _.
  eapply generates_bind; [apply generates_randint|]. intros b _.
  eapply generates_bind; [apply generates_randint|]. intros c _.
  by apply generates_ret.
Qed.

Lemma generates_generate_date params :
  scalar_params params → generates generated (generate_date params).
Proof.
  intros Hp. unfold generate_date. gen_kwargs.
  eapply generates_bind; [by apply generates_start_bound, kwarg_scalar|]. intros s0 _.
  eapply generates_bind; [by apply generates_end_bound, kwarg_scalar|]. intros e0 _.
  eapply generates_bind; [apply generates_parse_bound|]. intros s1 _.
  eapply generates_bind; [apply generates_parse_bound|]. intros e1 _.
  eapply generates_bind; [apply generates_delta_days|]. intros days _.
  eapply generates_bind; [apply generates_randint|]. intros r _.
  destruct s1 as [v|d]; [apply generates_raise|].
  eapply generates_bind; [apply generates_add_days|]. intros d' _.
  eapply generates_bind; [apply generates_get|]. intros f _.
  by apply generates_ret.
Qed.

Lemma generates_generate_number params :
  generates generated (generate_number params).
Proof.
  unfold generate_number. gen_kwargs.
  eapply generates_bind; [apply generates_randint|]. intros n _.
  by apply generates_ret.
Qed.

Lemma generates_generate_boolean params :
  generates generated (generate_boolean params).
Proof.
  unfold generate_boolean. gen_kwargs.
  eapply generates_mono; [|apply generates_choice].
  intros v Hv. by repeat (apply elem_of_cons in Hv as [->|Hv]; [done|]);
    apply elem_of_nil in Hv.
Qed.

Lemma generates_generate_list params :
  scalar_params params → generates generated (generate_list params).
Proof.
  intros Hp. unfold generate_list.
  eapply generates_bind; [by apply generates_required|]. intros f _.
  eapply generates_bind; [apply generates_index|]. intros n _.
  destruct (0 <? n); [apply generates_raise|by apply generates_ret].
Qed.

Lemma generates_from_options params :
  scalar_params params → generates generated (from_options params).
Proof.
  intros Hp. unfold from_options. gen_kwargs.
  eapply generates_bind; [by apply generates_required|]. intros options Ho.
  destruct options; try done; try apply generates_raise.
  eapply generates_bind; [apply generates_choice_str|]. intros. by apply generates_ret.
Qed.

Lemma generates_generator name g params :
  getattr_generator name = Some g → scalar_params params →
  generates generated (g params).
Proof.
  unfold getattr_generator, generators. simpl. intros Hg Hp.
  repeat (case_match; [injection Hg as <-;
    first [ by apply generates_generate_text
          | apply generates_generate_paragraph
          | apply generates_generate_uuid
          | apply generates_generate_email
          | apply generates_generate_phone
          | by apply generates_generate_date
          | apply generates_generate_number
          | apply generates_generate_boolean
          | by apply generates_generate_list
          | by apply generates_from_options ] |]).
  done.
Qed.

Lemma generates_convert_value v : generates scalar (convert_value v).
Proof.
  unfold convert_value.
  repeat (case_match; try apply generates_raise; try by apply generates_ret).
Qed.

Lemma dict_set_scalar k v params :
  scalar v → scalar_params params → scalar_params (dict_set k v params).
Proof.
  intros Hv. induction 1 as [|[k' v'] params Hx Hp IH]; simpl.
  - by repeat constructor.
  - destruct (String.eqb k' k); by constructor.
Qed.

Lemma generates_parse_pairs pairs params :
  scalar_params params → generates scalar_params (parse_pairs pairs params).
Proof.
  revert params. induction pairs as [|p pairs IH]; intros params Hp; simpl.
  - by apply generates_ret.
  - destruct (Str.contains "=" p); [|by apply IH].
    destruct (Str.split1 "=" p) as [k [v|]]; [|apply generates_raise].
    eapply generates_bind; [apply generates_convert_value|]. intros v' Hv'.
    apply IH. by apply dict_set_scalar.
Qed.

Lemma generates_parse_params s : generates scalar_params (parse_params s).
Proof.
  unfold parse_params. destruct (String.eqb s "").
  - apply generates_ret. constructor.
  - apply generates_parse_pairs. constructor.
Qed.

Lemma generates_expand_marker data : generates generated (expand_marker data).
Proof.
  unfold expand_marker.
  eapply generates_bind; [apply generates_parse_params|]. intros params Hp.
  destruct (getattr_generator _) as [g|] eqn:Hg.
  - by eapply generates_generator.
  - by apply generates_ret.
Qed.

(** The string branch always returns: a generated value, and a world in
    which only the random sources have advanced. *)
Lemma process_str_returns s w :
  ∃ v w', process_str s w = Ret v w' ∧ frame w w' ∧ generated v.
Proof.
  unfold process_str. destruct (Str.startswith s "$generate_").
  - pose proof (generates_expand_marker s w) as H. unfold try_except.
    destruct (expand_marker s w) as [v w1|e w1|]; [| |done].
    + destruct H. by exists v, w1.
    + eexists _, w1. split; [done|]. by split.
  - exists (VStr s), w. split; [done|]. split; [apply frame_refl|done].
Qed.

(** ** Acyclic stores *)

Lemma ranked_spec rk h :
  ranked rk h = true ↔
  (∀ a d, h !! a = Some d → ranked_entry rk a d = true)
  ∧ (∀ a r, rk !! a = Some r → is_Some (h !! a)).
Proof.
  unfold ranked. rewrite andb_true_iff, !forallb_forall. split.
  - intros [H1 H2]. split.
    + intros a d Had. apply (H1 (a, d)).
      by apply list_elem_of_In, elem_of_map_to_list.
    + intros a r Har. specialize (H2 (a, r)). simpl in H2.
      eapply bool_decide_eq_true_1, H2.
      by apply list_elem_of_In, elem_of_map_to_list.
  - intros [H1 H2]. split.
    + intros [a d] Hin%list_elem_of_In%elem_of_map_to_list. by apply H1.
    + intros [a r] Hin%list_elem_of_In%elem_of_map_to_list. simpl.
      apply bool_decide_eq_true_2. by eapply H2.
Qed.

Lemma ranked_entry_spec rk a d :
  ranked_entry rk a d = true ↔
  ∃ r, rk !! a = Some (S r) ∧ distinct (keys d) = true
       ∧ Forall (λ kv, fits rk r kv.2 = true) d.
Proof.
  unfold ranked_entry. destruct (rk !! a) as [[|r]|].
  - split; [done|]. by intros (r & [=] & _).
  - rewrite andb_true_iff, forallb_forall. split.
    + intros [H1 H2]. exists r. split; [done|]. split; [done|].
      apply Forall_forall. intros kv Hkv. by apply H2, list_elem_of_In.
    + intros (r' & [= <-] & H1 & H2). split; [done|].
      rewrite Forall_forall in H2.
      intros kv Hkv. by apply H2, list_elem_of_In.
  - split; [done|]. by intros (r & [=] & _).
Qed.

Lemma fits_S rk n v : fits rk n v = true → fits rk (S n) v = true.
Proof.
  revert v. induction n as [|n IH]; intros v; [done|].
  destruct v; try done.
  - cbn [fits]. rewrite !forallb_forall. intros H x Hx. by apply IH, H.
  - cbn [fits]. destruct (rk !! a); [|done].
    intros H%Nat.leb_le. apply Nat.leb_le. lia.
Qed.

Lemma fits_le rk n m v : (n ≤ m)%nat → fits rk n v = true → fits rk m v = true.
Proof. induction 1; [done|]. intros. by apply fits_S, IHle. Qed.

Lemma fits_generated rk n v : generated v → fits rk (S n) v = true.
Proof. destruct v as [| | | | |[|]|]; done. Qed.

Lemma fits_pos rk n v : fits rk n v = true → ∃ n', n = S n'.
Proof. destruct n; [done|]. by exists n. Qed.

Lemma fits_subseteq rk rk' n v :
  rk ⊆ rk' → fits rk n v = true → fits rk' n v = true.
Proof.
  intros Hsub. revert v. induction n as [|n IH]; intros v; [done|].
  destruct v; try done.
  - cbn [fits]. rewrite !forallb_forall. intros H x Hx. by apply IH, H.
  - cbn [fits]. destruct (rk !! a) as [r|] eqn:E; [|done].
    by rewrite (lookup_weaken _ _ _ _ E Hsub).
Qed.

Lemma keys_dict_set_in k v d :
  existsb (String.eqb k) (keys d) = true → keys (dict_set k v d) = keys d.
Proof.
  induction d as [|[k' v'] d IH]; simpl; [done|].
  rewrite (String.eqb_sym k k').
  destruct (String.eqb_spec k' k) as [->|Hne]; simpl; [done|].
  intros H. by rewrite IH.
Qed.

Lemma keys_dict_set_notin k v d :
  existsb (String.eqb k) (keys d) = false → keys (dict_set k v d) = keys d ++ [k].
Proof.
  induction d as [|[k' v'] d IH]; simpl; [done|].
  rewrite (String.eqb_sym k k').
  destruct (String.eqb_spec k' k) as [->|Hne]; simpl; [done|].
  intros H. by rewrite IH.
Qed.

Lemma distinct_snoc l k :
  distinct l = true → existsb (String.eqb k) l = false →
  distinct (l ++ [k]) = true.
Proof.
  induction l as [|x l IH]; simpl; [done|].
  rewrite andb_true_iff, negb_true_iff, orb_false_iff.
  intros [Hx Hl] [Hk Hkl]. rewrite IH by done.
  rewrite existsb_app, Hx. simpl.
  by rewrite String.eqb_sym, Hk.
Qed.

Lemma distinct_dict_set k v d :
  distinct (keys d) = true → distinct (keys (dict_set k v d)) = true.
Proof.
  intros H. destruct (existsb (String.eqb k) (keys d)) eqn:E.
  - by rewrite keys_dict_set_in.
  - rewrite keys_dict_set_notin by done. by apply distinct_snoc.
Qed.

Lemma Forall_dict_set (P : string * value → Prop) k v d :
  P (k, v) → Forall P d → Forall P (dict_set k v d).
Proof.
  intros Hv. induction 1 as [|[k' v'] d Hx Hd IH]; simpl.
  - by repeat constructor.
  - destruct (String.eqb k' k); by constructor.
Qed.

Lemma same_io_refl w : same_io w w.
Proof. by repeat split. Qed.

Lemma same_io_trans w1 w2 w3 : same_io w1 w2 → same_io w2 w3 → same_io w1 w3.
Proof. intros (?&?&?) (?&?&?). repeat split; congruence. Qed.

Lemma frame_same_io w w' : frame w w' → same_io w w'.
Proof. intros (?&?&?&?). by repeat split. Qed.

Lemma ranked_lookup rk h a r :
  ranked rk h = true → rk !! a = Some r →
  ∃ d r', h !! a = Some d ∧ r = S r' ∧ distinct (keys d) = true
          ∧ Forall (λ kv, fits rk r' kv.2 = true) d.
Proof.
  intros [H1 H2]%ranked_spec Ha.
  destruct (H2 a r Ha) as [d Hd].
  destruct (proj1 (ranked_entry_spec rk a d) (H1 a d Hd)) as (r' & Hr & ? & ?).
  exists d, r'. repeat split; try done. congruence.
Qed.

Lemma setitem_ranked rk a r k v w :
  ranked rk (heap w) = true → rk !! a = Some (S r) → fits rk r v = true →
  ∃ w', setitem a k v w = Ret tt w' ∧ ranked rk (heap w') = true ∧ same_io w w'.
Proof.
  intros Hrk Ha Hv.
  destruct (ranked_lookup _ _ _ _ Hrk Ha) as (d & r' & Hd & [= <-] & Hdist & Hfit).
  unfold setitem, deref. munfold. rewrite Hd.
  eexists. split; [done|]. split; [|by repeat split].
  apply ranked_spec in Hrk as [H1 H2]. apply ranked_spec. simpl. split.
  - intros a0 d0. destruct (decide (a = a0)) as [<-|Hne].
    + rewrite lookup_insert_eq. intros [= <-].
      apply ranked_entry_spec. exists r. split; [done|].
      split; [by apply distinct_dict_set|].
      by apply (Forall_dict_set (λ kv, fits rk r kv.2 = true)).
    + rewrite lookup_insert_ne by done. apply H1.
  - intros a0 r0 Ha0. destruct (decide (a = a0)) as [<-|Hne].
    + by rewrite lookup_insert_eq.
    + rewrite lookup_insert_ne by done. by eapply H2.
Qed.

(** On an acyclic store, expansion with fuel for the depth of the value
    returns; the store stays acyclic under the same ranking, the result
    nests no deeper than the value did, and neither the clock nor the
    transport is touched. *)
Lemma process_dynamic_content_terminates rk n :
  ∀ v w, ranked rk (heap w) = true → fits rk n v = true →
  ∃ v' w', process_dynamic_content n v w = Ret v' w'
    ∧ ranked rk (heap w') = true
    ∧ (∀ m, fits rk m v = true → fits rk m v' = true)
    ∧ same_io w w'.
Proof.
  induction n as [|n IH]; intros v w Hrk Hv; [done|].
  destruct v as [| b | z | q | s | l | a].
  1-4: by (eexists _, w; repeat split).
  - (* string *)
    destruct (process_str_returns s w) as (v' & w' & E & Hf & Hg).
    exists v', w'. split; [done|]. split; [|split].
    + destruct Hf as [-> _]. done.
    + intros m [m' ->]%fits_pos. by apply fits_generated.
    + by apply frame_same_io.
  - (* list *)
    cbn [fits] in Hv. cbn [process_dynamic_content].
    assert (∃ l' w', mapM (process_dynamic_content n) l w = Ret l' w'
              ∧ ranked rk (heap w') = true
              ∧ Forall2 (λ x x', ∀ m, fits rk m x = true → fits rk m x' = true) l l'
              ∧ same_io w w') as (l' & w' & E & Hrk' & Hl & Hio).
    { clear -IH Hrk Hv. revert w Hrk.
      induction l as [|x l IHl]; intros w Hrk.
      - exists [], w. repeat split; done.
      - simpl in Hv. apply andb_prop in Hv as [Hx Hl].
        destruct (IH x w Hrk Hx) as (x' & w1 & E1 & Hrk1 & Hx' & Hio1).
        destruct (IHl Hl w1 Hrk1) as (l' & w2 & E2 & Hrk2 & Hl' & Hio2).
        exists (x' :: l'), w2. split.
        { simpl. munfold. by rewrite E1, E2. }
        split; [done|]. split; [by constructor|by eapply same_io_trans]. }
    exists (VList l'), w'. split.
    { munfold. by rewrite E. }
    split; [done|]. split; [|done].
    intros [|m]; [done|]. cbn [fits]. rewrite !forallb_forall.
    intros H x' Hx'%list_elem_of_In.
    apply list_elem_of_lookup_1 in Hx' as [i Hi].
    destruct (Forall2_lookup_r _ _ _ _ _ Hl Hi) as (x & Hx & Hxx').
    apply Hxx', H, list_elem_of_In. by eapply list_elem_of_lookup_2.
  - (* dict *)
    cbn [fits] in Hv. destruct (rk !! a) as [r0|] eqn:Ha; [|done].
    apply Nat.leb_le in Hv.
    destruct (ranked_lookup _ _ _ _ Hrk Ha) as (d & r & Hd & -> & Hdist & Hfit).
    cbn [process_dynamic_content]. unfold deref. munfold. rewrite Hd.
    assert (∃ w', forM d (λ kv,
                v ← process_dynamic_content n kv.2; setitem a kv.1 v) w = Ret tt w'
              ∧ ranked rk (heap w') = true ∧ same_io w w') as (w' & E & Hrk' & Hio).
    { clear Hd Hdist. revert w Hrk. induction Hfit as [|kv d Hkv _ IHd]; intros w Hrk.
      - exists w. repeat split; done.
      - destruct (IH kv.2 w Hrk) as (v' & w1 & E1 & Hrk1 & Hv' & Hio1).
        { eapply fits_le; [|exact Hkv]. lia. }
        destruct (setitem_ranked rk a r kv.1 v' w1 Hrk1 Ha (Hv' _ Hkv))
          as (w2 & E2 & Hrk2 & Hio2).
        destruct (IHd w2 Hrk2) as (w3 & E3 & Hrk3 & Hio3).
        exists w3. split.
        { simpl. munfold. rewrite E1. munfold. by rewrite E2. }
        split; [done|]. eauto using same_io_trans. }
    exists (VDict a), w'. split.
    { munfold. by rewrite E. }
    repeat split; try done; apply Hio.
Qed.

Lemma all_some_Forall {A B} (f : A → option B) l :
  Forall (λ x, is_Some (f x)) l → is_Some (all_some (map f l)).
Proof.
  induction 1 as [|x l [y Hy] _ [ys IH]]; simpl; [done|].
  by rewrite Hy, IH.
Qed.

Lemma snapshot_fits rk h n v :
  ranked rk h = true → fits rk n v = true → is_Some (snapshot n h v).
Proof.
  intros Hrk. revert v. induction n as [|n IH]; intros v Hv; [done|].
  destruct v as [| b | z | q | s | l | a]; try done.
  - cbn [fits snapshot] in *.
    assert (is_Some (all_some (map (snapshot n h) l))) as [js ->]; [|done].
    apply all_some_Forall, Forall_forall. intros x Hx.
    rewrite forallb_forall in Hv. by apply IH, Hv, list_elem_of_In.
  - cbn [fits snapshot] in *. destruct (rk !! a) as [r0|] eqn:Ha; [|done].
    apply Nat.leb_le in Hv.
    destruct (ranked_lookup _ _ _ _ Hrk Ha) as (d & r & Hd & -> & _ & Hfit).
    unfold dict in *. rewrite Hd.
    match goal with |- is_Some (match all_some (map ?f d) with _ => _ end) =>
      assert (is_Some (all_some (map f d))) as [js ->]; [|done] end.
    apply all_some_Forall. eapply Forall_impl; [exact Hfit|].
    intros kv Hkv. simpl.
    destruct (IH kv.2) as [j ->]; [|done].
    eapply fits_le; [|exact Hkv]. lia.
Qed.

Lemma snap_fits rk n v w :
  ranked rk (heap w) = true → fits rk n v = true → ∃ j, snap n v w = Ret j w.
Proof.
  intros Hrk Hv. unfold snap.
  destruct (snapshot_fits _ _ _ _ Hrk Hv) as [j ->]. by exists j.
Qed.

(** ** One iteration of the harness on an acyclic store *)

Lemma alloc_ranked rk r d w :
  ranked rk (heap w) = true → distinct (keys d) = true →
  Forall (λ kv, fits rk r kv.2 = true) d →
  ∃ a rk' w', alloc d w = Ret (VDict a) w'
    ∧ rk ⊆ rk' ∧ rk' !! a = Some (S r)
    ∧ ranked rk' (heap w') = true ∧ heap w' !! a = Some d ∧ same_io w w'.
Proof.
  intros Hrk Hdist Hfit. unfold alloc.
  set (a := fresh (dom (heap w))).
  assert (heap w !! a = None) as Hfresh.
  { apply not_elem_of_dom. apply is_fresh. }
  pose proof Hrk as [H1 H2]%ranked_spec.
  assert (rk !! a = None) as Hrka.
  { destruct (rk !! a) as [r0|] eqn:E; [|done].
    destruct (H2 a r0 E) as [? ?]. congruence. }
  assert (rk ⊆ <[a := S r]> rk) as Hsub by by apply insert_subseteq.
  exists a, (<[a := S r]> rk), (set_heap (<[a := d]> (heap w)) w).
  split; [done|]. split; [done|]. split; [by rewrite lookup_insert_eq|].
  split; [|split; [by simpl; rewrite lookup_insert_eq|by repeat split]].
  apply ranked_spec. simpl. split.
  - intros a0 d0. destruct (decide (a = a0)) as [<-|Hne].
    + rewrite lookup_insert_eq. intros [= <-]. apply ranked_entry_spec.
      exists r. rewrite lookup_insert_eq. split; [done|]. split; [done|].
      eapply Forall_impl; [exact Hfit|]. intros kv. by apply fits_subseteq.
    + rewrite lookup_insert_ne by done. intros Hd0.
      apply ranked_entry_spec.
      destruct (proj1 (ranked_entry_spec _ _ _) (H1 a0 d0 Hd0)) as (r0 & ? & ? & Hf).
      exists r0. rewrite lookup_insert_ne by done. split; [done|]. split; [done|].
      eapply Forall_impl; [exact Hf|]. intros kv. by apply fits_subseteq.
  - intros a0 r0. destruct (decide (a = a0)) as [<-|Hne].
    + by rewrite !lookup_insert_eq.
    + rewrite !lookup_insert_ne by done. apply H2.
Qed.

Lemma copy_ranked rk n a w :
  ranked rk (heap w) = true → fits rk n (VDict a) = true →
  ∃ a' rk' w', copy (VDict a) w = Ret (VDict a') w'
    ∧ rk ⊆ rk' ∧ ranked rk' (heap w') = true
    ∧ fits rk' n (VDict a') = true ∧ same_io w w'.
Proof.
  intros Hrk Hfit. destruct n as [|n]; [done|]. cbn [fits] in Hfit.
  destruct (rk !! a) as [r0|] eqn:Ha; [|done]. apply Nat.leb_le in Hfit.
  destruct (ranked_lookup _ _ _ _ Hrk Ha) as (d & r & Hd & -> & Hdist & Hf).
  destruct (alloc_ranked rk r d w Hrk Hdist Hf)
    as (a' & rk' & w' & E & Hsub & Ha' & Hrk' & _ & Hio).
  exists a', rk', w'. split.
  { simpl. unfold deref. munfold. by rewrite Hd. }
  split; [done|]. split; [done|]. split; [|done].
  cbn [fits]. rewrite Ha'. by apply Nat.leb_le.
Qed.

Lemma or_empty_dict_ranked rk n a w :
  ranked rk (heap w) = true → fits rk n (VDict a) = true →
  ∃ a' rk' w', or_empty_dict (VDict a) w = Ret (VDict a') w'
    ∧ rk ⊆ rk' ∧ ranked rk' (heap w') = true
    ∧ fits rk' n (VDict a') = true ∧ same_io w w'.
Proof.
  intros Hrk Hfit. destruct n as [|n]; [done|]. pose proof Hfit as Hfit'.
  cbn [fits] in Hfit. destruct (rk !! a) as [r0|] eqn:Ha; [|done].
  destruct (ranked_lookup _ _ _ _ Hrk Ha) as (d & r & Hd & -> & Hdist & Hf).
  unfold or_empty_dict, truthy, deref. munfold. rewrite Hd.
  destruct d as [|kv d].
  - destruct (alloc_ranked rk 0 [] w Hrk eq_refl)
      as (a' & rk' & w' & E & Hsub & Ha' & Hrk' & _ & Hio); [constructor|].
    exists a', rk', w'. split; [done|]. split; [done|]. split; [done|].
    split; [|done]. cbn [fits]. rewrite Ha'. apply Nat.leb_le. lia.
  - exists a, rk, w. split; [done|]. split; [done|]. split; [done|].
    split; [done|apply same_io_refl].
Qed.

Lemma new_tester_ranked rk n self w :
  dict_fields self = true →
  ranked rk (heap w) = true →
  fits rk n (headers self) = true → fits rk n (body self) = true →
  fits rk n (params self) = true →
  ∃ tester rk' w', new_tester self w = Ret tester w'
    ∧ rk ⊆ rk' ∧ ranked rk' (heap w') = true
    ∧ fits rk' n (headers tester) = true ∧ fits rk' n (body tester) = true
    ∧ fits rk' n (params tester) = true
    ∧ same_io w w'.
Proof.
  unfold dict_fields. intros Hd Hrk Hh Hb Hp.
  destruct (headers self) as [| | | | | |ah] eqn:Eh; try done.
  destruct (body self) as [| | | | | |ab] eqn:Eb; try done.
  destruct (params self) as [| | | | | |ap] eqn:Ep; try done.
  unfold new_tester, APITester_init. rewrite Eh, Eb, Ep.
  destruct (copy_ranked rk n ah w Hrk Hh) as (ah1 & rk1 & w1 & E1 & S1 & R1 & F1 & I1).
  destruct (copy_ranked rk1 n ab w1 R1 (fits_subseteq _ _ _ _ S1 Hb))
    as (ab1 & rk2 & w2 & E2 & S2 & R2 & F2 & I2).
  destruct (copy_ranked rk2 n ap w2 R2
              (fits_subseteq _ _ _ _ S2 (fits_subseteq _ _ _ _ S1 Hp)))
    as (ap1 & rk3 & w3 & E3 & S3 & R3 & F3 & I3).
  destruct (or_empty_dict_ranked rk3 n ah1 w3 R3
              (fits_subseteq _ _ _ _ S3 (fits_subseteq _ _ _ _ S2 F1)))
    as (ah2 & rk4 & w4 & E4 & S4 & R4 & F4 & I4).
  destruct (or_empty_dict_ranked rk4 n ab1 w4 R4
              (fits_subseteq _ _ _ _ S4 (fits_subseteq _ _ _ _ S3 F2)))
    as (ab2 & rk5 & w5 & E5 & S5 & R5 & F5 & I5).
  destruct (or_empty_dict_ranked rk5 n ap1 w5 R5
              (fits_subseteq _ _ _ _ S5 (fits_subseteq _ _ _ _ S4 F3)))
    as (ap2 & rk6 & w6 & E6 & S6 & R6 & F6 & I6).
  eexists _, rk6, w6. split.
  { munfold. rewrite E1, E2, E3. munfold. by rewrite E4, E5, E6. }
  split.
  { repeat (etrans; [eassumption|]). done. }
  split; [done|]. simpl.
  split; [by apply (fits_subseteq rk5), (fits_subseteq rk4)|].
  split; [by apply (fits_subseteq rk5)|].
  split; [done|].
  eauto 10 using same_io_trans.
Qed.

Section Iteration.
Variable fl : Q → Q.

Lemma prepare_request_data_ranked rk fuel self w :
  ranked rk (heap w) = true →
  fits rk fuel (headers self) = true → fits rk fuel (body self) = true →
  fits rk fuel (params self) = true →
  ∃ t w', prepare_request_data fuel self w = Ret t w'
    ∧ ranked rk (heap w') = true
    ∧ fits rk fuel (headers t) = true ∧ fits rk fuel (body t) = true
    ∧ fits rk fuel (params t) = true
    ∧ method t = method self ∧ url t = url self
    ∧ same_io w w'.
Proof.
  intros Hrk Hh Hb Hp. unfold prepare_request_data.
  destruct (process_dynamic_content_terminates rk fuel _ w Hrk Hh)
    as (h & w1 & E1 & R1 & F1 & I1).
  destruct (process_dynamic_content_terminates rk fuel _ w1 R1 Hb)
    as (b & w2 & E2 & R2 & F2 & I2).
  destruct (process_dynamic_content_terminates rk fuel _ w2 R2 Hp)
    as (p & w3 & E3 & R3 & F3 & I3).
  eexists _, w3. split.
  { munfold. by rewrite E1, E2, E3. }
  simpl. repeat split; auto; try apply I3.
  all: destruct I1 as (?&?&?), I2 as (?&?&?), I3 as (?&?&?); congruence.
Qed.

(** On an acyclic store [send_request] returns: the response when the
    transport gives one, [None] when it raises. *)
Lemma send_request_returns rk fuel self w :
  ranked rk (heap w) = true →
  fits rk fuel (headers self) = true → fits rk fuel (body self) = true →
  fits rk fuel (params self) = true →
  ∃ r w', send_request fl fuel self w = Ret r w'
    ∧ ranked rk (heap w') = true
    ∧ r.1 = head (net w) ≫= reply_status
    ∧ net w' = tail (net w).
Proof.
  intros Hrk Hh Hb Hp. unfold send_request.
  destruct (prepare_request_data_ranked rk fuel self w Hrk Hh Hb Hp)
    as (t & w1 & E1 & R1 & Fh & Fb & Fp & _ & _ & I1).
  munfold. rewrite E1.
  destruct (time_time_ret w1) as (t0 & w2 & E2). rewrite E2.
  assert (heap w2 = heap w1 ∧ net w2 = net w1) as [Hh2 Hn2].
  { unfold time_time in E2. destruct (clock w1); by injection E2 as _ <-. }
  rewrite <- Hh2 in R1.
  destruct (snap_fits rk fuel _ w2 R1 Fh) as (jh & Eh).
  destruct (snap_fits rk fuel _ w2 R1 Fb) as (jb & Eb).
  destruct (snap_fits rk fuel _ w2 R1 Fp) as (jp & Ep).
  assert (net w2 = net w) as Hnet by (destruct I1 as (?&?&?); congruence).
  unfold try_except. munfold. rewrite Eh.
  destruct (existsb (String.eqb (method t)) ["POST"; "PUT"; "PATCH"]);
    munfold; rewrite ?Eb, Ep; unfold requests_request; rewrite Hnet;
    destruct (net w) as [|[s|e] rest] eqn:En; unfold time_time; simpl;
    destruct (clock w2); simpl; eexists _, _; (split; [reflexivity|]);
    simpl; rewrite ?Hnet; by repeat split.
Qed.

End Iteration.

Section Loop.
Variable fl : Q → Q.

Lemma record_outcome_codes acc r :
  (record_outcome acc r).2 = acc.2 ++ counted r.1.
Proof.
  unfold record_outcome, counted. destruct r.1 as [s|]; [|by rewrite app_nil_r].
  destruct (response_ok s); [done|by rewrite app_nil_r].
Qed.

(** On an acyclic store the sequential loop returns after [n] iterations,
    having consumed [n] transport outcomes. *)
Lemma sequential_loop_returns fuel self n :
  dict_fields self = true →
  ∀ acc w, well_formed fuel self w →
  ∃ acc' w', sequential_loop fl fuel self n acc w = Ret acc' w'
    ∧ well_formed fuel self w'
    ∧ acc'.2 = acc.2 ++ flat_map (λ r, counted (reply_status r)) (take n (net w))
    ∧ net w' = drop n (net w).
Proof.
  intros Hd. induction n as [|n IH]; intros acc w Hwf.
  - exists acc, w. split; [done|]. split; [done|]. simpl.
    by rewrite app_nil_r, drop_0.
  - destruct Hwf as (rk & Hrk & Hh & Hb & Hp).
    destruct (new_tester_ranked rk fuel self w Hd Hrk Hh Hb Hp)
      as (tester & rk1 & w1 & E1 & S1 & R1 & Fh & Fb & Fp & I1).
    destruct (send_request_returns fl rk1 fuel tester w1 R1 Fh Fb Fp)
      as (r & w2 & E2 & R2 & Hr & Hn).
    destruct (IH (record_outcome acc r) w2) as (acc' & w3 & E3 & Hwf3 & Hacc & Hn3).
    { exists rk1. repeat split; [done|by eapply fits_subseteq..]. }
    exists acc', w3. split.
    { simpl. munfold. by rewrite E1, E2. }
    split; [done|].
    assert (net w1 = net w) as Hn1 by apply I1.
    rewrite Hn1 in Hr, Hn. rewrite Hacc, Hn3, Hn, record_outcome_codes, Hr.
    destruct (net w) as [|x rest]; simpl.
    + rewrite take_nil, drop_nil. simpl. by rewrite !app_nil_r.
    + by rewrite <- app_assoc.
Qed.

End Loop.

Lemma record_outcome_rounded fl fuel acc tester w1 r w2 :
  send_request fl fuel tester w1 = Ret r w2 →
  Forall (λ d, ∃ x, d = fl x) acc.1 →
  Forall (λ d, ∃ x, d = fl x) (record_outcome acc r).1.
Proof.
  intros [x Hx]%send_request_duration H. unfold record_outcome.
  destruct r.1 as [s|]; [|done]. destruct (response_ok s); [|done]. simpl.
  apply Forall_app. split; [done|]. constructor; [by exists x|constructor].
Qed.

(** C7.  With a rounding [fl] of reals to floats that is monotone and leaves
    floats alone: every statistics record that a run returns counts no more
    successes than requests, its histogram adds up to the successes, and its
    minimum, mean and maximum are in order; five sequential iterations
    against a transport that always answers 200 return such a record, with
    five requests, five successes and the histogram {200: 5}. *)
Theorem statistics_invariants fl :
  (∀ x y, (x <= y)%Q → (fl x <= fl y)%Q) →
  (∀ x, (fl (fl x) == fl x)%Q) →
  (∀ fuel self num_requests concurrent w s w',
     run_performance_test fl fuel self num_requests concurrent w
     = Ret (StatsResult s) w' →
     Z.of_nat (successful_requests s) ≤ requests_sent s
     ∧ histogram_total (status_codes s) = successful_requests s
     ∧ (min_time s <= avg_time s)%Q ∧ (avg_time s <= max_time s)%Q)
  ∧ (∀ fuel self w rest,
       dict_fields self = true → well_formed fuel self w →
       net w = replicate 5 (Response 200) ++ rest →
       ∃ s w',
         run_performance_test fl fuel self 5 false w = Ret (StatsResult s) w'
         ∧ requests_sent s = 5 ∧ successful_requests s = 5%nat
         ∧ status_codes s = {[ 200 := 5%nat ]}).
Proof.
  intros Hmono Hidem. split.
  - intros fuel self n conc w s w' (acc & Hloop & Hr)%run_performance_test_returns.
    assert (length acc.1 = length acc.2) as Hlen.
    { eapply (sequential_loop_invariant fl (λ acc, length acc.1 = length acc.2));
        [| |exact Hloop]; [|done].
      intros. by apply record_outcome_lengths. }
    assert (Forall (λ d, ∃ x, d = fl x) acc.1) as Himg.
    { eapply (sequential_loop_invariant fl (λ acc, Forall (λ d, ∃ x, d = fl x) acc.1));
        [| |exact Hloop]; [|by constructor].
      intros. by eapply record_outcome_rounded. }
    pose proof (sequential_loop_length fl _ _ _ _ _ _ _ Hloop) as Hle.
    unfold aggregate in Hr. destruct acc as [ds codes]. simpl in *.
    destruct ds as [|d ds]; [done|]. injection Hr as ->. simpl.
    split; [simpl in Hle; lia|]. split; [by rewrite histogram_total_length|].
    pose proof (list_min_le d ds) as Hmin.
    pose proof (list_max_ge d ds) as Hmax.
    assert (Forall (λ y, (list_min d ds <= y)%Q ∧ (y <= list_max d ds)%Q) (d :: ds))
      as Hb.
    { apply Forall_forall. intros y Hy. rewrite Forall_forall in Hmin, Hmax. auto. }
    apply mean_bounds in Hb as [Hlo Hhi].
    pose proof (list_min_in d ds) as Hmin_in.
    pose proof (list_max_in d ds) as Hmax_in.
    rewrite Forall_forall in Himg.
    destruct (Himg _ Hmin_in) as [x Hx]. destruct (Himg _ Hmax_in) as [y Hy].
    unfold mean. split.
    + eapply Qle_trans; [|apply Hmono, Hlo].
      rewrite Hx at 1. rewrite Hx. rewrite Hidem. apply Qle_refl.
    + eapply Qle_trans; [apply Hmono, Hhi|].
      rewrite Hy at 2. rewrite Hy. rewrite Hidem. apply Qle_refl.
  - intros fuel self w rest Hd Hwf Hnet.
    destruct (sequential_loop_returns fl fuel self 5 Hd ([], []) w Hwf)
      as (acc & w' & Hloop & _ & Hcodes & _).
    assert (length acc.1 = length acc.2) as Hlen.
    { eapply (sequential_loop_invariant fl (λ acc, length acc.1 = length acc.2));
        [| |exact Hloop]; [|done].
      intros. by apply record_outcome_lengths. }
    rewrite Hnet in Hcodes. simpl in Hcodes.
    destruct acc as [ds codes]. cbn [fst snd] in Hcodes, Hlen. subst codes.
    destruct ds as [|d1 [|d2 [|d3 [|d4 [|d5 [|]]]]]]; try done.
    eexists _, w'. split.
    { unfold run_performance_test. change (Z.to_nat 5) with 5%nat.
      cbv iota. erewrite bind_Ret by exact Hloop. reflexivity. }
    simpl. repeat split.
Qed.

Lemma statistics_invariants_witness :
  (∃ s w',
     run_performance_test (λ q, q) 2 sample_tester 3 false sample_world
     = Ret (StatsResult s) w'
     ∧ Z.of_nat (successful_requests s) ≤ requests_sent s
     ∧ histogram_total (status_codes s) = successful_requests s
     ∧ (min_time s <= avg_time s)%Q ∧ (avg_time s <= max_time s)%Q)
  ∧ (∃ s w',
       run_performance_test (λ q, q) 2 sample_tester 5 false all_ok_world
       = Ret (StatsResult s) w'
       ∧ requests_sent s = 5 ∧ successful_requests s = 5%nat
       ∧ status_codes s = {[ 200 := 5%nat ]}).
Proof.
  pose proof (statistics_invariants (λ q, q) (λ x y H, H) (λ x, Qeq_refl x))
    as [HA HB].
  split.
  - destruct (run_performance_test (λ q, q) 2 sample_tester 3 false sample_world)
      as [[e|s] w'| |] eqn:E;
      [vm_compute in E; discriminate E| |vm_compute in E; discriminate E..].
    exists s, w'. split; [reflexivity|]. exact (HA _ _ _ _ _ _ _ E).
  - apply (HB 2%nat sample_tester all_ok_world []).
    + reflexivity.
    + exists {[ 0%nat := 1%nat; 1%nat := 1%nat; 2%nat := 1%nat ]}.
      repeat split; vm_compute; reflexivity.
    + reflexivity.
Defined.

(** ** Expansion of values without markers *)

Lemma distinct_keys_lookup h a d :
  distinct_keys h = true → h !! a = Some d → distinct (keys d) = true.
Proof.
  unfold distinct_keys. rewrite forallb_forall. intros H Had.
  apply (H (a, d)). by apply list_elem_of_In, elem_of_map_to_list.
Qed.

Lemma all_some_Forall2 {A B} (f : A → option B) l js :
  all_some (map f l) = Some js → Forall2 (λ x j, f x = Some j) l js.
Proof.
  revert js. induction l as [|x l IH]; simpl; intros js.
  - intros [= <-]. constructor.
  - destruct (f x) as [j|] eqn:Ex; [|done].
    destruct (all_some (map f l)) as [js'|]; [|done].
    intros [= <-]. constructor; [done|]. by apply IH.
Qed.

Lemma dict_set_same k v d :
  distinct (keys d) = true → (k, v) ∈ d → dict_set k v d = d.
Proof.
  induction d as [|[k' v'] d IH]; simpl; [by intros _ ?%elem_of_nil|].
  rewrite andb_true_iff, negb_true_iff. intros [Hk Hd] Hin.
  apply elem_of_cons in Hin as [[= -> ->]|Hin].
  - by rewrite String.eqb_refl.
  - destruct (String.eqb_spec k' k) as [->|Hne]; [|by rewrite IH].
    exfalso. assert (existsb (String.eqb k) (keys d) = true); [|congruence].
    apply existsb_exists. exists k. split; [|apply String.eqb_refl].
    apply in_map_iff. exists (k, v). split; [done|]. by apply list_elem_of_In.
Qed.

Lemma setitem_same a k v d w :
  heap w !! a = Some d → distinct (keys d) = true → (k, v) ∈ d →
  setitem a k v w = Ret tt w.
Proof.
  intros Had Hd Hin. unfold setitem, deref. munfold. rewrite Had.
  rewrite dict_set_same by done. rewrite insert_id by done.
  by rewrite set_heap_id.
Qed.

Lemma not_marker_shaped s :
  Spec.marker_shaped s = false → Str.startswith s "$generate_" = false.
Proof. unfold Spec.marker_shaped. by intros [? _]%orb_false_iff. Qed.

Lemma process_dynamic_content_identity fuel :
  ∀ v t w,
    distinct_keys (heap w) = true →
    snapshot fuel (heap w) v = Some t → Spec.no_marker t = true →
    process_dynamic_content fuel v w = Ret v w.
Proof.
  induction fuel as [|n IH]; intros v t w Hdk Hsnap Hnm; [done|].
  destruct v as [| b | z | q | s | l | a]; try done.
  - (* string *)
    injection Hsnap as <-. simpl in Hnm. apply negb_true_iff in Hnm.
    simpl. by apply process_str_not_generate, not_marker_shaped.
  - (* list *)
    cbn [snapshot] in Hsnap.
    match type of Hsnap with
      match ?o with _ => _ end = _ =>
        destruct o as [js|] eqn:E; [|discriminate Hsnap]
    end.
    injection Hsnap as <-. cbn [Spec.no_marker] in Hnm.
    apply all_some_Forall2 in E.
    assert (mapM (process_dynamic_content n) l w = Ret l w) as Hl.
    { induction E as [|x j l js Hx _ IHl]; [done|].
      simpl in Hnm. apply andb_prop in Hnm as [Hj Hjs].
      simpl. munfold. rewrite (IH x j w Hdk Hx Hj). by rewrite IHl. }
    cbn [process_dynamic_content]. munfold. by rewrite Hl.
  - (* dict *)
    cbn [snapshot] in Hsnap.
    match type of Hsnap with
      match ?o with _ => _ end = _ =>
        destruct o as [d|] eqn:Had; [|discriminate Hsnap]
    end.
    match type of Hsnap with
      match all_some (map ?f d) with _ => _ end = _ =>
        destruct (all_some (map f d)) as [js|] eqn:E; [|discriminate Hsnap]
    end.
    injection Hsnap as <-. cbn [Spec.no_marker] in Hnm.
    apply all_some_Forall2 in E.
    pose proof (distinct_keys_lookup _ _ _ Hdk Had) as Hd.
    assert (∀ items js',
              Forall2 (λ (kv : string * value) (kj : string * json),
                         match snapshot n (heap w) kv.2 with
                         | Some j => Some (kv.1, j)
                         | None => None
                         end = Some kj) items js' →
              forallb (λ kj, match kj with (_, j) => Spec.no_marker j end) js' = true →
              (∀ kv, kv ∈ items → kv ∈ d) →
              forM items (λ kv, v ← process_dynamic_content n kv.2;
                                setitem a kv.1 v) w = Ret tt w) as Hloop.
    { induction 1 as [|kv kj items js' Hkv _ IHi]; [done|].
      simpl. intros [Hj Hjs]%andb_prop Hin.
      destruct (snapshot n (heap w) kv.2) as [j|] eqn:Ej; [|done].
      injection Hkv as <-.
      munfold. rewrite (IH kv.2 j w Hdk Ej Hj).
      rewrite (setitem_same a kv.1 kv.2 d w Had Hd).
      - apply IHi; [done|]. intros kv' Hkv'. apply Hin. by right.
      - destruct kv. apply Hin. by left. }
    cbn [process_dynamic_content]. unfold deref. munfold.
    change (@lookup loc dict _ _ a (heap w)) with (heap w !! a) in Had.
    unfold dict in *. rewrite Had.
    by rewrite (Hloop d js E Hnm).
Qed.

(** C8.  A value that holds no marker-shaped string is expanded to itself:
    expansion returns, the value read back from the store afterwards is the
    same JSON document (same keys, same order and length of sequences, same
    scalars), and the world is unchanged. *)
Theorem expansion_identity fuel v t w :
  distinct_keys (heap w) = true →
  snapshot fuel (heap w) v = Some t →
  Spec.no_marker t = true →
  ∃ v' w', process_dynamic_content fuel v w = Ret v' w'
           ∧ snapshot fuel (heap w') v' = Some t
           ∧ w' = w.
Proof.
  intros Hdk Hsnap Hnm. exists v, w.
  split; [by eapply process_dynamic_content_identity|done].
Qed.

Lemma expansion_identity_witness :
  ∃ v' w', process_dynamic_content 4 (VDict 0%nat) plain_world = Ret v' w'
    ∧ snapshot 4 (heap w') v'
      = Some (JDict [("name", JStr "widget"); ("price", JFloat (5 # 2));
                     ("tags", JList [JStr "$5 off"; JNone;
                                     JDict [("active", JBool true);
                                            ("note", JStr "generate_uuid()")]]);
                     ("stock", JInt 3)])
    ∧ w' = plain_world.
Proof.
  apply (expansion_identity 4 (VDict 0%nat) _ plain_world);
    vm_compute; reflexivity.
Defined.

(** ** The shared template *)

(** C1.  On a body with a nested object, two iterations (in either mode)
    leave the template changed: the nested marker of the tester the run was
    called on has been replaced by the first expansion, and the second
    request carries that same expansion again; only the top-level marker is
    expanded afresh. *)
Theorem nested_template_mutated :
  snapshot 3 (heap nested_world) (body nested_tester)
  = Some (nested_body "$generate_uuid()" "$generate_uuid()")
  ∧ match run_performance_test (λ q, q) 3 nested_tester 2 false nested_world with
    | Ret (StatsResult _) w' =>
        snapshot 3 (heap w') (body nested_tester)
        = Some (nested_body "uuid-1" "$generate_uuid()")
        ∧ map req_json (sent w')
          = [Some (nested_body "uuid-1" "uuid-2");
             Some (nested_body "uuid-1" "uuid-3")]
    | _ => False
    end
  ∧ match run_performance_test (λ q, q) 3 nested_tester 2 true nested_world with
    | Ret (StatsResult _) w' =>
        snapshot 3 (heap w') (body nested_tester)
        = Some (nested_body "uuid-1" "$generate_uuid()")
    | _ => False
    end.
Proof. vm_compute. repeat split. Qed.

(** ** Markers that cannot be expanded *)

Lemma startswith_app p x : Str.startswith (p +:+ x) p = true.
Proof.
  induction p as [|a p IH]; [by destruct x|].
  rewrite append_cons. simpl. by rewrite Ascii.eqb_refl.
Qed.

Lemma malformed_marker w :
  process_str "$generate_text(min_words=)" w
  = Ret (VStr ("Error generating content: "
               +:+ "invalid literal for int() with base 10: ''")) w.
Proof. reflexivity. Qed.

Lemma unknown_generator s w :
  Str.startswith s "$generate_" = true →
  getattr_generator (marker_name s) = None →
  ∃ msg w', process_str s w = Ret (VStr msg) w' ∧ frame w w'
    ∧ (msg = "Unknown generator: " +:+ marker_name s
       ∨ Str.startswith msg "Error generating content: " = true).
Proof.
  intros Hs Hg. unfold process_str. rewrite Hs.
  unfold try_except, expand_marker. fold (marker_name s). rewrite Hg.
  pose proof (generates_parse_params
    (Str.slice (Str.slice s (Some 1) None)
       (Some (Str.len (marker_name s) + 1)) (Some (-1))) w) as H.
  munfold.
  destruct (parse_params _ w) as [params w1|e w1|]; [| |done].
  - destruct H as [Hf _]. eexists _, w1. split; [done|]. split; [done|by left].
  - eexists _, w1. split; [done|]. split; [done|].
    right. apply startswith_app.
Qed.

(** ** What expansion touches *)

Lemma setitem_heap a k v w w' :
  setitem a k v w = Ret tt w' →
  ∃ d, heap w !! a = Some d ∧ heap w' = <[a := dict_set k v d]> (heap w).
Proof.
  unfold setitem, deref. munfold.
  destruct (heap w !! a) as [d|] eqn:E; [|done].
  intros [= <-]. by exists d.
Qed.

(** Expansion of a value leaves alone every dict ranked above the value. *)
Lemma process_dynamic_content_footprint rk n :
  ∀ v w v' w' m,
    ranked rk (heap w) = true → fits rk n v = true → fits rk m v = true →
    process_dynamic_content n v w = Ret v' w' →
    ∀ a r, rk !! a = Some r → (m < r)%nat → heap w' !! a = heap w !! a.
Proof.
  induction n as [|n IH]; intros v w v' w' m Hrk Hn Hm E a r Ha Hlt; [done|].
  destruct v as [| b | z | q | s | l | b].
  1-4: by injection E as <- <-.
  - destruct (process_str_returns s w) as (v1 & w1 & E1 & [Hh _] & _).
    cbn [process_dynamic_content] in E. rewrite E1 in E.
    injection E as <- <-. by rewrite Hh.
  - destruct m as [|m]; [done|]. cbn [fits] in Hn, Hm.
    cbn [process_dynamic_content] in E.
    assert (∀ l' w2, mapM (process_dynamic_content n) l w = Ret l' w2 →
                     heap w2 !! a = heap w !! a) as Hl.
    { clear E. revert w Hrk. induction l as [|x l IHl]; intros w Hrk l' w2 E.
      - by injection E as <- <-.
      - simpl in Hn, Hm. apply andb_prop in Hn as [Hx Hn], Hm as [Hxm Hm].
        destruct (process_dynamic_content_terminates rk n x w Hrk Hx)
          as (x' & w1 & E1 & Hrk1 & _ & _).
        simpl in E. munfold. rewrite E1 in E.
        destruct (mapM (process_dynamic_content n) l w1) as [l1 w3| |] eqn:E2;
          try done.
        injection E as <- <-.
        rewrite (IHl Hn Hm w1 Hrk1 _ _ E2).
        eapply (IH x w x' w1 m); eauto with lia. }
    munfold.
    destruct (mapM (process_dynamic_content n) l w) as [l1 w3| |] eqn:E2;
      try done.
    injection E as <- <-. by eapply Hl.
  - destruct m as [|m]; [done|]. cbn [fits] in Hn, Hm.
    destruct (rk !! b) as [rb0|] eqn:Hb; [|done].
    apply Nat.leb_le in Hn, Hm.
    destruct (ranked_lookup _ _ _ _ Hrk Hb) as (d & rb & Hd & -> & _ & Hfit).
    assert (a ≠ b) as Hab by (intros ->; rewrite Ha in Hb; injection Hb; lia).
    cbn [process_dynamic_content] in E. unfold deref in E. munfold.
    rewrite Hd in E.
    assert (∀ w2, forM d (λ kv, v ← process_dynamic_content n kv.2;
                                setitem b kv.1 v) w = Ret tt w2 →
                  heap w2 !! a = heap w !! a) as Hl.
    { clear E Hd. revert w Hrk.
      induction Hfit as [|kv d Hkv _ IHd]; intros w Hrk w2 E.
      - by injection E as <-.
      - assert (fits rk n kv.2 = true) as Hkvn
          by (eapply fits_le; [|exact Hkv]; lia).
        destruct (process_dynamic_content_terminates rk n kv.2 w Hrk Hkvn)
          as (x' & w1 & E1 & Hrk1 & Hx' & _).
        destruct (setitem_ranked rk b rb kv.1 x' w1 Hrk1 Hb (Hx' _ Hkv))
          as (w3 & E3 & Hrk3 & _).
        simpl in E. munfold. rewrite E1 in E. munfold. rewrite E3 in E.
        rewrite (IHd w3 Hrk3 _ E).
        apply setitem_heap in E3 as (d1 & _ & ->).
        rewrite lookup_insert_ne by done.
        eapply (IH kv.2 w x' w1 rb); eauto with lia. }
    destruct (forM d _ w) as [[] w3| |] eqn:E2; try done.
    injection E as <- <-. by eapply Hl.
Qed.

Lemma dict_set_middle k v x p q :
  existsb (String.eqb k) (keys p) = false →
  dict_set k v (p ++ (k, x) :: q) = p ++ (k, v) :: q.
Proof.
  induction p as [|[k' v'] p IH]; simpl.
  - by rewrite String.eqb_refl.
  - rewrite (String.eqb_sym k k').
    destruct (String.eqb k' k); simpl; [done|]. intros H. by rewrite IH.
Qed.

Lemma distinct_middle p k q :
  distinct (p ++ k :: q) = true → existsb (String.eqb k) p = false.
Proof.
  induction p as [|x p IH]; simpl; [done|].
  rewrite andb_true_iff, negb_true_iff, existsb_app. simpl.
  rewrite !orb_false_iff. intros [(_ & Hx & _) Hd].
  rewrite String.eqb_sym, Hx. split; [done|]. by apply IH.
Qed.

(** ** Generators do not depend on the store *)

Lemma heapless_ret {A} (a : A) : heapless (ret a).
Proof. by intros h w. Qed.

Lemma heapless_raise {A} e : heapless (@raise A e).
Proof. by intros h w. Qed.

Lemma heapless_bind {A B} (m : M A) (k : A → M B) :
  heapless m → (∀ a, heapless (k a)) → heapless (m ≫= k).
Proof.
  intros Hm Hk h w. munfold. rewrite Hm.
  destruct (m w) as [a w1|e w1|]; simpl; [apply Hk|done..].
Qed.

Lemma heapless_try {A} (m : M A) h :
  heapless m → (∀ e, heapless (h e)) → heapless (try_except m h).
Proof.
  intros Hm Hh h0 w. unfold try_except. rewrite Hm.
  destruct (m w) as [a w1|e w1|]; simpl; [done|apply Hh|done].
Qed.

Lemma heapless_draw : heapless draw.
Proof. intros h w. unfold draw. simpl. by destruct (rng w). Qed.

Lemma heapless_next_text : heapless next_text.
Proof. intros h w. unfold next_text. simpl. by destruct (texts w). Qed.

Lemma heapless_datetime_now : heapless datetime_now.
Proof. intros h w. unfold datetime_now. simpl. by destruct (nows w). Qed.

Lemma heapless_strftime : heapless (get strftime_ymd).
Proof. by intros h w. Qed.

Lemma heapless_fromisoformat s : heapless (datetime_fromisoformat s).
Proof.
  intros h w. unfold datetime_fromisoformat. simpl.
  by destruct (fromisoformat w s).
Qed.

Create HintDb heapless.
#[local] Hint Resolve heapless_draw heapless_next_text heapless_datetime_now
  heapless_strftime heapless_fromisoformat : heapless.

Ltac heapless_step :=
  first
    [ apply heapless_ret
    | apply heapless_raise
    | solve [auto with heapless]
    | match goal with
      | |- heapless (if ?c then _ else _) => destruct c
      | |- heapless (match ?x with _ => _ end) => destruct x
      end
    | apply heapless_bind; [|intros ?] ].

Ltac heapless_auto := repeat heapless_step.

Lemma heapless_randbelow n : heapless (randbelow n).
Proof. unfold randbelow. heapless_auto. Qed.

Lemma heapless_add_one v : heapless (add_one v).
Proof. unfold add_one. heapless_auto. Qed.

Lemma heapless_index v : heapless (index v).
Proof. unfold index. heapless_auto. Qed.

Lemma heapless_randrange_arg which v : heapless (randrange_arg which v).
Proof. unfold randrange_arg. heapless_auto. Qed.

#[local] Hint Resolve heapless_randbelow heapless_add_one heapless_index
  heapless_randrange_arg : heapless.

Lemma heapless_randrange a b : heapless (randrange a b).
Proof. unfold randrange. heapless_auto. Qed.

#[local] Hint Resolve heapless_randrange : heapless.

Lemma heapless_randint a b : heapless (randint a b).
Proof. unfold randint. heapless_auto. Qed.

Lemma heapless_choice l : heapless (choice l).
Proof. unfold choice. heapless_auto. Qed.

Lemma heapless_choice_str s : heapless (choice_str s).
Proof. unfold choice_str. heapless_auto. Qed.

Lemma heapless_check_kwargs func names params :
  heapless (check_kwargs func names params).
Proof. unfold check_kwargs. heapless_auto. Qed.

Lemma heapless_required func params name : heapless (required func params name).
Proof. unfold required. heapless_auto. Qed.

#[local] Hint Resolve heapless_randint heapless_choice heapless_choice_str
  heapless_check_kwargs heapless_required : heapless.

Lemma heapless_truthy v : scalar v → heapless (truthy v).
Proof. destruct v; simpl; try done; intros _; apply heapless_ret. Qed.

Lemma heapless_random_letters n : heapless (random_letters n).
Proof.
  induction n as [|n IH]; cbn [random_letters]; [apply heapless_ret|].
  heapless_auto.
Qed.

Lemma heapless_add_days d n : heapless (add_days d n).
Proof. unfold add_days. heapless_auto. Qed.

Lemma heapless_days_between e s : heapless (days_between e s).
Proof. unfold days_between. heapless_auto. Qed.

#[local] Hint Resolve heapless_random_letters heapless_add_days
  heapless_days_between : heapless.

Lemma heapless_start_bound v : scalar v → heapless (start_bound v).
Proof.
  intros Hv. unfold start_bound.
  apply heapless_bind; [by apply heapless_truthy|]. intros ?. heapless_auto.
Qed.

Lemma heapless_end_bound v : scalar v → heapless (end_bound v).
Proof.
  intros Hv. unfold end_bound.
  apply heapless_bind; [by apply heapless_truthy|]. intros ?. heapless_auto.
Qed.

Lemma heapless_parse_bound b : heapless (parse_bound b).
Proof. unfold parse_bound. heapless_auto. Qed.

Lemma heapless_delta_days e s : heapless (delta_days e s).
Proof. unfold delta_days. heapless_auto. Qed.

#[local] Hint Resolve heapless_parse_bound heapless_delta_days : heapless.

Lemma heapless_generate_text params : heapless (generate_text params).
Proof. unfold generate_text. heapless_auto. Qed.

Lemma heapless_generate_paragraph params : heapless (generate_paragraph params).
Proof. unfold generate_paragraph. heapless_auto. Qed.

Lemma heapless_generate_uuid params : heapless (generate_uuid params).
Proof. unfold generate_uuid. heapless_auto. Qed.

Lemma heapless_generate_email params : heapless (generate_email params).
Proof. unfold generate_email. heapless_auto. Qed.

Lemma heapless_generate_phone params : heapless (generate_phone params).
Proof. unfold generate_phone. heapless_auto. Qed.

Lemma heapless_generate_date params :
  scalar_params params → heapless (generate_date params).
Proof.
  intros Hp. unfold generate_date.
  apply heapless_bind; [apply heapless_check_kwargs|]. intros _.
  apply heapless_bind; [by apply heapless_start_bound, kwarg_scalar|]. intros s0.
  apply heapless_bind; [by apply heapless_end_bound, kwarg_scalar|]. intros e0.
  heapless_auto.
Qed.

Lemma heapless_generate_number params : heapless (generate_number params).
Proof. unfold generate_number. heapless_auto. Qed.

Lemma heapless_generate_boolean params : heapless (generate_boolean params).
Proof. unfold generate_boolean. heapless_auto. Qed.

Lemma heapless_generate_list params : heapless (generate_list params).
Proof. unfold generate_list. heapless_auto. Qed.

Lemma heapless_from_options params :
  scalar_params params → heapless (from_options params).
Proof.
  intros Hp. unfold from_options, required.
  apply heapless_bind; [apply heapless_check_kwargs|]. intros _.
  destruct (dict_get params "options") as [options|] eqn:E; [|by intros h w].
  apply (dict_get_scalar _ _ _ Hp) in E.
  destruct options; simpl in E; try done; try by intros h w.
  intros h w. munfold. simpl.
  apply (heapless_bind (choice_str s) (λ c, ret (VStr c)));
    [apply heapless_choice_str|intros; apply heapless_ret].
Qed.

Lemma heapless_generator name g params :
  getattr_generator name = Some g → scalar_params params → heapless (g params).
Proof.
  unfold getattr_generator, generators. simpl. intros Hg Hp.
  repeat (case_match; [injection Hg as <-;
    first [ apply heapless_generate_text
          | apply heapless_generate_paragraph
          | apply heapless_generate_uuid
          | apply heapless_generate_email
          | apply heapless_generate_phone
          | by apply heapless_generate_date
          | apply heapless_generate_number
          | apply heapless_generate_boolean
          | apply heapless_generate_list
          | by apply heapless_from_options ] |]).
  done.
Qed.

Lemma heapless_convert_value v : heapless (convert_value v).
Proof. unfold convert_value. heapless_auto. Qed.

Lemma heapless_parse_pairs pairs params : heapless (parse_pairs pairs params).
Proof.
  revert params. induction pairs as [|p pairs IH]; intros params; simpl.
  - apply heapless_ret.
  - destruct (Str.contains "=" p); [|by apply IH].
    destruct (Str.split1 "=" p) as [k [v|]]; [|apply heapless_raise].
    apply heapless_bind; [apply heapless_convert_value|]. intros v'. apply IH.
Qed.

Lemma heapless_parse_params s : heapless (parse_params s).
Proof.
  unfold parse_params. destruct (String.eqb s "").
  - apply heapless_ret.
  - apply heapless_parse_pairs.
Qed.

Lemma heapless_expand_marker data : heapless (expand_marker data).
Proof.
  unfold expand_marker. intros h w. munfold.
  rewrite heapless_parse_params.
  pose proof (generates_parse_params
    (Str.slice (Str.slice data (Some 1) None)
       (Some (Str.len (hd "" (Str.split "(" (Str.slice data (Some 1) None))) + 1))
       (Some (-1))) w) as Hp.
  destruct (parse_params _ w) as [params w1|e w1|]; simpl; [|done..].
  destruct Hp as [_ Hp].
  destruct (getattr_generator _) as [g|] eqn:Hg; [|done].
  by apply (heapless_generator _ _ _ Hg).
Qed.

Lemma heapless_process_str s : heapless (process_str s).
Proof.
  unfold process_str. destruct (Str.startswith s "$generate_").
  - apply heapless_try; [apply heapless_expand_marker|].
    intros e. apply heapless_ret.
  - apply heapless_ret.
Qed.

(** ** The document expansion does not depend on the store *)

Lemma heapless_abort {A} : heapless (@abort A).
Proof. by intros h w. Qed.

Lemma heapless_mapM {A B} (f : A → M B) l :
  (∀ x, heapless (f x)) → heapless (mapM f l).
Proof.
  intros Hf. induction l as [|x l IH]; simpl; [apply heapless_ret|].
  apply heapless_bind; [apply Hf|]. intros y.
  apply heapless_bind; [apply IH|]. intros ys. apply heapless_ret.
Qed.

Lemma heapless_expand n : ∀ t, heapless (Spec.expand n t).
Proof.
  induction n as [|n IH]; intros t; [apply heapless_abort|].
  destruct t; cbn [Spec.expand]; try apply heapless_ret.
  - apply heapless_bind; [apply heapless_process_str|]. intros v.
    destruct (Spec.json_of v); [apply heapless_ret|apply heapless_abort].
  - apply heapless_bind; [by apply heapless_mapM|]. intros. apply heapless_ret.
  - apply heapless_bind; [|intros; apply heapless_ret].
    apply heapless_mapM. intros kj.
    apply heapless_bind; [apply IH|]. intros. apply heapless_ret.
Qed.

(** ** Stores with distinct keys *)

Lemma distinct_keys_spec h :
  distinct_keys h = true ↔ ∀ a d, h !! a = Some d → distinct (keys d) = true.
Proof.
  unfold distinct_keys. rewrite forallb_forall. split.
  - intros H a d Had. apply (H (a, d)).
    by apply list_elem_of_In, elem_of_map_to_list.
  - intros H [a d] Hin%list_elem_of_In%elem_of_map_to_list. by eapply H.
Qed.

Lemma distinct_keys_insert h a d :
  distinct_keys h = true → distinct (keys d) = true →
  distinct_keys (<[a := d]> h) = true.
Proof.
  rewrite !distinct_keys_spec. intros H Hd a0 d0.
  destruct (decide (a = a0)) as [<-|Hne].
  - rewrite lookup_insert_eq. by intros [= <-].
  - rewrite lookup_insert_ne by done. apply H.
Qed.

(** ** What a value reaches decides how it is read *)

Lemma flat_map_eq_on {A B} (f g : A → list B) l :
  (∀ x, x ∈ l → g x = f x) → flat_map g l = flat_map f l.
Proof.
  induction l as [|x l IH]; intros H; [done|]. simpl.
  rewrite (H x) by by left. rewrite IH; [done|].
  intros y Hy. apply H. by right.
Qed.

Lemma map_eq_on {A B} (f g : A → B) l :
  (∀ x, x ∈ l → g x = f x) → map g l = map f l.
Proof.
  induction l as [|x l IH]; intros H; [done|]. simpl.
  rewrite (H x) by by left. rewrite IH; [done|].
  intros y Hy. apply H. by right.
Qed.

Lemma elem_of_flat_map_2 {A B} (f : A → list B) l x y :
  x ∈ l → y ∈ f x → y ∈ flat_map f l.
Proof.
  intros Hx Hy. apply list_elem_of_In, in_flat_map.
  exists x. split; by apply list_elem_of_In.
Qed.

Lemma locs_snapshot_stable n :
  ∀ v h h', (∀ x, x ∈ locs n h v → h' !! x = h !! x) →
            locs n h' v = locs n h v ∧ snapshot n h' v = snapshot n h v.
Proof.
  induction n as [|n IH]; intros v h h' H; [done|].
  destruct v as [| b | z | q | s | l | a]; try done.
  - cbn [locs snapshot] in *.
    assert (∀ x, x ∈ l → locs n h' x = locs n h x
                         ∧ snapshot n h' x = snapshot n h x) as Hl.
    { intros x Hx. apply IH. intros y Hy. apply H.
      by eapply elem_of_flat_map_2. }
    split.
    + apply flat_map_eq_on. intros x Hx. by apply Hl.
    + rewrite (map_eq_on (snapshot n h) (snapshot n h') l); [done|].
      intros x Hx. by apply Hl.
  - cbn [locs snapshot] in *.
    assert (h' !! a = h !! a) as Ha by (apply H; by left).
    unfold dict in *. rewrite Ha. destruct (h !! a) as [d|] eqn:Hd; [|done].
    assert (∀ kv, kv ∈ d → locs n h' kv.2 = locs n h kv.2
                           ∧ snapshot n h' kv.2 = snapshot n h kv.2) as Hl.
    { intros kv Hkv. apply IH. intros y Hy. apply H. right.
      by apply (elem_of_flat_map_2 (λ kv : string * value, locs n h kv.2) d kv). }
    split.
    + f_equal. apply flat_map_eq_on. intros kv Hkv. by apply Hl.
    + erewrite (map_eq_on _ _ d); [done|].
      intros kv Hkv. simpl. by rewrite (proj2 (Hl kv Hkv)).
Qed.

Lemma generated_json v :
  generated v →
  ∃ j, Spec.json_of v = Some j
       ∧ ∀ n h, snapshot (S n) h v = Some j ∧ locs (S n) h v = [].
Proof. destruct v as [| | | | |[|]|]; try done; intros _; by eexists. Qed.

Lemma Forall2_eq_on {A B} (f g : A → option B) l js :
  (∀ x, x ∈ l → g x = f x) →
  Forall2 (λ x j, f x = Some j) l js → Forall2 (λ x j, g x = Some j) l js.
Proof.
  intros H F. induction F as [|x j l js Hx _ IH]; [constructor|].
  constructor.
  - rewrite H; [done|by left].
  - apply IH. intros y Hy. apply H. by right.
Qed.

Lemma Forall2_all_some {A B} (f : A → option B) l js :
  Forall2 (λ x j, f x = Some j) l js → all_some (map f l) = Some js.
Proof.
  induction 1 as [|x j l js Hx _ IH]; [done|]. simpl. by rewrite Hx, IH.
Qed.

(** ** Expansion in the store against expansion of the document *)

Section ExpansionStep.
Variable n : nat.
Hypothesis IH : ∀ v w t,
  distinct_keys (heap w) = true → snapshot n (heap w) v = Some t →
  NoDup (locs n (heap w) v) →
  ∃ v' w' t', expansion_agrees n v w t v' w' t'.

Lemma expand_elements :
  ∀ l w ts,
    distinct_keys (heap w) = true →
    Forall2 (λ x t, snapshot n (heap w) x = Some t) l ts →
    NoDup (flat_map (locs n (heap w)) l) →
    ∃ l' w' ts',
      mapM (process_dynamic_content n) l w = Ret l' w'
      ∧ mapM (Spec.expand n) ts w = Ret ts' (set_heap (heap w) w')
      ∧ Forall2 (λ x t, snapshot n (heap w') x = Some t) l' ts'
      ∧ (∀ x, x ∉ flat_map (locs n (heap w)) l → heap w' !! x = heap w !! x)
      ∧ flat_map (locs n (heap w')) l' = flat_map (locs n (heap w)) l
      ∧ distinct_keys (heap w') = true.
Proof using IH.
  induction l as [|x l IHl]; intros w ts Hdk Hs Hnd.
  - apply Forall2_nil_inv_l in Hs as ->. exists [], w, [].
    rewrite set_heap_id. by repeat split.
  - apply Forall2_cons_inv_l in Hs as (t & ts0 & Hx & Hs & ->).
    cbn [flat_map] in Hnd. apply NoDup_app in Hnd as (Hndx & Hdisj & Hndl).
    destruct (IH x w t Hdk Hx Hndx) as (x' & w1 & t' & E1 & S1 & Sn1 & F1 & L1 & D1).
    assert (∀ y, y ∈ l → locs n (heap w1) y = locs n (heap w) y
                         ∧ snapshot n (heap w1) y = snapshot n (heap w) y) as Hst.
    { intros y Hy. apply locs_snapshot_stable. intros z Hz.
      apply F1. intros Hzx. eapply Hdisj; [exact Hzx|].
      by eapply elem_of_flat_map_2. }
    assert (flat_map (locs n (heap w1)) l = flat_map (locs n (heap w)) l) as Hfl.
    { apply flat_map_eq_on. intros y Hy. by apply Hst. }
    destruct (IHl w1 ts0 D1) as (l' & w2 & ts' & E2 & S2 & Sn2 & F2 & L2 & D2).
    { eapply Forall2_eq_on; [|exact Hs]. intros y Hy. by apply Hst. }
    { by rewrite Hfl. }
    assert (locs n (heap w2) x' = locs n (heap w1) x'
            ∧ snapshot n (heap w2) x' = snapshot n (heap w1) x') as [Lx Sx].
    { apply locs_snapshot_stable. intros z Hz. apply F2.
      rewrite Hfl. intros Hzl. rewrite L1 in Hz. by eapply Hdisj. }
    exists (x' :: l'), w2, (t' :: ts'). split; [|split; [|split; [|split; [|split]]]].
    + simpl. munfold. by rewrite E1, E2.
    + simpl. munfold. rewrite S1.
      pose proof (heapless_mapM (Spec.expand n) ts0 (heapless_expand n)
                    (heap w) w1) as Hh.
      rewrite Hh, S2. done.
    + constructor; [by rewrite Sx|done].
    + intros z Hz. cbn [flat_map] in Hz. rewrite elem_of_app in Hz.
      rewrite F2, F1; [done|tauto|]. rewrite Hfl. tauto.
    + cbn [flat_map]. by rewrite Lx, L1, L2, Hfl.
    + done.
Qed.

Lemma expand_entries a :
  ∀ q p w ts,
    distinct_keys (heap w) = true → heap w !! a = Some (p ++ q) →
    Forall2 (λ (kv : string * value) (kt : string * json),
               match snapshot n (heap w) kv.2 with
               | Some t => Some (kv.1, t)
               | None => None
               end = Some kt) q ts →
    NoDup (flat_map (λ kv : string * value, locs n (heap w) kv.2) q) →
    a ∉ flat_map (λ kv : string * value, locs n (heap w) kv.2) q →
    ∃ q' w' ts',
      forM q (λ kv, v ← process_dynamic_content n kv.2; setitem a kv.1 v) w
      = Ret tt w'
      ∧ mapM (λ kt : string * json, t ← Spec.expand n kt.2; ret (kt.1, t)) ts w
        = Ret ts' (set_heap (heap w) w')
      ∧ heap w' !! a = Some (p ++ q')
      ∧ Forall2 (λ (kv : string * value) (kt : string * json),
                   match snapshot n (heap w') kv.2 with
                   | Some t => Some (kv.1, t)
                   | None => None
                   end = Some kt) q' ts'
      ∧ (∀ x, x ≠ a →
              x ∉ flat_map (λ kv : string * value, locs n (heap w) kv.2) q →
              heap w' !! x = heap w !! x)
      ∧ flat_map (λ kv : string * value, locs n (heap w') kv.2) q'
        = flat_map (λ kv : string * value, locs n (heap w) kv.2) q
      ∧ distinct_keys (heap w') = true.
Proof using IH.
  induction q as [|[k x] q IHq]; intros p w ts Hdk Hd Hs Hnd Ha.
  - apply Forall2_nil_inv_l in Hs as ->. exists [], w, [].
    rewrite set_heap_id. by repeat split.
  - apply Forall2_cons_inv_l in Hs as (kt & ts0 & Hx & Hs & ->).
    cbn [snd fst] in Hx.
    destruct (snapshot n (heap w) x) as [t|] eqn:Hsx; [|done].
    injection Hx as <-.
    cbn [flat_map snd] in Hnd, Ha.
    apply NoDup_app in Hnd as (Hndx & Hdisj & Hndl).
    rewrite elem_of_app in Ha.
    destruct (IH x w t Hdk Hsx Hndx) as (x' & w1 & t' & E1 & S1 & Sn1 & F1 & L1 & D1).
    assert (heap w1 !! a = Some (p ++ (k, x) :: q)) as Hd1.
    { rewrite F1; [done|tauto]. }
    pose proof (distinct_keys_lookup _ _ _ D1 Hd1) as Hdist.
    assert (dict_set k x' (p ++ (k, x) :: q) = (p ++ [(k, x')]) ++ q) as Hset.
    { rewrite <- app_assoc. simpl. apply dict_set_middle.
      eapply distinct_middle. unfold keys in Hdist.
      rewrite map_app in Hdist. exact Hdist. }
    set (w2 := set_heap (<[a := (p ++ [(k, x')]) ++ q]> (heap w1)) w1).
    assert (setitem a k x' w1 = Ret tt w2) as E2.
    { unfold setitem, deref. munfold. unfold dict in *. rewrite Hd1.
      by rewrite Hset. }
    assert (distinct_keys (heap w2) = true) as D2.
    { apply distinct_keys_insert; [done|].
      unfold keys in *. rewrite <- app_assoc, map_app in *. exact Hdist. }
    assert (∀ z, z ≠ a → heap w2 !! z = heap w1 !! z) as F2.
    { intros z Hz. unfold w2. simpl. by rewrite lookup_insert_ne. }
    assert (∀ kv : string * value, kv ∈ q →
              locs n (heap w2) kv.2 = locs n (heap w) kv.2
              ∧ snapshot n (heap w2) kv.2 = snapshot n (heap w) kv.2) as Hst.
    { intros kv Hkv. apply locs_snapshot_stable. intros z Hz.
      assert (z ∈ flat_map (λ kv : string * value, locs n (heap w) kv.2) q) as Hzq
        by by apply (elem_of_flat_map_2
                       (λ kv : string * value, locs n (heap w) kv.2) q kv).
      rewrite F2 by (intros ->; tauto).
      apply F1. intros Hzx. by eapply Hdisj. }
    assert (flat_map (λ kv : string * value, locs n (heap w2) kv.2) q
            = flat_map (λ kv : string * value, locs n (heap w) kv.2) q) as Hfl.
    { apply flat_map_eq_on. intros kv Hkv. by apply Hst. }
    destruct (IHq (p ++ [(k, x')]) w2 ts0 D2)
      as (q' & w3 & ts' & E3 & S3 & Hd3 & Sn3 & F3 & L3 & D3).
    { unfold w2. simpl. by rewrite lookup_insert_eq. }
    { eapply (Forall2_eq_on
                (λ kv : string * value,
                   match snapshot n (heap w) kv.2 with
                   | Some t => Some (kv.1, t)
                   | None => None
                   end)); [|exact Hs].
      intros kv Hkv. cbv beta. by rewrite (proj2 (Hst kv Hkv)). }
    { by rewrite Hfl. }
    { rewrite Hfl. tauto. }
    assert (locs n (heap w3) x' = locs n (heap w1) x'
            ∧ snapshot n (heap w3) x' = snapshot n (heap w1) x') as [Lx Sx].
    { apply locs_snapshot_stable. intros z Hz. rewrite L1 in Hz.
      rewrite F3, F2; [done| | |].
      - intros ->. tauto.
      - intros ->. tauto.
      - rewrite Hfl. intros Hzq. by eapply Hdisj. }
    exists ((k, x') :: q'), w3, ((k, t') :: ts').
    split; [|split; [|split; [|split; [|split; [|split]]]]].
    + cbn [forM fst snd]. munfold. rewrite E1. munfold. by rewrite E2, E3.
    + assert (heapless
                (mapM (λ kt : string * json,
                         t ← Spec.expand n kt.2; ret (kt.1, t)) ts0)) as Hh.
      { apply heapless_mapM. intros kt.
        apply heapless_bind; [apply heapless_expand|].
        intros. apply heapless_ret. }
      specialize (Hh (heap w) w2).
      change (set_heap (heap w) w2) with (set_heap (heap w) w1) in Hh.
      cbn [mapM fst snd]. munfold. by rewrite S1, Hh, S3.
    + by rewrite Hd3, <- app_assoc.
    + constructor; [|done]. cbn [fst snd]. by rewrite Sx, Sn1.
    + intros z Hza Hz. cbn [flat_map snd] in Hz. rewrite elem_of_app in Hz.
      rewrite F3, F2, F1; [done|tauto|done|done|]. rewrite Hfl. tauto.
    + cbn [flat_map snd]. by rewrite Lx, L1, L3, Hfl.
    + done.
Qed.

End ExpansionStep.

(** On a store that holds a document (every object reached once), the
    expander does to the value what the expansion of section 4.2 does to
    the document, string by string in the same order. *)
Lemma process_dynamic_content_expand n :
  ∀ v w t,
    distinct_keys (heap w) = true → snapshot n (heap w) v = Some t →
    NoDup (locs n (heap w) v) →
    ∃ v' w' t', expansion_agrees n v w t v' w' t'.
Proof.
  induction n as [|n IH]; intros v w t Hdk Hs Hnd; [done|].
  unfold expansion_agrees.
  destruct v as [| b | z | q | s | l | a].
  1-4: injection Hs as <-; eexists _, w, _;
       rewrite set_heap_id; by repeat split.
  - (* string *)
    injection Hs as <-.
    destruct (process_str_returns s w) as (v' & w' & E & Hf & Hg).
    destruct (generated_json v' Hg) as (t' & Ht' & Hsn).
    exists v', w', t'. destruct Hf as (Hh & _).
    assert (set_heap (heap w) w' = w') as -> by (rewrite <- Hh; apply set_heap_id).
    split; [done|]. split.
    { cbn [Spec.expand]. munfold. by rewrite E, Ht'. }
    split; [apply Hsn|]. split; [by rewrite Hh|]. split; [apply Hsn|by rewrite Hh].
  - (* list *)
    cbn [snapshot] in Hs.
    destruct (all_some (map (snapshot n (heap w)) l)) as [ts|] eqn:Ets; [|done].
    injection Hs as <-. apply all_some_Forall2 in Ets. cbn [locs] in Hnd.
    destruct (expand_elements n IH l w ts Hdk Ets Hnd)
      as (l' & w' & ts' & E & S & Sn & F & L & D).
    exists (VList l'), w', (JList ts').
    split; [cbn [process_dynamic_content]; munfold; by rewrite E|].
    split; [cbn [Spec.expand]; munfold; by rewrite S|].
    split; [cbn [snapshot]; by rewrite (Forall2_all_some _ _ _ Sn)|].
    by repeat split.
  - (* dict *)
    cbn [snapshot] in Hs. cbn [locs] in Hnd.
    destruct (heap w !! a) as [d|] eqn:Hd; [|done].
    match type of Hs with
      match all_some (map ?f d) with _ => _ end = _ =>
        destruct (all_some (map f d)) as [ts|] eqn:Ets; [|done]
    end.
    injection Hs as <-. apply all_some_Forall2 in Ets.
    apply NoDup_cons in Hnd as [Ha Hnd].
    destruct (expand_entries n IH a d [] w ts Hdk Hd Ets Hnd Ha)
      as (d' & w' & ts' & E & S & Hd' & Sn & F & L & D).
    exists (VDict a), w', (JDict ts').
    split.
    { cbn [process_dynamic_content]. unfold deref. munfold.
      unfold dict in *. rewrite Hd. by rewrite E. }
    split; [cbn [Spec.expand]; munfold; by rewrite S|].
    split.
    { cbn [snapshot]. simpl in Hd'. unfold dict in *. rewrite Hd'.
      by rewrite (Forall2_all_some _ _ _ Sn). }
    split.
    { intros x Hx. cbn [locs] in Hx. unfold dict in *. rewrite Hd in Hx.
      rewrite not_elem_of_cons in Hx. apply F; tauto. }
    split; [|done].
    cbn [locs]. simpl in Hd'. unfold dict in *. by rewrite Hd', Hd, L.
Qed.



(** The document of [bad_marker_world] after the expansion of section 4.2:
    both bad markers have become strings, the good marker and the number are
    as they would be without them. *)
Example bad_markers_document :
  Spec.expand 3
    (JDict [("title", JStr "$generate_text(min_words=)");
            ("ids", JList [JStr "$generate_nope(x=1)"; JStr "$generate_uuid()"]);
            ("count", JInt 1)]) bad_marker_world
  = Ret (JDict
           [("title", JStr ("Error generating content: "
                            +:+ "invalid literal for int() with base 10: ''"));
            ("ids", JList [JStr "Unknown generator: generate_nope";
                           JStr "uuid-1"]);
            ("count", JInt 1)])
        (set_texts [] bad_marker_world).
Proof. reflexivity. Qed.


(** The body of [bad_marker_world] after expansion: both bad markers have
    become strings, the good marker and the number are as they would be
    without them. *)
Example bad_markers_expanded :
  match process_dynamic_content 3 (VDict 0%nat) bad_marker_world with
  | Ret v' w' =>
      snapshot 3 (heap w') v'
      = Some (JDict
          [("title", JStr ("Error generating content: "
                           +:+ "invalid literal for int() with base 10: ''"));
           ("ids", JList [JStr "Unknown generator: generate_nope";
                          JStr "uuid-1"]);
           ("count", JInt 1)])
  | _ => False
  end.
Proof. vm_compute. reflexivity. Qed.

(** * The generators *)

(** ** [random.randint] *)

Lemma randint_spec lo hi w :
  match randint (VInt lo) (VInt hi) w with
  | Ret n w' => lo ≤ n ≤ hi ∧ frame w w'
  | Exc (ValueError _) w' => hi < lo ∧ w' = w
  | _ => False
  end.
Proof.
  unfold randint, randrange, add_one, randrange_arg, randbelow, draw. munfold.
  destruct (Z.ltb_spec 0 (hi + 1 - lo)) as [H|H]; [|split; [lia|done]].
  pose proof (Z.mod_pos_bound) as Hm.
  destruct (rng w) as [|d r]; simpl.
  - specialize (Hm 0 (hi + 1 - lo) H). split; [lia|done].
  - specialize (Hm d (hi + 1 - lo) H). split; [lia|done].
Qed.

(** X1.  [generate_number] called with integer bounds (given or default)
    returns an integer between them, both included, when the lower bound is
    not above the upper one, and raises [ValueError] otherwise; it only
    advances the random source. *)
Theorem generate_number_in_range params lo hi w :
  unexpected_keyword ["min_val"; "max_val"] params = None →
  kwarg params "min_val" (VInt 0) = VInt lo →
  kwarg params "max_val" (VInt 100) = VInt hi →
  match generate_number params w with
  | Ret v w' => ∃ n, v = VInt n ∧ lo ≤ n ≤ hi ∧ frame w w'
  | Exc e w' => ∃ msg, e = ValueError msg ∧ hi < lo ∧ w' = w
  | Abort => False
  end.
Proof.
  intros Hk Hlo Hhi. unfold generate_number, check_kwargs.
  rewrite Hk, Hlo, Hhi. munfold.
  pose proof (randint_spec lo hi w) as H.
  destruct (randint (VInt lo) (VInt hi) w) as [n w'|[] w'|]; try done.
  - by exists n.
  - by eexists.
Qed.

Lemma generate_number_in_range_witness :
  match generate_number [("max_val", VInt 6); ("min_val", VInt 1)]
          (set_rng [17] empty_world) with
  | Ret v w' => ∃ n, v = VInt n ∧ 1 ≤ n ≤ 6 ∧ frame (set_rng [17] empty_world) w'
  | Exc e w' => ∃ msg, e = ValueError msg ∧ 6 < 1 ∧ w' = set_rng [17] empty_world
  | Abort => False
  end.
Proof.
  exact (generate_number_in_range [("max_val", VInt 6); ("min_val", VInt 1)]
           1 6 (set_rng [17] empty_world) eq_refl eq_refl eq_refl).
Defined.

(** ** Lengths of slices and stripped strings *)

Lemma length_take n s : (String.length (Str.take n s) ≤ n)%nat.
Proof.
  revert s. induction n as [|n IH]; intros [|a s]; simpl; try lia.
  specialize (IH s). lia.
Qed.

Lemma length_take_le n s : (String.length (Str.take n s) ≤ String.length s)%nat.
Proof.
  revert s. induction n as [|n IH]; intros [|a s]; simpl; try lia.
  specialize (IH s). lia.
Qed.

Lemma length_lstrip s : (String.length (Str.lstrip s) ≤ String.length s)%nat.
Proof.
  induction s as [|a s IH]; simpl; [lia|].
  destruct (Str.isspace_char a); simpl; lia.
Qed.

Lemma length_rev_app s t :
  String.length (String.rev_app s t) = (String.length s + String.length t)%nat.
Proof.
  revert t. induction s as [|a s IH]; intros t; simpl; [done|].
  rewrite IH. simpl. lia.
Qed.

Lemma length_rev s : String.length (String.rev s) = String.length s.
Proof. unfold String.rev. rewrite length_rev_app. simpl. lia. Qed.

Lemma length_strip s : (String.length (Str.strip s) ≤ String.length s)%nat.
Proof.
  unfold Str.strip, Str.rstrip. rewrite length_rev.
  etrans; [apply length_lstrip|]. rewrite length_rev. apply length_lstrip.
Qed.

(** A prefix [s[:k]] with [k] not negative has at most [k] characters. *)
Lemma len_slice_prefix s k :
  0 ≤ k → Str.len (Str.slice s None (Some k)) ≤ k.
Proof.
  intros Hk. unfold Str.slice, Str.len, Str.clamp. simpl.
  destruct (Z.ltb_spec k 0) as [?|_]; [lia|].
  rewrite Z.sub_0_r.
  pose proof (length_take (Z.to_nat (Z.min k (Z.of_nat (String.length s)))) s).
  lia.
Qed.

(** X2.  [generate_text] called with integer bounds [0 <= min_words <=
    max_words] (given or default) returns a string of at most
    [10 * max_words] characters: the bounds count tens of characters of the
    library's text, not words.  Only the random source and the text source
    advance. *)
Theorem generate_text_length params lo hi w :
  unexpected_keyword ["min_words"; "max_words"] params = None →
  kwarg params "min_words" (VInt 3) = VInt lo →
  kwarg params "max_words" (VInt 10) = VInt hi →
  0 ≤ lo ≤ hi →
  ∃ s w', generate_text params w = Ret (VStr s) w'
          ∧ Str.len s ≤ 10 * hi
          ∧ frame w w'.
Proof.
  intros Hk Hlo Hhi Hle. unfold generate_text, check_kwargs.
  rewrite Hk, Hlo, Hhi. munfold.
  pose proof (randint_spec lo hi w) as H.
  destruct (randint (VInt lo) (VInt hi) w) as [n w1|[] w1|]; try done;
    [|destruct H; lia].
  destruct H as [Hn Hf1].
  assert (∃ t w2, next_text w1 = Ret t w2 ∧ frame w1 w2) as (t & w2 & -> & Hf2).
  { unfold next_text. destruct (texts w1); eexists _, _; by repeat split. }
  eexists _, w2. split; [done|]. split; [|by eapply frame_trans].
  pose proof (length_strip (Str.slice t None (Some (n * 10)))) as H1.
  pose proof (len_slice_prefix t (n * 10) ltac:(lia)) as H2.
  unfold Str.len in *. lia.
Qed.

Lemma generate_text_length_witness :
  ∃ s w', generate_text [("max_words", VInt 2); ("min_words", VInt 1)]
            (set_texts ["Lorem ipsum dolor sit amet consectetur"] empty_world)
          = Ret (VStr s) w'
          ∧ Str.len s ≤ 10 * 2
          ∧ frame (set_texts ["Lorem ipsum dolor sit amet consectetur"] empty_world) w'.
Proof.
  apply (generate_text_length [("max_words", VInt 2); ("min_words", VInt 1)] 1 2);
    [reflexivity..|lia].
Defined.

(** ** Decimal numerals *)

Lemma length_app_str s t :
  String.length (s +:+ t) = (String.length s + String.length t)%nat.
Proof. induction s as [|a s IH]; simpl; [done|]. by rewrite IH. Qed.

Lemma forallb_str_app p s t :
  Str.forallb_str p (s +:+ t) = Str.forallb_str p s && Str.forallb_str p t.
Proof.
  induction s as [|a s IH]; simpl; [done|]. by rewrite IH, andb_assoc.
Qed.

Lemma digit_char_decimal d :
  0 ≤ d < 10 → Str.isdecimal_char (Str.digit_char d) = true.
Proof.
  intros Hd. unfold Str.isdecimal_char, Str.digit_char.
  rewrite N_ascii_embedding by lia.
  apply andb_true_iff. split; apply N.leb_le; lia.
Qed.

Lemma of_pos_go_decimal fuel :
  ∀ n acc, 0 ≤ n → Str.forallb_str Str.isdecimal_char acc = true →
  Str.forallb_str Str.isdecimal_char (Str.of_pos_go fuel n acc) = true.
Proof.
  induction fuel as [|fuel IH]; intros n acc Hn Hacc; simpl; [done|].
  assert (Str.forallb_str Str.isdecimal_char
            (String (Str.digit_char (n mod 10)) acc) = true) as H.
  { simpl. rewrite Hacc, digit_char_decimal; [done|].
    apply Z.mod_pos_bound. lia. }
  destruct (n <? 10); [done|]. apply IH; [|done].
  apply Z.div_pos; lia.
Qed.

(** [str(n)] of a natural number is made of decimal digits. *)
Lemma of_Z_decimal n :
  0 ≤ n → Str.forallb_str Str.isdecimal_char (Str.of_Z n) = true.
Proof.
  intros Hn. unfold Str.of_Z. destruct (Z.ltb_spec n 0); [lia|].
  by apply of_pos_go_decimal.
Qed.

Lemma length_of_Z_3 n : 100 ≤ n ≤ 999 → String.length (Str.of_Z n) = 3%nat.
Proof.
  intros Hn. unfold Str.of_Z. destruct (Z.ltb_spec n 0); [lia|].
  destruct (Z.to_nat n) as [|[|k]] eqn:E; [lia..|].
  cbn [Str.of_pos_go].
  destruct (Z.ltb_spec n 10); [lia|].
  destruct (Z.ltb_spec (n / 10) 10); [Z.div_mod_to_equations; lia|].
  destruct (Z.ltb_spec (n / 10 / 10) 10); [done|].
  Z.div_mod_to_equations; lia.
Qed.

Lemma length_of_Z_4 n : 1000 ≤ n ≤ 9999 → String.length (Str.of_Z n) = 4%nat.
Proof.
  intros Hn. unfold Str.of_Z. destruct (Z.ltb_spec n 0); [lia|].
  destruct (Z.to_nat n) as [|[|[|k]]] eqn:E; [lia..|].
  cbn [Str.of_pos_go].
  destruct (Z.ltb_spec n 10); [lia|].
  destruct (Z.ltb_spec (n / 10) 10); [Z.div_mod_to_equations; lia|].
  destruct (Z.ltb_spec (n / 10 / 10) 10); [Z.div_mod_to_equations; lia|].
  destruct (Z.ltb_spec (n / 10 / 10 / 10) 10); [done|].
  Z.div_mod_to_equations; lia.
Qed.

(** X3.  [generate_phone] returns ["+1"] followed by exactly ten decimal
    digits, whatever the random source yields. *)
Theorem generate_phone_shape w :
  ∃ d w', generate_phone [] w = Ret (VStr ("+1" +:+ d)) w'
          ∧ String.length d = 10%nat
          ∧ Str.forallb_str Str.isdecimal_char d = true
          ∧ frame w w'.
Proof.
  unfold generate_phone, check_kwargs. simpl. munfold.
  pose proof (randint_spec 200 999 w) as Ha.
  destruct (randint (VInt 200) (VInt 999) w) as [a w1|[] w1|]; try done;
    [|destruct Ha; lia].
  pose proof (randint_spec 100 999 w1) as Hb.
  destruct (randint (VInt 100) (VInt 999) w1) as [b w2|[] w2|]; try done;
    [|destruct Hb; lia].
  pose proof (randint_spec 1000 9999 w2) as Hc.
  destruct (randint (VInt 1000) (VInt 9999) w2) as [c w3|[] w3|]; try done;
    [|destruct Hc; lia].
  destruct Ha as [Ha Hf1], Hb as [Hb Hf2], Hc as [Hc Hf3].
  exists (Str.of_Z a +:+ Str.of_Z b +:+ Str.of_Z c), w3.
  split; [done|]. split; [|split].
  - rewrite !length_app_str, !length_of_Z_3, length_of_Z_4 by lia. done.
  - rewrite !forallb_str_app, !of_Z_decimal by lia. done.
  - eauto using frame_trans.
Qed.

(** ** Random letters *)

Lemma letter_slice i :
  0 ≤ i < 26 →
  ∃ c, Str.slice ascii_lowercase (Some i) (Some (i + 1)) = String c ""
       ∧ Str.contains c ascii_lowercase = true.
Proof.
  intros Hi. assert (∃ k, i = Z.of_nat k ∧ (k < 26)%nat) as (k & -> & Hk).
  { exists (Z.to_nat i). lia. }
  do 26 (destruct k as [|k]; [by eexists|]). lia.
Qed.

Lemma choice_letter w :
  ∃ c w', choice_str ascii_lowercase w = Ret (String c "") w'
          ∧ Str.contains c ascii_lowercase = true ∧ frame w w'.
Proof.
  unfold choice_str, ascii_lowercase. fold ascii_lowercase.
  change (Str.len ascii_lowercase) with 26.
  unfold randbelow, draw. munfold.
  destruct (rng w) as [|d r].
  - destruct (letter_slice (0 mod 26)) as (c & E & Hc); [done|].
    exists c, w. by rewrite <- E.
  - destruct (letter_slice (d mod 26)) as (c & E & Hc);
      [apply Z.mod_pos_bound; lia|].
    exists c, (set_rng r w). by rewrite <- E.
Qed.

Lemma random_letters_spec n :
  ∀ w, ∃ s w', random_letters n w = Ret s w'
               ∧ String.length s = n
               ∧ Str.forallb_str (λ c, Str.contains c ascii_lowercase) s = true
               ∧ frame w w'.
Proof.
  induction n as [|n IH]; intros w.
  - by exists "", w.
  - destruct (choice_letter w) as (c & w1 & E1 & Hc & Hf1).
    destruct (IH w1) as (s & w2 & E2 & Hlen & Hs & Hf2).
    exists (String c s), w2. split; [|split; [|split]].
    + cbn [random_letters]. munfold. by rewrite E1, E2.
    + simpl. by rewrite Hlen.
    + cbn [Str.forallb_str]. by rewrite Hc, Hs.
    + by eapply frame_trans.
Qed.

(** X4.  [generate_email] returns eight lower-case ASCII letters, an at
    sign, six lower-case ASCII letters and [".com"], whatever the random
    source yields. *)
Theorem generate_email_shape w :
  ∃ username domain w',
    generate_email [] w = Ret (VStr (username +:+ "@" +:+ domain +:+ ".com")) w'
    ∧ String.length username = 8%nat ∧ String.length domain = 6%nat
    ∧ Str.forallb_str (λ c, Str.contains c ascii_lowercase) username = true
    ∧ Str.forallb_str (λ c, Str.contains c ascii_lowercase) domain = true
    ∧ frame w w'.
Proof.
  destruct (random_letters_spec 8 w) as (u & w1 & E1 & Lu & Hu & Hf1).
  destruct (random_letters_spec 6 w1) as (d & w2 & E2 & Ld & Hd & Hf2).
  exists u, d, w2. split.
  { unfold generate_email, check_kwargs. cbn [unexpected_keyword]. munfold.
    by rewrite E1, E2. }
  repeat split; try done; try apply Hf2.
  all: destruct Hf1 as (?&?&?&?), Hf2 as (?&?&?&?); congruence.
Qed.

(** ** Dates *)

Lemma randint_strftime a b w k w' :
  randint a b w = Ret k w' → strftime_ymd w' = strftime_ymd w.
Proof.
  unfold randint, randrange, add_one, randrange_arg, randbelow, draw. munfold.
  destruct b; try done; destruct a; try done;
    repeat match goal with
           | |- context [if ?c then _ else _] => destruct c; try done
           end;
    destruct (rng w); by intros [= _ <-].
Qed.

(** X5.  [generate_date] called with two non-empty ISO strings that the
    library reads as naive datetimes [s] and [e]: when [s] is not after [e]
    it returns the formatted date [s + k days] for some [k >= 0] with
    [s + k days <= e]; when [s] is after [e] it raises [ValueError].  Only
    the random source advances. *)
Theorem generate_date_between params ss es s e w :
  unexpected_keyword ["start_date"; "end_date"] params = None →
  kwarg params "start_date" VNone = VStr ss →
  kwarg params "end_date" VNone = VStr es →
  ss ≠ "" → es ≠ "" →
  fromisoformat w ss = Some s → fromisoformat w es = Some e →
  utcoffset s = None → utcoffset e = None →
  0 ≤ ticks s < max_ticks → 0 ≤ ticks e < max_ticks →
  match generate_date params w with
  | Ret v w' =>
      ∃ k, v = VStr (strftime_ymd w (Datetime (ticks s + k * day_ticks) None))
           ∧ 0 ≤ k ∧ ticks s + k * day_ticks ≤ ticks e ∧ frame w w'
  | Exc x w' => ∃ msg, x = ValueError msg ∧ ticks e < ticks s ∧ w' = w
  | Abort => False
  end.
Proof.
  intros Hk Hs He Hss Hes Fs Fe Os Oe Bs Be.
  unfold generate_date, check_kwargs. rewrite Hk, Hs, He.
  unfold start_bound, end_bound, truthy, parse_bound, datetime_fromisoformat.
  munfold.
  destruct (String.eqb_spec ss "") as [?|_]; [done|].
  destruct (String.eqb_spec es "") as [?|_]; [done|].
  cbn [negb]. rewrite Fs, Fe.
  unfold delta_days, days_between. rewrite Os, Oe. munfold.
  set (days := (ticks e - ticks s) / day_ticks).
  assert (0 < day_ticks) as Hday by done.
  pose proof (randint_spec 0 days w) as H.
  destruct (randint (VInt 0) (VInt days) w) as [k w1|[] w1|] eqn:E; try done.
  - destruct H as [Hkr Hf].
    assert (days * day_ticks ≤ ticks e - ticks s) as Hd.
    { unfold days. rewrite Z.mul_comm. apply Z.mul_div_le. done. }
    unfold add_days.
    destruct (Z.leb_spec 0 (ticks s + k * day_ticks)) as [_|?]; [|nia].
    destruct (Z.ltb_spec (ticks s + k * day_ticks) max_ticks) as [_|?]; [|nia].
    cbn [andb]. rewrite Os.
    exists k. split; [|split; [lia|split; [nia|done]]].
    by rewrite (randint_strftime _ _ _ _ _ E).
  - destruct H as [Hlt ->]. eexists. split; [done|]. split; [|done].
    unfold days in Hlt.
    destruct (Z.lt_ge_cases (ticks e) (ticks s)) as [?|Hge]; [done|].
    assert (0 ≤ (ticks e - ticks s) / day_ticks) by (apply Z.div_pos; lia).
    lia.
Qed.

Lemma generate_date_between_witness :
  match generate_date [("start_date", VStr "2024-01-01");
                       ("end_date", VStr "2024-01-31")] date_world with
  | Ret v w' =>
      ∃ k, v = VStr (strftime_ymd date_world
                       (Datetime (10 * day_ticks + k * day_ticks) None))
           ∧ 0 ≤ k ∧ 10 * day_ticks + k * day_ticks ≤ 40 * day_ticks
           ∧ frame date_world w'
  | Exc x w' =>
      ∃ msg, x = ValueError msg ∧ 40 * day_ticks < 10 * day_ticks
             ∧ w' = date_world
  | Abort => False
  end.
Proof.
  apply (generate_date_between
           [("start_date", VStr "2024-01-01"); ("end_date", VStr "2024-01-31")]
           "2024-01-01" "2024-01-31"
           (Datetime (10 * day_ticks) None) (Datetime (40 * day_ticks) None)
           date_world);
    try reflexivity; try discriminate; by vm_compute.
Defined.

(** ** Choosing from options *)

(** X6.  Called on a non-empty list, [from_options] returns one of its
    elements; called on an empty list it raises [IndexError].  Only the
    random source advances. *)
Theorem from_options_member l w :
  match from_options [("options", VList l)] w with
  | Ret v w' => v ∈ l ∧ frame w w'
  | Exc e w' => ∃ msg, e = IndexError msg ∧ l = [] ∧ w' = w
  | Abort => False
  end.
Proof.
  unfold from_options, check_kwargs, required. cbn. munfold.
  destruct l as [|x l]; [by eexists|].
  pose proof (generates_choice (x :: l) w) as H.
  unfold choice in *. 
  destruct ((i ← randbelow (Z.of_nat (length (x :: l)));
             ret (nth (Z.to_nat i) (x :: l) x)) w) as [v w'|e w'|] eqn:E.
  - destruct H; done.
  - unfold randbelow, draw in E. munfold. by destruct (rng w).
  - done.
Qed.

(** ** Generators without parameters *)

Lemma unexpected_keyword_nil params :
  params ≠ [] → ∃ k, unexpected_keyword [] params = Some k.
Proof. destruct params as [|[k v] params]; [done|]. by exists k. Qed.

(** X7.  [generate_uuid], [generate_email], [generate_phone] and
    [generate_boolean] take no parameter: called with any keyword argument
    they raise [TypeError] before drawing anything. *)
Theorem no_parameter_generators g params w :
  g ∈ [generate_uuid; generate_email; generate_phone; generate_boolean] →
  params ≠ [] →
  ∃ msg, g params w = Exc (TypeError msg) w.
Proof.
  intros Hg [k Hk]%unexpected_keyword_nil.
  repeat (apply elem_of_cons in Hg as [->|Hg]);
    [..|by apply elem_of_nil in Hg];
    unfold generate_uuid, generate_email, generate_phone, generate_boolean,
      check_kwargs; rewrite Hk; by eexists.
Qed.

Lemma no_parameter_generators_witness :
  ∃ msg, generate_uuid [("version", VInt 4)] empty_world
         = Exc (TypeError msg) empty_world.
Proof.
  apply no_parameter_generators; [|done].
  constructor.
Defined.

(** * The marker syntax *)

(** ** The function name *)

Lemma startswith_split s p :
  Str.startswith s p = true → ∃ r, s = p +:+ r.
Proof.
  revert s. induction p as [|b p IH]; intros s H.
  - by exists s.
  - destruct s as [|a s]; [done|]. simpl in H.
    destruct (Ascii.eqb_spec a b) as [->|]; [|done].
    destruct (IH s H) as [r ->]. by exists r.
Qed.

Lemma split_nonempty c s : ∃ x xs, Str.split c s = x :: xs.
Proof.
  induction s as [|a s (x & xs & IH)]; simpl; [by eexists _, _|].
  destruct (Ascii.eqb a c); [by eexists _, _|]. rewrite IH. by eexists _, _.
Qed.

Lemma take_length s : Str.take (String.length s) s = s.
Proof. induction s as [|a s IH]; simpl; [done|]. by rewrite IH. Qed.

(** [s[1:]] drops the first character. *)
Lemma slice_tail a s : Str.slice (String a s) (Some 1) None = s.
Proof.
  unfold Str.slice, Str.len, Str.clamp. cbn [from_option].
  change (1 <? 0) with false. cbv iota.
  rewrite Z.min_l by (cbn [String.length]; lia).
  change (Z.to_nat 1) with 1%nat. cbn [Str.drop].
  replace (Z.to_nat (Z.of_nat (String.length (String a s)) - 1))
    with (String.length s) by (cbn [String.length]; lia).
  apply take_length.
Qed.

Lemma hd_split_app c p r :
  Str.contains c p = false →
  hd "" (Str.split c (p +:+ r)) = p +:+ hd "" (Str.split c r).
Proof.
  induction p as [|a p IH]; [done|]. rewrite append_cons. simpl.
  destruct (Ascii.eqb a c); [done|]. intros H. specialize (IH H).
  destruct (split_nonempty c (p +:+ r)) as (x & xs & E).
  rewrite E in *. simpl in *. by rewrite IH.
Qed.

(** X8.  The function name that the expander reads off a marker begins
    with [generate_]: no marker reaches [from_options], which the class
    defines and the help text advertises. *)
Theorem marker_name_generate s :
  Str.startswith s "$generate_" = true →
  Str.startswith (marker_name s) "generate_" = true
  ∧ String.eqb (marker_name s) "from_options" = false.
Proof.
  intros [r ->]%startswith_split. unfold marker_name.
  change ("$generate_" +:+ r) with (String "$" ("generate_" +:+ r)).
  rewrite slice_tail, hd_split_app by done.
  split; [apply startswith_app|done].
Qed.

Lemma marker_name_generate_witness :
  Str.startswith (marker_name "$generate_from_options(x=1)") "generate_" = true
  ∧ String.eqb (marker_name "$generate_from_options(x=1)") "from_options" = false.
Proof. apply marker_name_generate. reflexivity. Defined.

(** ** The argument list *)

Lemma slice_past s k :
  0 ≤ k → Str.len s - 1 ≤ k → Str.slice s (Some k) (Some (-1)) = "".
Proof.
  intros Hk Hl. unfold Str.slice, Str.clamp. cbn [from_option].
  destruct (Z.ltb_spec k 0) as [?|_]; [lia|].
  change (-1 <? 0) with true. cbv iota.
  replace (Z.to_nat (Z.max 0 (-1 + Str.len s) - Z.min k (Str.len s)))
    with 0%nat by (unfold Str.len in *; lia).
  done.
Qed.

Lemma app_assoc_str s t u : (s +:+ t) +:+ u = s +:+ (t +:+ u).
Proof. induction s as [|a s IH]; [done|]. by rewrite !append_cons, IH. Qed.

Lemma startswith_app_l s t p :
  Str.startswith s p = true → Str.startswith (s +:+ t) p = true.
Proof.
  intros [r ->]%startswith_split. rewrite app_assoc_str.
  apply startswith_app.
Qed.

Lemma len_app s t : Str.len (s +:+ t) = Str.len s + Str.len t.
Proof. unfold Str.len. rewrite length_app_str. lia. Qed.

(** X9.  The parentheses of a marker are optional: a marker that stops
    after the function name is expanded exactly as the same marker with an
    empty argument list. *)
Theorem parentheses_optional name w :
  Str.startswith name "generate_" = true →
  Str.contains "(" name = false →
  process_str ("$" +:+ name) w = process_str ("$" +:+ name +:+ "()") w.
Proof.
  intros Hs Hc. unfold process_str.
  change ("$" +:+ name +:+ "()") with (String "$" (name +:+ "()")).
  change ("$" +:+ name) with (String "$" name).
  change "$generate_" with (String "$" "generate_").
  cbn [Str.startswith]. rewrite Ascii.eqb_refl.
  rewrite (startswith_app_l _ "()" _ Hs), Hs.
  unfold expand_marker. rewrite !slice_tail.
  rewrite (split_no_sep _ _ Hc).
  change (name +:+ "()") with (name +:+ String "(" ")").
  rewrite (split_app _ _ _ Hc). cbn [hd].
  rewrite !slice_past; try done.
  - unfold Str.len. lia.
  - rewrite len_app. unfold Str.len. simpl. lia.
  - unfold Str.len. lia.
  - unfold Str.len. lia.
Qed.

Lemma parentheses_optional_witness :
  process_str "$generate_uuid" (set_texts ["u-1"] empty_world)
  = process_str "$generate_uuid()" (set_texts ["u-1"] empty_world).
Proof. apply (parentheses_optional "generate_uuid"); reflexivity. Defined.

Lemma parse_pairs_skipped pieces acc w :
  forallb (λ x, negb (Str.contains "=" x)) pieces = true →
  parse_pairs pieces acc w = Ret acc w.
Proof.
  induction pieces as [|x pieces IH]; [done|]. simpl.
  intros [Hx Hr]%andb_prop. apply negb_true_iff in Hx. rewrite Hx. by apply IH.
Qed.

(** X10.  Arguments written without an equals sign are dropped without a
    word: an argument list made only of such pieces binds no parameter. *)
Theorem positional_arguments_dropped pieces w :
  forallb (λ x, negb (Str.contains "," x)) pieces = true →
  forallb (λ x, negb (Str.contains "=" x)) pieces = true →
  parse_params (join "," pieces) w = Ret [] w.
Proof.
  intros Hc He. unfold parse_params.
  destruct (String.eqb (join "," pieces) ""); [done|].
  destruct pieces as [|x pieces]; [done|].
  rewrite split_join by done. by apply parse_pairs_skipped.
Qed.

Lemma positional_arguments_dropped_witness :
  parse_params (join "," ["5"; " 20"]) empty_world = Ret [] empty_world.
Proof. apply positional_arguments_dropped; reflexivity. Defined.

(** ** Converted values *)

Lemma digits_value_nonneg s :
  ∀ acc, Str.forallb_str Str.isdecimal_char s = true → 0 ≤ acc →
         0 ≤ Str.digits_value acc s.
Proof.
  induction s as [|a s IH]; intros acc H Hacc; [done|].
  simpl in H. apply andb_prop in H as [Ha Hs]. cbn [Str.digits_value].
  apply IH; [done|].
  unfold Str.isdecimal_char in Ha. apply andb_prop in Ha as [Ha _].
  apply N.leb_le in Ha. lia.
Qed.

(** X11.  A parameter value is converted to a boolean, an integer that is
    not negative, or a string (or [int] raises [ValueError]); the world is
    untouched.  In particular a value with a minus sign stays the string it
    was: no marker can pass a negative number. *)
Theorem convert_value_range :
  (∀ v w, match convert_value v w with
          | Ret (VInt n) w' => 0 ≤ n ∧ w' = w
          | Ret (VBool _) w' | Ret (VStr _) w' => w' = w
          | Exc (ValueError _) w' => w' = w
          | _ => False
          end)
  ∧ (∀ x w, convert_value (String "-" x) w = Ret (VStr (String "-" x)) w).
Proof.
  split.
  - intros v w. unfold convert_value.
    destruct (String.eqb (Str.lower v) "true"); [done|].
    destruct (String.eqb (Str.lower v) "false"); [done|].
    destruct (Str.isdigit v); [|by destruct (_ && _)].
    destruct (Str.isdecimal v) eqn:E; [|done].
    split; [|done]. apply digits_value_nonneg; [|done].
    unfold Str.isdecimal in E. by destruct v.
  - intros x w. unfold convert_value.
    assert (Str.lower (String "-" x) = String "-" (Str.lower x)) as -> by done.
    by cbn.
Qed.

(** * The store during expansion *)

Lemma same_keys_refl h : same_keys h h.
Proof. done. Qed.

Lemma same_keys_trans h1 h2 h3 :
  same_keys h1 h2 → same_keys h2 h3 → same_keys h1 h3.
Proof. intros H1 H2 a. by rewrite H2, H1. Qed.

Lemma same_keys_lookup h h' a d :
  same_keys h h' → h !! a = Some d →
  ∃ d', h' !! a = Some d' ∧ keys d' = keys d.
Proof.
  intros H Hd. specialize (H a). rewrite Hd in H.
  destruct (h' !! a) as [d'|]; [|done]. injection H as H. by exists d'.
Qed.

Lemma existsb_keys kv (d : dict) :
  kv ∈ d → existsb (String.eqb kv.1) (keys d) = true.
Proof.
  intros H. apply existsb_exists. exists kv.1. split.
  - apply in_map, list_elem_of_In, H.
  - apply String.eqb_refl.
Qed.

Lemma setitem_same_keys a k v w w' d :
  setitem a k v w = Ret tt w' → heap w !! a = Some d →
  existsb (String.eqb k) (keys d) = true →
  same_keys (heap w) (heap w').
Proof.
  intros (d1 & Hd1 & ->)%setitem_heap Hd Hk a'.
  unfold dict in *. rewrite Hd in Hd1. injection Hd1 as <-.
  destruct (decide (a = a')) as [<-|Hne].
  - rewrite lookup_insert_eq, Hd. simpl. by rewrite keys_dict_set_in.
  - by rewrite lookup_insert_ne.
Qed.

Lemma process_dynamic_content_keys rk n :
  ∀ v w v' w',
    ranked rk (heap w) = true → fits rk n v = true →
    process_dynamic_content n v w = Ret v' w' →
    same_keys (heap w) (heap w').
Proof.
  induction n as [|n IH]; intros v w v' w' Hrk Hn E; [done|].
  destruct v as [| b | z | q | s | l | b].
  1-4: by injection E as <- <-.
  - destruct (process_str_returns s w) as (v1 & w1 & E1 & [Hh _] & _).
    cbn [process_dynamic_content] in E. rewrite E1 in E.
    injection E as <- <-. by rewrite Hh.
  - cbn [fits] in Hn. cbn [process_dynamic_content] in E.
    assert (∀ l' w2, mapM (process_dynamic_content n) l w = Ret l' w2 →
                     same_keys (heap w) (heap w2)) as Hl.
    { clear E. revert w Hrk. induction l as [|x l IHl]; intros w Hrk l' w2 E.
      - by injection E as <- <-.
      - simpl in Hn. apply andb_prop in Hn as [Hx Hn].
        destruct (process_dynamic_content_terminates rk n x w Hrk Hx)
          as (x' & w1 & E1 & Hrk1 & _ & _).
        simpl in E. munfold. rewrite E1 in E.
        destruct (mapM (process_dynamic_content n) l w1) as [l1 w3| |] eqn:E2;
          try done.
        injection E as <- <-.
        eapply same_keys_trans; [by eapply IH|by eapply IHl]. }
    munfold.
    destruct (mapM (process_dynamic_content n) l w) as [l1 w3| |] eqn:E2;
      try done.
    injection E as <- <-. by eapply Hl.
  - cbn [fits] in Hn. destruct (rk !! b) as [rb0|] eqn:Hb; [|done].
    apply Nat.leb_le in Hn.
    destruct (ranked_lookup _ _ _ _ Hrk Hb) as (d & rb & Hd & -> & _ & Hfit).
    cbn [process_dynamic_content] in E. unfold deref in E. munfold.
    rewrite Hd in E.
    assert (Forall (λ kv, existsb (String.eqb kv.1) (keys d) = true) d) as Hin.
    { apply Forall_forall. intros kv. apply existsb_keys. }
    assert (∀ q w0 w2,
              ranked rk (heap w0) = true → same_keys (heap w) (heap w0) →
              Forall (λ kv, fits rk rb kv.2 = true) q →
              Forall (λ kv, existsb (String.eqb kv.1) (keys d) = true) q →
              forM q (λ kv, v ← process_dynamic_content n kv.2;
                            setitem b kv.1 v) w0 = Ret tt w2 →
              same_keys (heap w) (heap w2)) as Hl.
    { clear E Hfit Hin. intros q. induction q as [|kv q IHq];
        intros w0 w2 Hrk0 Hsk Hfit Hin E.
      - by injection E as <-.
      - apply Forall_cons_1 in Hfit as [Hkv Hfit].
        apply Forall_cons_1 in Hin as [Hk Hin].
        assert (fits rk n kv.2 = true) as Hkvn
          by (eapply fits_le; [|exact Hkv]; lia).
        destruct (process_dynamic_content_terminates rk n kv.2 w0 Hrk0 Hkvn)
          as (x' & w1 & E1 & Hrk1 & Hx' & _).
        destruct (setitem_ranked rk b rb kv.1 x' w1 Hrk1 Hb (Hx' _ Hkv))
          as (w3 & E3 & Hrk3 & _).
        simpl in E. munfold. rewrite E1 in E. munfold. rewrite E3 in E.
        apply (IHq w3 w2); try done.
        pose proof (IH _ _ _ _ Hrk0 Hkvn E1) as H01.
        assert (same_keys (heap w) (heap w1)) as Hw1
          by by eapply same_keys_trans.
        eapply same_keys_trans; [exact Hw1|].
        destruct (same_keys_lookup _ _ _ _ Hw1 Hd) as (d1 & Hd1 & Hk1).
        eapply setitem_same_keys; [exact E3|exact Hd1|]. by rewrite Hk1. }
    destruct (forM d _ w) as [[] w3| |] eqn:E2; try done.
    injection E as <- <-. by eapply Hl.
Qed.

(** X12.  On an acyclic store, expansion of a value creates no dict and
    removes none, and leaves every dict with the keys it had, in the same
    order: it only replaces values.  It reads no clock and sends nothing. *)
Theorem expansion_keeps_keys rk n v w :
  ranked rk (heap w) = true → fits rk n v = true →
  ∃ v' w', process_dynamic_content n v w = Ret v' w'
           ∧ dom (heap w') = dom (heap w)
           ∧ (∀ a d, heap w !! a = Some d →
                     ∃ d', heap w' !! a = Some d' ∧ keys d' = keys d)
           ∧ same_io w w'.
Proof.
  intros Hrk Hv.
  destruct (process_dynamic_content_terminates rk n v w Hrk Hv)
    as (v' & w' & E & _ & _ & Hio).
  pose proof (process_dynamic_content_keys rk n v w v' w' Hrk Hv E) as Hk.
  exists v', w'. split; [done|]. split; [|split; [|done]].
  - apply set_eq. intros a. rewrite !elem_of_dom. specialize (Hk a).
    destruct (heap w' !! a), (heap w !! a); simpl in Hk; try done;
      split; by intros [].
  - intros a d Hd. by eapply same_keys_lookup.
Qed.

Lemma expansion_keeps_keys_witness :
  ∃ v' w', process_dynamic_content 3 (VDict 0%nat) bad_marker_world = Ret v' w'
           ∧ dom (heap w') = dom (heap bad_marker_world)
           ∧ (∀ a d, heap bad_marker_world !! a = Some d →
                     ∃ d', heap w' !! a = Some d' ∧ keys d' = keys d)
           ∧ same_io bad_marker_world w'.
Proof.
  apply (expansion_keeps_keys {[ 0%nat := 3%nat ]}); by vm_compute.
Defined.

(** * One request *)

Lemma existsb_eqb_elem_of m (l : list string) :
  existsb (String.eqb m) l = true ↔ m ∈ l.
Proof.
  rewrite existsb_exists. split.
  - intros (x & Hx & ->%String.eqb_eq). by apply list_elem_of_In.
  - intros H. exists m. split; [by apply list_elem_of_In|apply String.eqb_refl].
Qed.

(** What one call of [send_request] does, on an acyclic store. *)
Lemma send_request_spec fl rk fuel self w :
  ranked rk (heap w) = true →
  fits rk fuel (headers self) = true → fits rk fuel (body self) = true →
  fits rk fuel (params self) = true →
  ∃ r w' req,
    send_request fl fuel self w = Ret r w'
    ∧ ranked rk (heap w') = true
    ∧ sent w' = sent w ++ [req]
    ∧ req_method req = method self ∧ req_url req = url self
    ∧ (is_Some (req_json req) ↔ method self ∈ ["POST"; "PUT"; "PATCH"])
    ∧ r.1 = head (net w) ≫= reply_status
    ∧ response r.2 = match r.1 with Some _ => r.1 | None => response self end
    ∧ net w' = tail (net w)
    ∧ clock w' = drop 2 (clock w)
    ∧ duration r.2 = fl (nth 1 (clock w) 0 - nth 0 (clock w) 0)%Q.
Proof.
  intros Hrk Hh Hb Hp. unfold send_request.
  destruct (prepare_request_data_ranked rk fuel self w Hrk Hh Hb Hp)
    as (t & w1 & E1 & R1 & Fh & Fb & Fp & Hm & Hu & Hc1 & Hn1 & Hs1).
  assert (response t = response self) as Hresp.
  { unfold prepare_request_data in E1. munfold.
    repeat match type of E1 with
           | match ?o with _ => _ end = _ => destruct o; try done
           end.
    by injection E1 as <- _. }
  munfold. rewrite E1.
  assert (∃ w2, time_time w1 = Ret (nth 0 (clock w) 0%Q) w2
                ∧ heap w2 = heap w1 ∧ net w2 = net w ∧ sent w2 = sent w
                ∧ clock w2 = drop 1 (clock w)) as (w2 & -> & Hh2 & Hn2 & Hs2 & Hc2).
  { unfold time_time. rewrite Hc1. destruct (clock w) as [|t0 ts] eqn:Ec.
    - exists w1. repeat split; try done.
    - by eexists. }
  rewrite <- Hh2 in R1.
  destruct (snap_fits rk fuel _ w2 R1 Fh) as (jh & Eh).
  destruct (snap_fits rk fuel _ w2 R1 Fb) as (jb & Eb).
  destruct (snap_fits rk fuel _ w2 R1 Fp) as (jp & Ep).
  unfold try_except. munfold. rewrite Eh, Hm.
  pose proof (existsb_eqb_elem_of (method self) ["POST"; "PUT"; "PATCH"]) as Hex.
  set (j := if existsb (String.eqb (method self)) ["POST"; "PUT"; "PATCH"]
            then Some jb else None).
  assert (is_Some j ↔ method self ∈ ["POST"; "PUT"; "PATCH"]) as Hj.
  { rewrite <- Hex. unfold j. destruct (existsb _ _); split; try done;
      by intros []. }
  assert (∀ (A : Type) (k : option json → world → outcome A),
    match (if existsb (String.eqb (method self)) ["POST"; "PUT"; "PATCH"]
           then λ w, match snap fuel (body t) w with
                     | Ret a w' => Ret (Some a) w'
                     | Exc e w' => Exc e w'
                     | Abort => Abort
                     end
           else λ w, Ret None w) w2 with
    | Ret a w' => k a w'
    | Exc e w' => Exc e w'
    | Abort => Abort
    end = k j w2) as Hbody.
  { intros A k. unfold j. destruct (existsb _ _); [by rewrite Eb|done]. }
  rewrite Hbody, Ep. clear Hbody.
  set (req := Request (method self) (url t) jh j jp).
  destruct (net w) as [|[s|e] rest] eqn:En;
    destruct (clock w) as [|t0 [|t1 ts]] eqn:Ec.
  all: eexists _, _, req; split;
    [unfold requests_request, time_time; rewrite Hn2, Hs2; simpl;
     rewrite Hc2; simpl; reflexivity|].
  all: simpl; rewrite ?Hs2, ?Hn2, ?Hc2, ?Hresp; repeat split; try done;
    try apply Hj.
Qed.

(** X13.  On an acyclic store [send_request] returns and never raises.  It
    hands exactly one request to the transport, for the tester's URL and
    method, with a JSON body exactly when the method is POST, PUT or PATCH.
    It returns the status code the transport answers, or [None] when the
    transport raises, and then leaves the tester's earlier [response] in
    place.  It reads the clock twice, and the duration is the rounded
    difference of the two readings in both cases. *)
Theorem send_request_effect fl rk fuel self w :
  ranked rk (heap w) = true →
  fits rk fuel (headers self) = true → fits rk fuel (body self) = true →
  fits rk fuel (params self) = true →
  ∃ r w' req,
    send_request fl fuel self w = Ret r w'
    ∧ sent w' = sent w ++ [req]
    ∧ req_method req = method self ∧ req_url req = url self
    ∧ (is_Some (req_json req) ↔ method self ∈ ["POST"; "PUT"; "PATCH"])
    ∧ r.1 = head (net w) ≫= reply_status
    ∧ response r.2 = match r.1 with Some _ => r.1 | None => response self end
    ∧ net w' = tail (net w)
    ∧ clock w' = drop 2 (clock w)
    ∧ duration r.2 = fl (nth 1 (clock w) 0 - nth 0 (clock w) 0)%Q.
Proof.
  intros Hrk Hh Hb Hp.
  destruct (send_request_spec fl rk fuel self w Hrk Hh Hb Hp)
    as (r & w' & req & E & _ & H).
  by exists r, w', req.
Qed.

Lemma send_request_effect_witness :
  ∃ r w' req,
    send_request (λ q, q) 1 sample_tester sample_world = Ret r w'
    ∧ sent w' = sent sample_world ++ [req]
    ∧ req_method req = method sample_tester ∧ req_url req = url sample_tester
    ∧ (is_Some (req_json req) ↔ method sample_tester ∈ ["POST"; "PUT"; "PATCH"])
    ∧ r.1 = head (net sample_world) ≫= reply_status
    ∧ response r.2 = match r.1 with Some _ => r.1 | None => response sample_tester end
    ∧ net w' = tail (net sample_world)
    ∧ clock w' = drop 2 (clock sample_world)
    ∧ duration r.2 = (nth 1 (clock sample_world) 0 - nth 0 (clock sample_world) 0)%Q.
Proof.
  apply (send_request_effect (λ q, q)
           {[ 0%nat := 1%nat; 1%nat := 1%nat; 2%nat := 1%nat ]});
    by vm_compute.
Defined.

(** * The counts of a run *)

(** X14.  On an acyclic store a run of [n] iterations returns (in
    concurrent mode for [n] of at least 1) and consumes [n] transport
    outcomes.  Its counts are those of the outcomes: with [codes] the status
    codes of the first [n] outcomes that are responses and not 400..599, the
    result is the error dict when [codes] is empty (so the statistics are
    never taken of an empty list), and otherwise records [n] requests sent,
    as many successes as [codes] has elements, and the histogram of
    [codes]. *)
Theorem run_counts_replies fl fuel self n concurrent w :
  dict_fields self = true → well_formed fuel self w →
  (concurrent = true → 0 < n) →
  ∃ r w', run_performance_test fl fuel self n concurrent w = Ret r w'
    ∧ net w' = drop (Z.to_nat n) (net w)
    ∧ match r with
      | ErrorResult msg =>
          flat_map (λ r, counted (reply_status r)) (take (Z.to_nat n) (net w)) = []
          ∧ msg = "All requests failed"
      | StatsResult s =>
          requests_sent s = n
          ∧ successful_requests s
            = length (flat_map (λ r, counted (reply_status r))
                        (take (Z.to_nat n) (net w)))
          ∧ (0 < successful_requests s)%nat
          ∧ status_codes s
            = histogram (flat_map (λ r, counted (reply_status r))
                           (take (Z.to_nat n) (net w)))
      end.
Proof.
  intros Hd Hwf Hn.
  destruct (sequential_loop_returns fl fuel self (Z.to_nat n) Hd ([], []) w Hwf)
    as (acc & w' & E & _ & Hcodes & Hnet).
  simpl in Hcodes.
  assert (length acc.1 = length acc.2) as Hlen.
  { apply (sequential_loop_invariant fl
             (λ acc : list Q * list Z, length acc.1 = length acc.2)
             fuel self (Z.to_nat n)
             (λ acc0 _ _ r _ _ H, record_outcome_lengths acc0 r H)
             ([], []) w acc w' eq_refl E). }
  exists (aggregate fl self n acc), w'. split.
  { unfold run_performance_test. destruct concurrent.
    - munfold. rewrite concurrent_branch_sequential by (specialize (Hn eq_refl); lia). munfold.
      by rewrite E.
    - munfold. by rewrite E. }
  split; [done|]. unfold aggregate. rewrite <- Hcodes.
  destruct acc as [[|d ds] codes]; simpl in *.
  - split; [|done]. by destruct codes.
  - repeat split; try done. lia.
Qed.

Lemma run_counts_replies_witness :
  ∃ r w', run_performance_test (λ q, q) 1 sample_tester 3 true sample_world
          = Ret r w'
    ∧ net w' = drop (Z.to_nat 3) (net sample_world)
    ∧ match r with
      | ErrorResult msg =>
          flat_map (λ r, counted (reply_status r))
            (take (Z.to_nat 3) (net sample_world)) = []
          ∧ msg = "All requests failed"
      | StatsResult s =>
          requests_sent s = 3
          ∧ successful_requests s
            = length (flat_map (λ r, counted (reply_status r))
                        (take (Z.to_nat 3) (net sample_world)))
          ∧ (0 < successful_requests s)%nat
          ∧ status_codes s
            = histogram (flat_map (λ r, counted (reply_status r))
                           (take (Z.to_nat 3) (net sample_world)))
      end.
Proof.
  apply run_counts_replies; [reflexivity| |done].
  exists {[ 0%nat := 1%nat; 1%nat := 1%nat; 2%nat := 1%nat ]}.
  by vm_compute.
Defined.

Lemma record_outcome_tally acc (r : option Z * APITester) :
  record_outcome acc r
  = (acc.1 ++ (tally [(r.1, duration r.2)]).1,
     acc.2 ++ (tally [(r.1, duration r.2)]).2).
Proof.
  unfold record_outcome, tally, successful, response_ok. simpl.
  destruct acc as [ds cs]. destruct r.1 as [s|]; simpl.
  - destruct (negb _); simpl; by rewrite ?app_nil_r.
  - by rewrite !app_nil_r.
Qed.

Lemma tally_cons m ms :
  tally (m :: ms) = ((tally [m]).1 ++ (tally ms).1, (tally [m]).2 ++ (tally ms).2).
Proof.
  unfold tally. simpl. destruct (successful m); simpl; [|done].
  by destruct m.1.
Qed.

Lemma sequential_loop_tally fl fuel self n :
  dict_fields self = true →
  ∀ acc w, well_formed fuel self w →
  ∃ w', sequential_loop fl fuel self n acc w
        = Ret (acc.1 ++ (tally (measured fl n (clock w) (net w))).1,
               acc.2 ++ (tally (measured fl n (clock w) (net w))).2) w'.
Proof.
  intros Hd. induction n as [|n IH]; intros acc w Hwf.
  - exists w. simpl. rewrite !app_nil_r. by destruct acc.
  - destruct Hwf as (rk & Hrk & Hh & Hb & Hp).
    destruct (new_tester_ranked rk fuel self w Hd Hrk Hh Hb Hp)
      as (tester & rk1 & w1 & E1 & S1 & R1 & Fh & Fb & Fp & Hc1 & Hn1 & _).
    destruct (send_request_spec fl rk1 fuel tester w1 R1 Fh Fb Fp)
      as (r & w2 & req & E2 & R2 & _ & _ & _ & _ & Hr & _ & Hn2 & Hc2 & Hdur).
    destruct (IH (record_outcome acc r) w2) as (w3 & E3).
    { exists rk1. repeat split; [done|by eapply fits_subseteq..]. }
    exists w3. cbn [sequential_loop]. munfold. rewrite E1, E2, E3.
    rewrite Hn2, Hc2, Hn1, Hc1. cbn [measured]. rewrite tally_cons.
    rewrite record_outcome_tally, Hr, Hdur, Hn1, Hc1. simpl.
    by rewrite !app_assoc.
Qed.

Lemma tally_without_error ms ms' status_code d :
  400 ≤ status_code < 600 →
  tally (ms ++ (Some status_code, d) :: ms') = tally (ms ++ ms').
Proof.
  intros Hc. unfold tally. rewrite !List.filter_app. simpl.
  assert (successful (Some status_code, d) = false) as ->; [|done].
  unfold successful. simpl.
  destruct (Z.leb_spec 400 status_code); [|lia].
  destruct (Z.ltb_spec status_code 600); [done|lia].
Qed.

Lemma tally_without_failure ms ms' d :
  tally (ms ++ (None, d) :: ms') = tally (ms ++ ms').
Proof. unfold tally. by rewrite !List.filter_app. Qed.

(** C10, as amended.  On an acyclic store a run returns (in concurrent mode
    for a count of at least 1), and what it returns is computed from the
    successful iterations alone: the error result when there is none, and
    otherwise the statistics of their durations and the histogram of their
    status codes.  An iteration whose response has a status code from 400 to
    599, or that has no response, is not successful: with or without it the
    durations and status codes that are aggregated are the same, and the
    loop leaves its accumulators as they are.  The histogram of any run that
    returns statistics only holds status codes below 400 or from 600 up. *)
Theorem error_statuses_excluded fl fuel self num_requests concurrent w :
  (dict_fields self = true → well_formed fuel self w →
   (concurrent = true → 0 < num_requests) →
   ∃ r w',
     run_performance_test fl fuel self num_requests concurrent w = Ret r w'
     ∧ r = aggregate fl self num_requests
             (tally (measured fl (Z.to_nat num_requests) (clock w) (net w))))
  ∧ (∀ ms ms' status_code d,
       400 ≤ status_code < 600 →
       tally (ms ++ (Some status_code, d) :: ms') = tally (ms ++ ms'))
  ∧ (∀ ms ms' d, tally (ms ++ (None, d) :: ms') = tally (ms ++ ms'))
  ∧ (∀ s w',
       run_performance_test fl fuel self num_requests concurrent w
       = Ret (StatsResult s) w' →
       ∀ code, is_Some (status_codes s !! code) → code < 400 ∨ 600 ≤ code)
  ∧ (∀ acc status_code tester,
       400 ≤ status_code < 600 →
       record_outcome acc (Some status_code, tester) = acc)
  ∧ (∀ acc tester, record_outcome acc (None, tester) = acc).
Proof.
  split; [|split; [|split; [|split; [|split]]]].
  - intros Hd Hwf Hn.
    destruct (sequential_loop_tally fl fuel self (Z.to_nat num_requests) Hd
                ([], []) w Hwf) as (w' & E).
    cbn [fst snd app] in E.
    rewrite <- surjective_pairing in E.
    exists (aggregate fl self num_requests
              (tally (measured fl (Z.to_nat num_requests) (clock w) (net w)))), w'.
    split; [|done]. unfold run_performance_test. destruct concurrent.
    + munfold.
      rewrite concurrent_branch_sequential by (specialize (Hn eq_refl); lia).
      munfold. by rewrite E.
    + munfold. by rewrite E.
  - apply tally_without_error.
  - apply tally_without_failure.
  - intros s w' (acc & Hloop & Hr)%run_performance_test_returns.
    assert (Forall (λ c, response_ok c = true) acc.2) as Hok.
    { eapply (sequential_loop_invariant fl
                (λ acc, Forall (λ c, response_ok c = true) acc.2));
        [| |exact Hloop]; [|by constructor].
      intros. by apply record_outcome_codes_ok. }
    unfold aggregate in Hr. destruct acc.1; [done|].
    injection Hr as ->. simpl. intros code [n [Hin _]%histogram_lookup].
    rewrite Forall_forall in Hok. specialize (Hok code Hin).
    unfold response_ok in Hok. lia.
  - intros acc0 c t Hc. unfold record_outcome, response_ok. simpl.
    destruct (Z.leb_spec 400 c); [|lia].
    destruct (Z.ltb_spec c 600); [done|lia].
  - done.
Qed.

Lemma error_statuses_excluded_witness :
  ∃ r w',
    run_performance_test id 2 sample_tester 3 false sample_world = Ret r w'
    ∧ r = aggregate id sample_tester 3
            (tally (measured id (Z.to_nat 3) (clock sample_world)
                      (net sample_world))).
Proof.
  apply (proj1 (error_statuses_excluded id 2 sample_tester 3 false sample_world));
    [reflexivity| |done].
  exists {[ 0%nat := 1%nat; 1%nat := 1%nat; 2%nat := 1%nat ]}.
  by vm_compute.
Defined.

(** The three iterations of the sample run: the one answered 404 is left
    out of the durations and of the status codes. *)
Example sample_run_tally :
  measured id 3 (clock sample_world) (net sample_world)
  = [(Some 200, 2%Q); (Some 600, 4%Q); (Some 404, 1%Q)]
  ∧ tally (measured id 3 (clock sample_world) (net sample_world))
    = ([2%Q; 4%Q], [200; 600]).
Proof. split; reflexivity. Qed.

(** C10 as stated does not hold for every status code of 400 or more: a
    response with status 600 is truthy, so it is counted and enters the
    histogram (the 404 of the same run does not). *)
Lemma status_600_counted :
  match run_performance_test id 2 sample_tester 3 false sample_world with
  | Ret (StatsResult s) _ =>
      status_codes s = {[ 200 := 1%nat; 600 := 1%nat ]}
      ∧ successful_requests s = 2%nat
  | _ => False
  end.
Proof. vm_compute. split; reflexivity. Qed.

(** * The requests of a run *)

Lemma new_tester_fields self w tester w' :
  new_tester self w = Ret tester w' →
  url tester = url self ∧ method tester = Str.upper (method self).
Proof.
  unfold new_tester, APITester_init. munfold.
  repeat match goal with
         | |- match ?o with _ => _ end = _ → _ => destruct o; try done
         end.
  by intros [= <- _].
Qed.

Lemma sequential_loop_sent fl fuel self n :
  dict_fields self = true →
  ∀ acc w, well_formed fuel self w →
  ∃ acc' w' reqs, sequential_loop fl fuel self n acc w = Ret acc' w'
    ∧ sent w' = sent w ++ reqs
    ∧ length reqs = n
    ∧ Forall (request_of self) reqs.
Proof.
  intros Hd. induction n as [|n IH]; intros acc w Hwf.
  - exists acc, w, []. by rewrite app_nil_r.
  - destruct Hwf as (rk & Hrk & Hh & Hb & Hp).
    destruct (new_tester_ranked rk fuel self w Hd Hrk Hh Hb Hp)
      as (tester & rk1 & w1 & E1 & S1 & R1 & Fh & Fb & Fp & I1).
    destruct (new_tester_fields _ _ _ _ E1) as [Hu Hm].
    destruct (send_request_spec fl rk1 fuel tester w1 R1 Fh Fb Fp)
      as (r & w2 & req & E2 & R2 & Hs & Hrm & Hru & Hrj & _).
    destruct (IH (record_outcome acc r) w2) as (acc' & w3 & reqs & E3 & Hs3 & Hl & Hf).
    { exists rk1. repeat split; [done|by eapply fits_subseteq..]. }
    exists acc', w3, (req :: reqs). split; [|split; [|split]].
    + simpl. munfold. by rewrite E1, E2.
    + rewrite Hs3, Hs. destruct I1 as (_ & _ & ->). by rewrite <- app_assoc.
    + simpl. by rewrite Hl.
    + constructor; [|done]. unfold request_of. by rewrite Hru, Hrm, Hrj, Hu, Hm.
Qed.

(** X15.  On an acyclic store a run of [n] iterations (in concurrent mode
    for [n] of at least 1) hands exactly [n] requests to the transport,
    whether or not they succeed: each to the template's URL, with its method
    in upper case, and with a JSON body exactly when that method is POST,
    PUT or PATCH.  The method is a string of code points up to 255 whose
    capitals are in that range too: it holds neither the micro sign nor y
    with diaeresis. *)
Theorem run_sends_n_requests fl fuel self n concurrent w :
  Str.upper_exact (method self) = true →
  dict_fields self = true → well_formed fuel self w →
  (concurrent = true → 0 < n) →
  ∃ r w' reqs, run_performance_test fl fuel self n concurrent w = Ret r w'
    ∧ sent w' = sent w ++ reqs
    ∧ length reqs = Z.to_nat n
    ∧ Forall (request_of self) reqs.
Proof.
  intros _ Hd Hwf Hn.
  destruct (sequential_loop_sent fl fuel self (Z.to_nat n) Hd ([], []) w Hwf)
    as (acc & w' & reqs & E & Hs & Hl & Hf).
  exists (aggregate fl self n acc), w', reqs. split; [|done].
  unfold run_performance_test. destruct concurrent.
  - munfold.
    rewrite concurrent_branch_sequential by (specialize (Hn eq_refl); lia).
    munfold. by rewrite E.
  - munfold. by rewrite E.
Qed.

Lemma run_sends_n_requests_witness :
  ∃ r w' reqs,
    run_performance_test (λ q, q) 1 sample_tester 3 false sample_world = Ret r w'
    ∧ sent w' = sent sample_world ++ reqs
    ∧ length reqs = Z.to_nat 3
    ∧ Forall (request_of sample_tester) reqs.
Proof.
  apply run_sends_n_requests; [reflexivity|reflexivity| |done].
  exists {[ 0%nat := 1%nat; 1%nat := 1%nat; 2%nat := 1%nat ]}.
  by vm_compute.
Defined.

(** * The template during a run *)

(** Expansion of a dict leaves alone every other dict that is ranked at
    least as high. *)
Lemma process_dynamic_content_dict_footprint rk n c w v' w' :
  ranked rk (heap w) = true → fits rk n (VDict c) = true →
  process_dynamic_content n (VDict c) w = Ret v' w' →
  ∀ a ra rc, rk !! a = Some ra → rk !! c = Some rc → (rc ≤ ra)%nat → a ≠ c →
             heap w' !! a = heap w !! a.
Proof.
  intros Hrk Hn E a ra rc Ha Hc Hle Hne.
  destruct n as [|n]; [done|]. cbn [fits] in Hn. rewrite Hc in Hn.
  apply Nat.leb_le in Hn.
  destruct (ranked_lookup _ _ _ _ Hrk Hc) as (d & r & Hd & -> & _ & Hfit).
  cbn [process_dynamic_content] in E. unfold deref in E. munfold.
  unfold dict in *. rewrite Hd in E.
  assert (∀ w0 w2, ranked rk (heap w0) = true →
            forM d (λ kv, v ← process_dynamic_content n kv.2;
                          setitem c kv.1 v) w0 = Ret tt w2 →
            heap w2 !! a = heap w0 !! a) as Hl.
  { clear E Hd. induction Hfit as [|kv d Hkv _ IHd]; intros w0 w2 Hrk0 E.
    - by injection E as <-.
    - assert (fits rk n kv.2 = true) as Hkvn
        by (eapply fits_le; [|exact Hkv]; lia).
      destruct (process_dynamic_content_terminates rk n kv.2 w0 Hrk0 Hkvn)
        as (x' & w1 & E1 & Hrk1 & Hx' & _).
      destruct (setitem_ranked rk c r kv.1 x' w1 Hrk1 Hc (Hx' _ Hkv))
        as (w3 & E3 & Hrk3 & _).
      simpl in E. munfold. rewrite E1 in E. munfold. rewrite E3 in E.
      rewrite (IHd w3 w2 Hrk3 E).
      apply setitem_heap in E3 as (d1 & _ & ->).
      rewrite lookup_insert_ne by done.
      eapply (process_dynamic_content_footprint rk n kv.2 w0 x' w1 r); eauto with lia. }
  destruct (forM d _ w) as [[] w3| |] eqn:E2; try done.
  injection E as <- <-. by eapply Hl.
Qed.

Lemma alloc_heap d w v w' :
  alloc d w = Ret v w' →
  ∃ a', v = VDict a' ∧ heap w !! a' = None ∧ heap w' = <[a' := d]> (heap w).
Proof.
  unfold alloc. intros [= <- <-]. eexists. split; [done|]. split; [|done].
  apply not_elem_of_dom, is_fresh.
Qed.

Lemma lookup_insert_kept (h : gmap loc dict) a' d x :
  h !! a' = None → is_Some (h !! x) → <[a' := d]> h !! x = h !! x.
Proof.
  intros Hn [y Hy]. rewrite lookup_insert_ne; [done|]. intros ->. congruence.
Qed.

(** [copy] gives a new dict of the rank of the original and leaves the
    dicts of the store as they are. *)
Lemma copy_level rk R a w :
  ranked rk (heap w) = true → rk !! a = Some R →
  ∃ a' rk' w', copy (VDict a) w = Ret (VDict a') w'
    ∧ rk ⊆ rk' ∧ rk' !! a' = Some R ∧ ranked rk' (heap w') = true
    ∧ heap w !! a' = None
    ∧ (∀ x, is_Some (heap w !! x) → heap w' !! x = heap w !! x)
    ∧ same_io w w'.
Proof.
  intros Hrk Ha.
  destruct (ranked_lookup _ _ _ _ Hrk Ha) as (d & r & Hd & -> & Hdist & Hf).
  destruct (alloc_ranked rk r d w Hrk Hdist Hf)
    as (a' & rk' & w' & E & Hsub & Ha' & Hrk' & _ & Hio).
  destruct (alloc_heap _ _ _ _ E) as (a1 & [= <-] & Hfresh & Hheap).
  exists a', rk', w'. split.
  { simpl. unfold deref. munfold. unfold dict in *. by rewrite Hd. }
  repeat split; try done; try apply Hio.
  intros x Hx. rewrite Hheap. by apply lookup_insert_kept.
Qed.

(** [x or {}] on a dict gives that dict or a new empty one, ranked no higher. *)
Lemma or_empty_dict_level rk R ra a w :
  ranked rk (heap w) = true → rk !! a = Some ra → (ra ≤ R)%nat →
  ∃ a' ra' rk' w', or_empty_dict (VDict a) w = Ret (VDict a') w'
    ∧ rk ⊆ rk' ∧ rk' !! a' = Some ra' ∧ (ra' ≤ R)%nat
    ∧ ranked rk' (heap w') = true
    ∧ (a' = a ∨ heap w !! a' = None)
    ∧ (∀ x, is_Some (heap w !! x) → heap w' !! x = heap w !! x)
    ∧ same_io w w'.
Proof.
  intros Hrk Ha Hle.
  destruct (ranked_lookup _ _ _ _ Hrk Ha) as (d & r & Hd & -> & Hdist & Hf).
  unfold or_empty_dict, truthy, deref. munfold. unfold dict in *. rewrite Hd.
  destruct d as [|kv d].
  - destruct (alloc_ranked rk 0 [] w Hrk eq_refl)
      as (a' & rk' & w' & E & Hsub & Ha' & Hrk' & _ & Hio); [constructor|].
    destruct (alloc_heap _ _ _ _ E) as (a1 & [= <-] & Hfresh & Hheap).
    exists a', 1%nat, rk', w'. repeat split; try done; try apply Hio; try lia.
    + by right.
    + intros x Hx. rewrite Hheap. by apply lookup_insert_kept.
  - exists a, (S r), rk, w. repeat split; try done. by left.
Qed.

Lemma kept_refl w : kept w w.
Proof. by intros x _. Qed.

Lemma kept_trans w1 w2 w3 : kept w1 w2 → kept w2 w3 → kept w1 w3.
Proof.
  intros H1 H2 x Hx. rewrite <- (H1 x Hx). apply H2. by rewrite (H1 x Hx).
Qed.

Lemma kept_none w w' t : kept w w' → heap w' !! t = None → heap w !! t = None.
Proof.
  intros H Hn. destruct (heap w !! t) as [d|] eqn:E; [|done].
  rewrite (H t) in Hn by (by rewrite E). congruence.
Qed.

(** The tester of one iteration: its three dicts are new, and ranked no
    higher than the template's. *)
Lemma new_tester_level rk R self ah ab ap w :
  headers self = VDict ah → body self = VDict ab → params self = VDict ap →
  ranked rk (heap w) = true →
  rk !! ah = Some R → rk !! ab = Some R → rk !! ap = Some R →
  ∃ th tb tp rk' w',
    new_tester self w
    = Ret (Tester (url self) (Str.upper (method self))
                  (VDict th) (VDict tb) (VDict tp) None 0%Q) w'
    ∧ rk ⊆ rk' ∧ ranked rk' (heap w') = true ∧ kept w w' ∧ same_io w w'
    ∧ Forall (λ t, heap w !! t = None ∧ ∃ r, rk' !! t = Some r ∧ (r ≤ R)%nat)
             [th; tb; tp].
Proof.
  intros Eh Eb Ep Hrk Hh Hb Hp.
  destruct (copy_level rk R ah w Hrk Hh)
    as (ch & rk1 & w1 & E1 & S1 & C1 & R1 & N1 & K1 & I1).
  destruct (copy_level rk1 R ab w1 R1 (lookup_weaken _ _ _ _ Hb S1))
    as (cb & rk2 & w2 & E2 & S2 & C2 & R2 & N2 & K2 & I2).
  destruct (copy_level rk2 R ap w2 R2
              (lookup_weaken _ _ _ _ (lookup_weaken _ _ _ _ Hp S1) S2))
    as (cp & rk3 & w3 & E3 & S3 & C3 & R3 & N3 & K3 & I3).
  destruct (or_empty_dict_level rk3 R R ch w3 R3
              (lookup_weaken _ _ _ _ (lookup_weaken _ _ _ _ C1 S2) S3) (le_n _))
    as (th & rh & rk4 & w4 & E4 & S4 & C4 & L4 & R4 & F4 & K4 & I4).
  destruct (or_empty_dict_level rk4 R R cb w4 R4
              (lookup_weaken _ _ _ _ (lookup_weaken _ _ _ _ C2 S3) S4) (le_n _))
    as (tb & rb & rk5 & w5 & E5 & S5 & C5 & L5 & R5 & F5 & K5 & I5).
  destruct (or_empty_dict_level rk5 R R cp w5 R5
              (lookup_weaken _ _ _ _ (lookup_weaken _ _ _ _ C3 S4) S5) (le_n _))
    as (tp & rp & rk6 & w6 & E6 & S6 & C6 & L6 & R6 & F6 & K6 & I6).
  assert (kept w w2) as K02 by eauto using kept_trans.
  assert (kept w w3) as K03 by eauto using kept_trans.
  assert (kept w w4) as K04 by eauto using kept_trans.
  assert (kept w w5) as K05 by eauto using kept_trans.
  assert (kept w w6) as K06 by eauto using kept_trans.
  exists th, tb, tp, rk6, w6. split.
  { unfold new_tester, APITester_init. rewrite Eh, Eb, Ep. munfold.
    rewrite E1, E2, E3. munfold. by rewrite E4, E5, E6. }
  split; [by repeat (etrans; [eassumption|])|].
  split; [done|]. split; [done|].
  split; [eauto 10 using same_io_trans|].
  repeat constructor.
  - destruct F4 as [->|F4]; [done|]. exact (kept_none _ _ _ K03 F4).
  - exists rh. split; [|done].
    by apply (lookup_weaken _ _ _ _ (lookup_weaken _ _ _ _ C4 S5) S6).
  - destruct F5 as [->|F5];
      [exact (kept_none _ _ _ K1 N2)|exact (kept_none _ _ _ K04 F5)].
  - exists rb. split; [|done]. by apply (lookup_weaken _ _ _ _ C5 S6).
  - destruct F6 as [->|F6];
      [exact (kept_none _ _ _ K02 N3)|exact (kept_none _ _ _ K05 F6)].
  - by exists rp.
Qed.

Lemma snap_world fuel v w j w' : snap fuel v w = Ret j w' → w' = w.
Proof. unfold snap. destruct (snapshot _ _ _); [|done]. by intros [= _ <-]. Qed.

Lemma snap_exc fuel v w e w' : snap fuel v w ≠ Exc e w'.
Proof. unfold snap. by destruct (snapshot _ _ _). Qed.

Lemma time_time_heap w :
  ∃ t w', time_time w = Ret t w' ∧ heap w' = heap w.
Proof. unfold time_time. destruct (clock w); by eexists _, _. Qed.

Lemma requests_request_heap req w :
  match requests_request req w with
  | Ret _ w' | Exc _ w' => heap w' = heap w
  | Abort => False
  end.
Proof. unfold requests_request. by destruct (net w) as [|[] ?]. Qed.

(** After the expansion of its fields [send_request] leaves the store alone. *)
Lemma send_request_heap fl fuel self w r w' :
  send_request fl fuel self w = Ret r w' →
  ∃ t w1, prepare_request_data fuel self w = Ret t w1 ∧ heap w' = heap w1.
Proof.
  unfold send_request, try_except. munfold.
  destruct (prepare_request_data fuel self w) as [t1 w1| |]; [|done..].
  intros E. exists t1, w1. split; [done|].
  destruct (time_time_heap w1) as (t0 & w2 & E2 & <-). rewrite E2 in E.
  destruct (snap fuel (headers t1) w2) as [h w3|e w3|] eqn:S1;
    [apply snap_world in S1 as ->|by apply snap_exc in S1|done].
  destruct (existsb (String.eqb (method t1)) ["POST"; "PUT"; "PATCH"]).
  - munfold.
    destruct (snap fuel (body t1) w2) as [b w4|e w4|] eqn:S2;
      [apply snap_world in S2 as ->|by apply snap_exc in S2|done].
    destruct (snap fuel (params t1) w2) as [p w5|e w5|] eqn:S3;
      [apply snap_world in S3 as ->|by apply snap_exc in S3|done].
    pose proof (requests_request_heap (Request (method t1) (url t1) h (Some b) p) w2) as Hr.
    destruct (requests_request _ w2) as [s w6|e w6|]; [| |done].
    + destruct (time_time_heap w6) as (now & w7 & E7 & H7). rewrite E7 in E.
      injection E as _ <-. congruence.
    + destruct (time_time_heap w6) as (now & w7 & E7 & H7). rewrite E7 in E.
      injection E as _ <-. congruence.
  - destruct (snap fuel (params t1) w2) as [p w5|e w5|] eqn:S3;
      [apply snap_world in S3 as ->|by apply snap_exc in S3|done].
    pose proof (requests_request_heap (Request (method t1) (url t1) h None p) w2) as Hr.
    destruct (requests_request _ w2) as [s w6|e w6|]; [| |done].
    + destruct (time_time_heap w6) as (now & w7 & E7 & H7). rewrite E7 in E.
      injection E as _ <-. congruence.
    + destruct (time_time_heap w6) as (now & w7 & E7 & H7). rewrite E7 in E.
      injection E as _ <-. congruence.
Qed.

Lemma fits_dict_level rk fuel R t r :
  rk !! t = Some r → (r ≤ R)%nat → (R ≤ fuel)%nat → (0 < r)%nat →
  fits rk fuel (VDict t) = true.
Proof.
  intros Ht Hr HR Hpos. destruct fuel as [|n]; [lia|].
  cbn [fits]. rewrite Ht. apply Nat.leb_le. lia.
Qed.

Lemma ranked_pos rk h a r : ranked rk h = true → rk !! a = Some r → (0 < r)%nat.
Proof. intros Hrk Ha. destruct (ranked_lookup _ _ _ _ Hrk Ha) as (?&?&?&->&?). lia. Qed.

(** Expansion of the three dicts of a tester leaves alone every other dict
    ranked at least as high as they are. *)
Lemma prepare_request_data_level rk R fuel self th tb tp w :
  headers self = VDict th → body self = VDict tb → params self = VDict tp →
  ranked rk (heap w) = true → (R ≤ fuel)%nat →
  Forall (λ t, ∃ r, rk !! t = Some r ∧ (r ≤ R)%nat) [th; tb; tp] →
  ∃ t w1, prepare_request_data fuel self w = Ret t w1
    ∧ ranked rk (heap w1) = true
    ∧ ∀ a ra, rk !! a = Some ra → (R ≤ ra)%nat →
              a ≠ th → a ≠ tb → a ≠ tp → heap w1 !! a = heap w !! a.
Proof.
  intros Eh Eb Ep Hrk HR Hl.
  apply Forall_cons_1 in Hl as [(rh & Hh & Lh) Hl].
  apply Forall_cons_1 in Hl as [(rb & Hb & Lb) Hl].
  apply Forall_cons_1 in Hl as [(rp & Hp & Lp) _].
  pose proof (fits_dict_level rk fuel R th rh Hh Lh HR (ranked_pos _ _ _ _ Hrk Hh)) as Fh.
  pose proof (fits_dict_level rk fuel R tb rb Hb Lb HR (ranked_pos _ _ _ _ Hrk Hb)) as Fb.
  pose proof (fits_dict_level rk fuel R tp rp Hp Lp HR (ranked_pos _ _ _ _ Hrk Hp)) as Fp.
  destruct (process_dynamic_content_terminates rk fuel _ w Hrk Fh)
    as (h & w1 & E1 & R1 & _ & _).
  destruct (process_dynamic_content_terminates rk fuel _ w1 R1 Fb)
    as (b & w2 & E2 & R2 & _ & _).
  destruct (process_dynamic_content_terminates rk fuel _ w2 R2 Fp)
    as (p & w3 & E3 & R3 & _ & _).
  eexists _, w3. split.
  { unfold prepare_request_data. rewrite Eh, Eb, Ep. munfold.
    by rewrite E1, E2, E3. }
  split; [done|]. intros a ra Ha Hra Nh Nb Np.
  rewrite (process_dynamic_content_dict_footprint rk fuel tp w2 p w3 R2 Fp E3
             a ra rp Ha Hp ltac:(lia) Np).
  rewrite (process_dynamic_content_dict_footprint rk fuel tb w1 b w2 R1 Fb E2
             a ra rb Ha Hb ltac:(lia) Nb).
  by rewrite (process_dynamic_content_dict_footprint rk fuel th w h w1 Hrk Fh E1
             a ra rh Ha Hh ltac:(lia) Nh).
Qed.

Section TemplateKept.
Variable fl : Q → Q.
Variables (rk0 : gmap loc nat) (R fuel : nat) (self : APITester) (ah ab ap : loc).
Hypothesis Eh : headers self = VDict ah.
Hypothesis Eb : body self = VDict ab.
Hypothesis Ep : params self = VDict ap.
Hypothesis HR : (R ≤ fuel)%nat.

(** One iteration leaves alone every dict of the store that is ranked at
    least as high as the template's. *)
Lemma iteration_level rk w :
  ranked rk (heap w) = true →
  rk !! ah = Some R → rk !! ab = Some R → rk !! ap = Some R →
  ∃ tester w1 r w' rk',
    new_tester self w = Ret tester w1
    ∧ send_request fl fuel tester w1 = Ret r w'
    ∧ rk ⊆ rk' ∧ ranked rk' (heap w') = true
    ∧ ∀ a ra, is_Some (heap w !! a) → rk !! a = Some ra → (R ≤ ra)%nat →
              heap w' !! a = heap w !! a.
Proof using Eh Eb Ep HR.
  intros Hrk Hh Hb Hp.
  destruct (new_tester_level rk R self ah ab ap w Eh Eb Ep Hrk Hh Hb Hp)
    as (th & tb & tp & rk1 & w1 & E1 & S1 & R1 & K1 & _ & Hnew).
  set (tester := Tester (url self) (Str.upper (method self))
                        (VDict th) (VDict tb) (VDict tp) None 0%Q) in *.
  destruct (prepare_request_data_level rk1 R fuel tester th tb tp w1
              eq_refl eq_refl eq_refl R1 HR) as (t & w2 & E2 & R2 & Hfoot).
  { eapply Forall_impl; [exact Hnew|]. by intros x [_ ?]. }
  apply Forall_cons_1 in Hnew as [[Nh (rh & Hth & Lh)] Hnew].
  apply Forall_cons_1 in Hnew as [[Nb (rb & Htb & Lb)] Hnew].
  apply Forall_cons_1 in Hnew as [[Np (rp & Htp & Lp)] _].
  destruct (send_request_spec fl rk1 fuel tester w1 R1)
    as (r & w' & req & E3 & R3 & _).
  { exact (fits_dict_level rk1 fuel R th rh Hth Lh HR (ranked_pos _ _ _ _ R1 Hth)). }
  { exact (fits_dict_level rk1 fuel R tb rb Htb Lb HR (ranked_pos _ _ _ _ R1 Htb)). }
  { exact (fits_dict_level rk1 fuel R tp rp Htp Lp HR (ranked_pos _ _ _ _ R1 Htp)). }
  destruct (send_request_heap _ _ _ _ _ _ E3) as (t' & w2' & E2' & Hheap).
  rewrite E2 in E2'. injection E2' as <- <-.
  exists tester, w1, r, w', rk1. repeat split; try done.
  intros a ra Ha Hra Hle. rewrite Hheap, <- (K1 a Ha).
  apply (Hfoot a ra); [by eapply lookup_weaken|done|..].
  all: intros ->; destruct Ha as [d Hd]; congruence.
Qed.

Lemma sequential_loop_level n :
  ∀ rk acc w,
    ranked rk (heap w) = true →
    rk !! ah = Some R → rk !! ab = Some R → rk !! ap = Some R →
    ∃ acc' w' rk',
      sequential_loop fl fuel self n acc w = Ret acc' w'
      ∧ rk ⊆ rk' ∧ ranked rk' (heap w') = true
      ∧ ∀ a ra, is_Some (heap w !! a) → rk !! a = Some ra → (R ≤ ra)%nat →
                heap w' !! a = heap w !! a.
Proof using Eh Eb Ep HR.
  induction n as [|n IH]; intros rk acc w Hrk Hh Hb Hp.
  - by exists acc, w, rk.
  - destruct (iteration_level rk w Hrk Hh Hb Hp)
      as (tester & w1 & r & w2 & rk1 & E1 & E2 & S1 & R1 & K1).
    destruct (IH rk1 (record_outcome acc r) w2 R1)
      as (acc' & w3 & rk2 & E3 & S2 & R2 & K2); [by eapply lookup_weaken..|].
    exists acc', w3, rk2. split; [|split; [by etrans|split; [done|]]].
    + simpl. munfold. by rewrite E1, E2.
    + intros a ra Ha Hra Hle. rewrite <- (K1 a ra Ha Hra Hle).
      apply (K2 a ra); [|by eapply lookup_weaken|done].
      by rewrite (K1 a ra Ha Hra Hle).
Qed.

End TemplateKept.

(** X16.  When the three dicts of the template are ranked alike (none is
    nested in another), a run leaves each of them exactly as it was: the
    shallow copies protect the top level, so a marker that is a direct value
    of headers, body or params is still a marker after the run; only dicts
    nested below them are written to. *)
Theorem template_top_level_kept fl rk R fuel self ah ab ap n concurrent w :
  headers self = VDict ah → body self = VDict ab → params self = VDict ap →
  ranked rk (heap w) = true →
  rk !! ah = Some R → rk !! ab = Some R → rk !! ap = Some R →
  (R ≤ fuel)%nat →
  (concurrent = true → 0 < n) →
  ∃ r w', run_performance_test fl fuel self n concurrent w = Ret r w'
    ∧ heap w' !! ah = heap w !! ah
    ∧ heap w' !! ab = heap w !! ab
    ∧ heap w' !! ap = heap w !! ap.
Proof.
  intros Eh Eb Ep Hrk Hh Hb Hp HR Hn.
  destruct (sequential_loop_level fl R fuel self ah ab ap Eh Eb Ep HR
              (Z.to_nat n) rk ([], []) w Hrk Hh Hb Hp)
    as (acc & w' & rk' & E & _ & _ & K).
  exists (aggregate fl self n acc), w'. split.
  { unfold run_performance_test. destruct concurrent.
    - munfold.
      rewrite concurrent_branch_sequential by (specialize (Hn eq_refl); lia).
      munfold. by rewrite E.
    - munfold. by rewrite E. }
  destruct (ranked_lookup _ _ _ _ Hrk Hh) as (dh & _ & Hdh & _).
  destruct (ranked_lookup _ _ _ _ Hrk Hb) as (db & _ & Hdb & _).
  destruct (ranked_lookup _ _ _ _ Hrk Hp) as (dp & _ & Hdp & _).
  repeat split; eapply K; eauto.
Qed.

Lemma template_top_level_kept_witness :
  ∃ r w', run_performance_test (λ q, q) 3 nested_tester 2 false nested_world
          = Ret r w'
    ∧ heap w' !! 0%nat = heap nested_world !! 0%nat
    ∧ heap w' !! 1%nat = heap nested_world !! 1%nat
    ∧ heap w' !! 2%nat = heap nested_world !! 2%nat.
Proof.
  apply (template_top_level_kept (λ q, q)
           {[ 0%nat := 3%nat; 1%nat := 3%nat; 2%nat := 3%nat; 3%nat := 2%nat ]}
           3%nat 3%nat nested_tester 0%nat 1%nat 2%nat 2 false nested_world);
    try reflexivity; try done; try lia; by vm_compute.
Defined.

(** * Configurations *)

(** X17.  [load_config_file] raises nothing but [ValueError], and a
    document it returns has ["routes" in] it.  For a JSON object: one with
    the key [routes] is returned as it is; one with [url] but not [routes]
    is wrapped as the only route; one with neither makes it raise, and the
    [ValueError] raised inside the [try] block is itself caught and
    wrapped, so the message begins with ["Error loading config file: "].  A
    document that is not a container (a number, a boolean, null) makes it
    raise as well, and a failure of the JSON parser is reported with the
    path. *)
Theorem load_config_file_routes :
  (∀ path f, match load_config_file path f with
             | inr config => py_in "routes" config = inr true
             | inl e => ∃ msg, e = ValueError msg
             end)
  ∧ (∀ path d, py_in "routes" (JDict d) = inr true →
               load_config_file path (FileDocument (JDict d)) = inr (JDict d))
  ∧ (∀ path d, py_in "routes" (JDict d) = inr false →
               py_in "url" (JDict d) = inr true →
               load_config_file path (FileDocument (JDict d))
               = inr (JDict [("routes", JList [JDict d])]))
  ∧ (∀ path d, py_in "routes" (JDict d) = inr false →
               py_in "url" (JDict d) = inr false →
               load_config_file path (FileDocument (JDict d))
               = inl (ValueError ("Error loading config file: "
                        +:+ "Config file must contain 'url' field or 'routes' array")))
  ∧ (∀ path config,
       match config with JDict _ | JList _ | JStr _ => False | _ => True end →
       ∃ msg, load_config_file path (FileDocument config)
              = inl (ValueError ("Error loading config file: " +:+ msg)))
  ∧ (∀ path msg, load_config_file path (FileRaises (JSONDecodeError msg))
                 = inl (ValueError ("Invalid JSON format in " +:+ path))).
Proof.
  split; [|split; [|split; [|split; [|split]]]].
  - intros path [config|[msg|msg]]; unfold load_config_file, load_config_body;
      [|by eexists..].
    destruct (py_in "routes" config) as [e|[]] eqn:E1; [by eexists|done|].
    destruct (py_in "url" config) as [e|[]] eqn:E2; by eexists.
  - intros path d H. unfold load_config_file, load_config_body. by rewrite H.
  - intros path d H1 H2. unfold load_config_file, load_config_body.
    by rewrite H1, H2.
  - intros path d H1 H2. unfold load_config_file, load_config_body.
    by rewrite H1, H2.
  - intros path config H. unfold load_config_file, load_config_body.
    destruct config; try done; by eexists.
  - done.
Qed.

(** ** Reversal *)

Lemma append_nil_r s : s +:+ "" = s.
Proof. induction s as [|a s IH]; [done|]. by rewrite append_cons, IH. Qed.

Lemma rev_app_rev_app s t u :
  String.rev_app (String.rev_app s t) u = String.rev_app t (s +:+ u).
Proof.
  revert t u. induction s as [|a s IH]; intros t u; [done|].
  cbn [String.rev_app]. by rewrite IH, append_cons.
Qed.

Lemma rev_involutive s : String.rev (String.rev s) = s.
Proof.
  unfold String.rev. rewrite rev_app_rev_app. cbn [String.rev_app].
  apply append_nil_r.
Qed.

Lemma rev_app_app s u t :
  String.rev_app (s +:+ u) t = String.rev_app u (String.rev_app s t).
Proof.
  revert t. induction s as [|a s IH]; intros t; [done|].
  rewrite append_cons. cbn [String.rev_app]. by rewrite IH.
Qed.

Lemma rev_snoc s a :
  String.rev (s +:+ String a "") = String a (String.rev s).
Proof. unfold String.rev. by rewrite rev_app_app. Qed.

Lemma lstrip_chars_head c s :
  Str.startswith (lstrip_chars (String c "") s) (String c "") = false.
Proof.
  induction s as [|a s IH]; [done|]. cbn [lstrip_chars Str.contains].
  rewrite Ascii.eqb_sym.
  destruct (Ascii.eqb a c) eqn:E; [done|]. cbn [Str.startswith]. by rewrite E.
Qed.

(** X18.  The URL of a route: an empty base URL, or a route URL that begins
    with [http], leaves the route URL as it is.  Otherwise base and route
    are joined by exactly one slash: the base part does not end with a
    slash, the route part does not begin with one, and one slash more at the
    end of the base or at the start of the route changes nothing. *)
Theorem route_url_slashes :
  (∀ url, route_url "" url = url)
  ∧ (∀ base_url url, Str.startswith url "http" = true →
                     route_url base_url url = url)
  ∧ (∀ base_url url,
       base_url ≠ "" → Str.startswith url "http" = false →
       ∃ b u, route_url base_url url = b +:+ "/" +:+ u
              ∧ Str.endswith b "/" = false ∧ Str.startswith u "/" = false
              ∧ route_url (base_url +:+ "/") url = b +:+ "/" +:+ u
              ∧ route_url base_url ("/" +:+ url) = b +:+ "/" +:+ u).
Proof.
  split; [done|]. split.
  - intros base_url url H. unfold route_url. rewrite H.
    by rewrite andb_false_r.
  - intros base_url url Hb Hu.
    exists (rstrip_chars "/" base_url), (lstrip_chars "/" url).
    assert (String.eqb base_url "" = false) as Eb by by apply String.eqb_neq.
    split; [|split; [|split; [|split]]].
    + unfold route_url. by rewrite Eb, Hu.
    + unfold Str.endswith, rstrip_chars. rewrite rev_involutive.
      apply lstrip_chars_head.
    + apply lstrip_chars_head.
    + unfold route_url. rewrite Hu.
      assert (String.eqb (base_url +:+ "/") "" = false) as ->.
      { apply String.eqb_neq. by destruct base_url. }
      cbn [negb andb]. unfold rstrip_chars. by rewrite rev_snoc.
    + unfold route_url. rewrite Eb. by cbn.
Qed.

Example route_url_samples :
  route_url "https://api.example.com/" "/users/{id}"
  = "https://api.example.com/users/{id}"
  ∧ route_url "https://api.example.com" "users" = "https://api.example.com/users"
  ∧ route_url "https://api.example.com" "httpbin/get" = "httpbin/get".
Proof. by vm_compute. Qed.

(** ** Merged headers *)

Lemma dict_get_dict_set k v d k' :
  dict_get (dict_set k v d) k'
  = if String.eqb k k' then Some v else dict_get d k'.
Proof.
  induction d as [|[k1 v1] d IH]; simpl.
  - done.
  - destruct (String.eqb_spec k1 k) as [->|Hne]; simpl.
    + by destruct (String.eqb k k').
    + rewrite IH. destruct (String.eqb_spec k k') as [->|]; [|done].
      by apply String.eqb_neq in Hne as ->.
Qed.

Lemma dict_get_notin k (d : dict) :
  existsb (String.eqb k) (keys d) = false → dict_get d k = None.
Proof.
  induction d as [|[k1 v1] d IH]; simpl; [done|].
  rewrite (String.eqb_sym k k1). destruct (String.eqb k1 k); [done|]. apply IH.
Qed.

(** X19.  In the headers of a route, [{**global_headers, **route_headers}],
    a key of the route's headers has the route's value and any other key has
    the global value: the route overrides the global headers.  The merged
    dict has distinct keys. *)
Theorem merge_dicts_lookup a b k :
  distinct (keys a) = true → distinct (keys b) = true →
  dict_get (merge_dicts a b) k
  = match dict_get b k with Some v => Some v | None => dict_get a k end
  ∧ distinct (keys (merge_dicts a b)) = true.
Proof.
  unfold merge_dicts. revert a. induction b as [|[k1 v1] b IH]; intros a Ha Hb.
  - done.
  - simpl in Hb. apply andb_prop in Hb as [Hk1 Hb].
    apply negb_true_iff in Hk1.
    destruct (IH (dict_set k1 v1 a) (distinct_dict_set _ _ _ Ha) Hb) as [H1 H2].
    split; [|done]. cbn [foldl]. simpl. rewrite H1, dict_get_dict_set.
    destruct (String.eqb_spec k1 k) as [->|Hne]; [|done].
    by rewrite (dict_get_notin _ _ Hk1).
Qed.

Lemma merge_dicts_lookup_witness :
  dict_get (merge_dicts [("User-Agent", VStr "API-Tester/1.0"); ("Accept", VStr "*/*")]
                        [("Accept", VStr "application/json")]) "Accept"
  = match dict_get [("Accept", VStr "application/json")] "Accept" with
    | Some v => Some v
    | None => dict_get [("User-Agent", VStr "API-Tester/1.0"); ("Accept", VStr "*/*")]
                       "Accept"
    end
  ∧ distinct (keys (merge_dicts
       [("User-Agent", VStr "API-Tester/1.0"); ("Accept", VStr "*/*")]
       [("Accept", VStr "application/json")])) = true.
Proof. apply merge_dicts_lookup; reflexivity. Defined.

(** * Round trips through the parameter syntax *)

Lemma digit_char_value d :
  0 ≤ d < 10 → Z.of_N (N_of_ascii (Str.digit_char d)) - 48 = d.
Proof.
  intros Hd. unfold Str.digit_char. rewrite N_ascii_embedding by lia. lia.
Qed.

Lemma digits_value_app s t a :
  Str.digits_value a (s +:+ t) = Str.digits_value (Str.digits_value a s) t.
Proof.
  revert a. induction s as [|c s IH]; intros a; [done|].
  rewrite append_cons. cbn [Str.digits_value]. apply IH.
Qed.

Lemma of_pos_go_numeral fuel :
  ∀ n acc, 0 ≤ n → (Z.to_nat n < fuel)%nat →
  ∃ s, Str.of_pos_go fuel n acc = s +:+ acc
       ∧ s ≠ ""
       ∧ ∀ a, Str.digits_value a s = a * 10 ^ Z.of_nat (String.length s) + n.
Proof.
  induction fuel as [|fuel IH]; intros n acc Hn Hf; [lia|].
  cbn [Str.of_pos_go]. destruct (Z.ltb_spec n 10) as [Hlt|Hge].
  - exists (String (Str.digit_char (n mod 10)) ""). split; [done|].
    split; [done|]. intros a. cbn [Str.digits_value String.length].
    rewrite digit_char_value by (apply Z.mod_pos_bound; lia).
    rewrite Z.mod_small by lia. change (Z.of_nat 1) with 1. lia.
  - destruct (IH (n / 10) (String (Str.digit_char (n mod 10)) acc))
      as (s & E & Hne & Hs).
    { apply Z.div_pos; lia. }
    { assert (n / 10 < n) by (apply Z.div_lt; lia).
      assert (0 ≤ n / 10) by (apply Z.div_pos; lia). lia. }
    exists (s +:+ String (Str.digit_char (n mod 10)) ""). split.
    + by rewrite E, app_assoc_str.
    + split; [by destruct s|].
      intros a. rewrite digits_value_app, Hs. cbn [Str.digits_value].
      rewrite digit_char_value by (apply Z.mod_pos_bound; lia).
      rewrite length_app_str. cbn [String.length].
      rewrite Nat2Z.inj_add, Z.pow_add_r by lia.
      change (10 ^ Z.of_nat 1) with 10.
      pose proof (Z.div_mod n 10 ltac:(lia)). lia.
Qed.

(** [int(str(n))] is [n], for a natural number [n]. *)
Lemma digits_value_of_Z n : 0 ≤ n → Str.digits_value 0 (Str.of_Z n) = n.
Proof.
  intros Hn. unfold Str.of_Z. destruct (Z.ltb_spec n 0); [lia|].
  destruct (of_pos_go_numeral (S (Z.to_nat n)) n "" Hn ltac:(lia))
    as (s & -> & _ & Hs).
  rewrite append_nil_r, Hs. lia.
Qed.

Lemma of_Z_nonempty n : 0 ≤ n → ∃ a s, Str.of_Z n = String a s.
Proof.
  intros Hn. unfold Str.of_Z. destruct (Z.ltb_spec n 0); [lia|].
  destruct (of_pos_go_numeral (S (Z.to_nat n)) n "" Hn ltac:(lia))
    as (s & -> & Hne & _).
  rewrite append_nil_r. destruct s as [|a s]; [done|by eexists _, _].
Qed.

Lemma lower_decimal s :
  Str.forallb_str Str.isdecimal_char s = true → Str.lower s = s.
Proof.
  induction s as [|a s IH]; [done|]. cbn [Str.forallb_str Str.lower].
  intros [Ha Hs]%andb_prop. by rewrite lower_of_decimal_char, IH.
Qed.

Lemma decimal_isdigit s :
  Str.forallb_str Str.isdecimal_char s = true →
  Str.forallb_str Str.isdigit_char s = true.
Proof.
  induction s as [|c r IH]; [done|]. cbn [Str.forallb_str].
  intros [Hc Hr]%andb_prop. unfold Str.isdigit_char at 1.
  by rewrite Hc, IH.
Qed.

Lemma take_app_length s t : Str.take (String.length s) (s +:+ t) = s.
Proof.
  induction s as [|a s IH]; [by destruct t|].
  rewrite append_cons. cbn [String.length Str.take]. by rewrite IH.
Qed.

Lemma slice_quoted s :
  Str.slice (dquote +:+ s +:+ dquote) (Some 1) (Some (-1)) = s.
Proof.
  unfold dquote. change (String "034" "" +:+ ?x) with (String "034" x).
  unfold Str.slice, Str.len, Str.clamp. cbn [from_option].
  change (1 <? 0) with false. change (-1 <? 0) with true. cbv iota.
  cbn [String.length]. rewrite length_app_str. cbn [String.length].
  replace (Z.to_nat (Z.min 1 _)) with 1%nat by lia. cbn [Str.drop].
  match goal with |- Str.take ?k _ = _ =>
    replace k with (String.length s) by lia end.
  apply take_app_length.
Qed.

(** X20.  What [str] writes for a boolean or a natural number is converted
    back to that value, and a string wrapped in double quotes is converted
    to the string itself, whatever it contains: wrapped in quotes, a text
    that reads as a number or a boolean stays a text. *)
Theorem parameter_round_trip :
  (∀ n w, 0 ≤ n → convert_value (Str.of_Z n) w = Ret (VInt n) w)
  ∧ (∀ w, convert_value "True" w = Ret (VBool true) w
          ∧ convert_value "False" w = Ret (VBool false) w)
  ∧ (∀ s w, convert_value (dquote +:+ s +:+ dquote) w = Ret (VStr s) w).
Proof.
  split; [|split; [done|]].
  - intros n w Hn. unfold convert_value.
    pose proof (of_Z_decimal n Hn) as Hd.
    destruct (of_Z_nonempty n Hn) as (a & s & E).
    rewrite (lower_decimal _ Hd).
    assert (Str.isdecimal (Str.of_Z n) = true) as Hdec
      by (unfold Str.isdecimal; by rewrite E, <- E).
    assert (Str.isdigit (Str.of_Z n) = true) as Hdig.
    { unfold Str.isdigit. rewrite E, <- E. by apply decimal_isdigit. }
    rewrite Hdec, Hdig, digits_value_of_Z by done.
    rewrite E in *. simpl in Hd. apply andb_prop in Hd as [Ha _].
    destruct a as [[] [] [] [] [] [] [] []]; try discriminate Ha; reflexivity.
  - intros s w. unfold convert_value.
    assert (Str.lower (dquote +:+ s +:+ dquote)
            = dquote +:+ Str.lower (s +:+ dquote)) as -> by done.
    assert (Str.isdigit (dquote +:+ s +:+ dquote) = false) as -> by done.
    assert (Str.startswith (dquote +:+ s +:+ dquote) dquote = true) as ->
      by apply startswith_app.
    assert (Str.endswith (dquote +:+ s +:+ dquote) dquote = true) as ->.
    { unfold Str.endswith. rewrite <- app_assoc_str. unfold dquote.
      rewrite rev_snoc. unfold String.rev at 2. cbn [String.rev_app].
      cbn [Str.startswith]. rewrite Ascii.eqb_refl.
      by destruct (String.rev _). }
    by rewrite slice_quoted.
Qed.

(** * The statistics of a run *)

(** ** Sorting *)

Lemma elem_of_insert_sorted x l y :
  y ∈ insert_sorted x l ↔ y = x ∨ y ∈ l.
Proof.
  induction l as [|z l IH]; simpl.
  - rewrite list_elem_of_singleton, elem_of_nil. tauto.
  - destruct (Qle_bool x z).
    + by rewrite elem_of_cons.
    + rewrite !elem_of_cons, IH. tauto.
Qed.

Lemma elem_of_sorted l y : y ∈ sorted l ↔ y ∈ l.
Proof.
  induction l as [|x l IH]; [done|]. unfold sorted in *. simpl.
  by rewrite elem_of_insert_sorted, elem_of_cons, IH.
Qed.

Lemma length_insert_sorted x l : length (insert_sorted x l) = S (length l).
Proof.
  induction l as [|z l IH]; simpl; [done|].
  destruct (Qle_bool x z); simpl; [done|]. by rewrite IH.
Qed.

Lemma length_sorted l : length (sorted l) = length l.
Proof.
  induction l as [|x l IH]; [done|]. unfold sorted in *. simpl.
  by rewrite length_insert_sorted, IH.
Qed.

Lemma nth_elem_of (l : list Q) i : (i < length l)%nat → nth i l 0%Q ∈ l.
Proof. intros H. apply list_elem_of_In, nth_In, H. Qed.

(** ** The median *)

Section Median.
Variable fl : Q → Q.
Hypothesis fl_mono : ∀ x y, (x <= y)%Q → (fl x <= fl y)%Q.
Hypothesis fl_double : ∀ x, (fl (2 * fl x) == 2 * fl x)%Q.
Hypothesis fl_half : ∀ x, (fl (fl x / 2) == fl x / 2)%Q.

Lemma median_bounds lo hi ylo yhi l :
  lo = fl ylo → hi = fl yhi → l ≠ [] →
  Forall (λ d, (lo <= d)%Q ∧ (d <= hi)%Q) l →
  (lo <= median fl l)%Q ∧ (median fl l <= hi)%Q.
Proof using fl_mono fl_double fl_half.
  intros Hlo Hhi Hne Hl. unfold median.
  assert (Forall (λ d, (lo <= d)%Q ∧ (d <= hi)%Q) (sorted l)) as Hs.
  { rewrite Forall_forall in Hl. apply Forall_forall. intros y Hy.
    apply Hl. by apply elem_of_sorted. }
  rewrite Forall_forall in Hs.
  assert (0 < length (sorted l))%nat as Hpos.
  { rewrite length_sorted. destruct l; [done|simpl; lia]. }
  destruct (Nat.even (length (sorted l))) eqn:Ev.
  - assert (2 ≤ length (sorted l))%nat as H2.
    { destruct (length (sorted l)) as [|[|k]]; [lia|done|lia]. }
    assert (length (sorted l) / 2 < length (sorted l))%nat as Hi
      by (apply Nat.div_lt; lia).
    destruct (Hs _ (nth_elem_of (sorted l) (length (sorted l) / 2 - 1) ltac:(lia)))
      as [Ha1 Ha2].
    destruct (Hs _ (nth_elem_of (sorted l) (length (sorted l) / 2) Hi))
      as [Hb1 Hb2].
    set (a := nth (length (sorted l) / 2 - 1) (sorted l) 0%Q) in *.
    set (b := nth (length (sorted l) / 2) (sorted l) 0%Q) in *.
    rewrite fl_half.
    assert (2 * lo <= fl (a + b))%Q as H1.
    { rewrite Hlo, <- fl_double, <- Hlo. apply fl_mono. lra. }
    assert (fl (a + b) <= 2 * hi)%Q as H3.
    { rewrite Hhi, <- fl_double, <- Hhi. apply fl_mono. lra. }
    set (X := fl (a + b)) in *. clearbody X. clear -H1 H3.
    assert (X / 2 == X * (1 # 2))%Q as -> by (unfold Qdiv; reflexivity).
    split; lra.
  - apply Hs, nth_elem_of.
    apply Nat.div_lt; lia.
Qed.

End Median.

(** X21.  With a rounding [fl] of reals to floats that is monotone and for
    which doubling and halving a float are exact (binary floats away from
    overflow and underflow): the median of every statistics record that a
    run returns lies between its minimum and its maximum. *)
Theorem median_between_extremes fl fuel self num_requests concurrent w s w' :
  (∀ x y, (x <= y)%Q → (fl x <= fl y)%Q) →
  (∀ x, (fl (2 * fl x) == 2 * fl x)%Q) →
  (∀ x, (fl (fl x / 2) == fl x / 2)%Q) →
  run_performance_test fl fuel self num_requests concurrent w
  = Ret (StatsResult s) w' →
  (min_time s <= median_time s)%Q ∧ (median_time s <= max_time s)%Q.
Proof.
  intros Hmono Hdouble Hhalf (acc & Hloop & Hr)%run_performance_test_returns.
  assert (Forall (λ d, ∃ x, d = fl x) acc.1) as Himg.
  { apply (sequential_loop_invariant fl
             (λ acc : list Q * list Z, Forall (λ d, ∃ x, d = fl x) acc.1)
             fuel self (Z.to_nat num_requests)
             (λ acc0 tester w1 r w2 E H,
                record_outcome_rounded fl fuel acc0 tester w1 r w2 E H)
             ([], []) w acc w' (Forall_nil_2 _) Hloop). }
  unfold aggregate in Hr. destruct acc as [[|d ds] codes]; [done|].
  injection Hr as ->. cbn [min_time max_time median_time fst].
  rewrite Forall_forall in Himg.
  destruct (Himg _ (list_min_in d ds)) as [ylo Hlo].
  destruct (Himg _ (list_max_in d ds)) as [yhi Hhi].
  apply (median_bounds fl Hmono Hdouble Hhalf _ _ ylo yhi); [done..|].
  pose proof (list_min_le d ds) as Hmin. pose proof (list_max_ge d ds) as Hmax.
  rewrite Forall_forall in Hmin, Hmax. apply Forall_forall.
  intros y Hy. split; [by apply Hmin|by apply Hmax].
Qed.

Lemma median_between_extremes_witness :
  ∃ s w',
    run_performance_test (λ q, q) 1 sample_tester 2 false all_ok_world
    = Ret (StatsResult s) w'
    ∧ (min_time s <= median_time s)%Q ∧ (median_time s <= max_time s)%Q.
Proof.
  eexists _, _. split; [by vm_compute|].
  eapply (median_between_extremes (λ q, q) 1 sample_tester 2 false all_ok_world);
    [done|by intros|by intros|by vm_compute].
Defined.

(** ** The histogram *)

Lemma count_pos c l : c ∈ l → (0 < count c l)%nat.
Proof.
  unfold count. induction 1 as [c l|c x l _ IH].
  - rewrite filter_cons_True by done. simpl. lia.
  - destruct (decide (x = c)) as [->|Hne].
    + rewrite filter_cons_True by done. simpl. lia.
    + by rewrite filter_cons_False.
Qed.

(** X22.  The [status_codes] dict built from the list of counted status
    codes has a key exactly for each code that occurs in the list, and maps
    it to its number of occurrences, which is at least one. *)
Theorem histogram_counts l c :
  match histogram l !! c with
  | Some n => c ∈ l ∧ n = count c l ∧ (0 < n)%nat
  | None => c ∉ l
  end.
Proof.
  destruct (histogram l !! c) as [n|] eqn:E.
  - apply histogram_lookup in E as [Hc ->]. auto using count_pos.
  - intros Hc.
    assert (histogram l !! c = Some (count c l)) as E'
      by by apply histogram_lookup.
    congruence.
Qed.
